(** * The distance pipeline of hwloc ([src/distances.c])

    A shallow embedding of the functions of [distances.c] that store raw
    distance matrices, resolve their indexes against the object tree,
    normalise them into logically ordered latency matrices and group
    objects by minimal distance, followed by the properties established
    for them.

    Conventions.
    - A C [float] is an IEEE-754 binary32 number, modelled by the
      [spec_float] of the standard library at precision 24 and maximal
      exponent 128; comparisons and arithmetic are the library's.
    - A C array together with its element count is a [list] read at an
      index; a store outside the allocated block is a [Fault].
    - Counts of objects and loop counters are natural numbers. What the
      C program computes from them on its 32-bit [unsigned] type wraps
      around as it does there: the number of cells [nbobjs * nbobjs] of
      a matrix ([matrix_cells]) and the index [i * nbobjs + j] of a cell
      ([unsigned_index]); [size_t] is wider, so a byte count is the
      wrapped number of cells times the size of a cell. The rows of the
      arrays of the grouping code, which the C program declares with two
      dimensions, are addressed without such a product ([cell]). Values
      that come from outside (numbers read in a text, logical indexes,
      depths, group ids less one) are [N] with the wrap-around of
      [unsigned] written out.
    - A [for] loop is [for_range], which runs its body on consecutive
      indexes; a [while] loop and the recursion carry a budget and end in
      [Exhausted] when it runs out, which is proved not to happen.
    - An object pointer is the position of the object in the tree.
    - Memory is not modelled beyond the content of arrays: [free] has no
      counterpart, and what [fprintf] and [hwloc_debug] print is left
      out. *)

From Stdlib Require Import ZArith NArith Bool Lia Ascii String SpecFloat.
From stdpp Require Import base tactics option list.

Set Warnings "-register-all".
Local Open Scope nat_scope.

(** ** Binary32 numbers *)

Module F32.

Definition prec : Z := 24.
Definition emax : Z := 128.

Definition float := spec_float.

Definition lt : float -> float -> bool := SFltb.
Definition le : float -> float -> bool := SFleb.
Definition eq : float -> float -> bool := SFeqb.
Definition add : float -> float -> float := SFadd prec emax.
Definition div : float -> float -> float := SFdiv prec emax.

(** Conversion of a C integer to [float]. *)
Definition of_Z (z : Z) : float := binary_normalize prec emax z 0 false.

Definition zero : float := S754_zero false.
Definition one : float := Eval vm_compute in of_Z 1.

(** [<float.h>]: the largest finite number and the smallest positive
    normalised number. *)
Definition FLT_MAX : float := S754_finite false 16777215 104.
Definition FLT_MIN : float := S754_finite false 8388608 (-149).

(** [!x] on a float: true exactly when [x] compares equal to zero. *)
Definition is_zero (x : float) : bool := eq x zero.

Definition is_nan (x : float) : bool :=
  match x with S754_nan => true | _ => false end.

Definition is_finite (x : float) : bool :=
  match x with S754_finite _ _ _ | S754_zero _ => true | _ => false end.

End F32.

Abbreviation float := F32.float.

(** ** Outcomes of a run *)

Inductive outcome (A : Type) : Type :=
| Done (a : A)
| Fault     (* an access outside an allocated block, or a failed [assert] *)
| Exhausted.  (* the iteration budget of the model ran out *)

Arguments Done {A} a.
Arguments Fault {A}.
Arguments Exhausted {A}.

Definition obind {A B} (x : outcome A) (k : A -> outcome B) : outcome B :=
  match x with
  | Done a => k a
  | Fault => Fault
  | Exhausted => Exhausted
  end.

#[global] Instance outcome_ret : MRet outcome := fun A a => Done a.
#[global] Instance outcome_bind : MBind outcome := fun A B k x => obind x k.

(** ** Loops and arrays *)

(** [for (i = lo; i < lo + count; i++) s = body i s]. *)
Fixpoint for_range {St : Type} (body : nat -> St -> St) (lo count : nat) (s : St) : St :=
  match count with
  | O => s
  | S count' => for_range body (S lo) count' (body lo s)
  end.

(** The same loop when the body can fault. *)
Fixpoint for_range_o {St : Type} (body : nat -> St -> outcome St) (lo count : nat) (s : St)
  : outcome St :=
  match count with
  | O => Done s
  | S count' => obind (body lo s) (for_range_o body (S lo) count')
  end.

(** A loop that returns from the function as soon as [stop] holds at some
    index: [for (i = lo; i < lo + count; i++) if (stop i) return;]. *)
Fixpoint for_some (stop : nat -> bool) (lo count : nat) : bool :=
  match count with
  | O => false
  | S count' => if stop lo then true else for_some stop (S lo) count'
  end.

(** Reading cell [i] of an array; the filler [d] is what the model yields
    outside the block, where the C program has no defined value. *)
Definition rd {A : Type} (d : A) (a : list A) (i : nat) : A := nth i a d.

(** Cell [(i, j)] of a row-major [n]-column matrix of floats:
    [m[i][j]] for an array declared [float m[n][n]]. *)
Definition cell (n : nat) (m : list float) (i j : nat) : float :=
  rd F32.zero m (i * n + j).

(** ** Objects, the tree and the topology *)

(** [hwloc_obj_type_t]: the enumeration of object types, by rank. *)
Definition hwloc_obj_type_t := nat.

(** [unsigned] arithmetic wraps at 32 bits. *)
Definition UINT_MAX : N := 4294967295.
Definition u32 (x : N) : N := (x mod 4294967296)%N.

(** [nbobjs * nbobjs] on [unsigned]: the number of cells of the blocks
    allocated for a matrix of [nbobjs] objects, and the bound of the loops
    that run over them. *)
Definition matrix_cells (nbobjs : nat) : nat :=
  N.to_nat (u32 (N.of_nat nbobjs * N.of_nat nbobjs)).

(** [i * nbobjs + j] on [unsigned]. *)
Definition unsigned_index (nbobjs i j : nat) : nat :=
  N.to_nat (u32 (N.of_nat i * N.of_nat nbobjs + N.of_nat j)).

(** [m[i * nbobjs + j]] for a pointer [float *m]. *)
Definition ucell (nbobjs : nat) (m : list float) (i j : nat) : float :=
  rd F32.zero m (unsigned_index nbobjs i j).

(** [a[i] = x] on a block of floats. *)
Definition poke (a : list float) (i : nat) (x : float) : outcome (list float) :=
  if i <? length a then Done (<[i := x]> a) else Fault.

(** [hwloc_cpuset_t]: a bitmap over processing units; bit [k] is unit [k]. *)
Definition hwloc_cpuset_t := N.
Definition hwloc_bitmap_or (a b : hwloc_cpuset_t) : hwloc_cpuset_t := N.lor a b.
Definition hwloc_bitmap_isequal (a b : hwloc_cpuset_t) : bool := N.eqb a b.

(** [struct hwloc_distances_s]. A cell of [latency] that was never stored
    to since [malloc] is [None]. *)
Record hwloc_distances_s := {
  relative_depth : N;
  dist_nbobjs : nat;
  latency : list (option float);
  latency_max : float;
  latency_base : float
}.

(** The fields of [struct hwloc_obj] that [distances.c] touches;
    [distances_count] is the length of [obj_distances]. *)
Record hwloc_obj := {
  obj_type : hwloc_obj_type_t;
  os_index : N;
  cpuset : hwloc_cpuset_t;
  depth : N;
  logical_index : N;
  group_depth : Z;
  obj_distances : list hwloc_distances_s
}.

(** The tree: an object and its children from [first_child] along
    [next_sibling]. *)
Inductive hwloc_tree := Node (obj : hwloc_obj) (children : list hwloc_tree).

Definition tree_obj (t : hwloc_tree) : hwloc_obj := match t with Node o _ => o end.
Definition tree_children (t : hwloc_tree) : list hwloc_tree :=
  match t with Node _ cs => cs end.

(** [hwloc_obj_t]: a pointer to an object of the tree, as the ranks of the
    children to follow from the root. *)
Definition hwloc_obj_t := list nat.

Fixpoint subtree (t : hwloc_tree) (p : hwloc_obj_t) : option hwloc_tree :=
  match p with
  | [] => Some t
  | k :: p' =>
      match tree_children t !! k with
      | Some c => subtree c p'
      | None => None
      end
  end.

(** [*p] *)
Definition deref (t : hwloc_tree) (p : hwloc_obj_t) : option hwloc_obj :=
  tree_obj <$> subtree t p.

(** [*p = f( *p )] *)
Fixpoint update_obj (f : hwloc_obj -> hwloc_obj) (t : hwloc_tree) (p : hwloc_obj_t)
  : hwloc_tree :=
  match p with
  | [] => Node (f (tree_obj t)) (tree_children t)
  | k :: p' =>
      match tree_children t !! k with
      | Some c => Node (tree_obj t) (<[k := update_obj f c p']> (tree_children t))
      | None => t
      end
  end.

(** [struct hwloc_os_distances_s]; a [NULL] array is [None]. *)
Record hwloc_os_distances_s := {
  nbobjs : nat;
  indexes : option (list N);
  distances : option (list float);
  objs : option (list hwloc_obj_t)
}.

(** [struct hwloc_topology]: the root object [levels[0][0]] with the tree
    below it and the array [os_distances], one slot per object type (its
    length is [HWLOC_OBJ_TYPE_MAX]). *)
Record hwloc_topology := {
  levels : hwloc_tree;
  os_distances : list hwloc_os_distances_s
}.

Definition set_os_distances (topology : hwloc_topology) (od : list hwloc_os_distances_s)
  : hwloc_topology :=
  {| levels := levels topology; os_distances := od |}.

Definition set_levels (topology : hwloc_topology) (t : hwloc_tree) : hwloc_topology :=
  {| levels := t; os_distances := os_distances topology |}.

(** The slot of [type]; outside the array the model yields the empty slot. *)
Definition no_distances : hwloc_os_distances_s :=
  {| nbobjs := 0; indexes := None; distances := None; objs := None |}.

Definition slot (topology : hwloc_topology) (type : hwloc_obj_type_t) : hwloc_os_distances_s :=
  rd no_distances (os_distances topology) type.

(** ** The distance store *)

(** called during topology init *)
Definition hwloc_topology_distances_init (topology : hwloc_topology) : hwloc_topology :=
  set_os_distances topology
    (for_range (fun i od => <[i := no_distances]> od)
       0 (length (os_distances topology)) (os_distances topology)).

(** called when reloading a topology: drop [objs], keep the rest *)
Definition hwloc_topology_distances_clear (topology : hwloc_topology) : hwloc_topology :=
  set_os_distances topology
    (for_range
       (fun i od =>
          alter (fun s => {| nbobjs := nbobjs s; indexes := indexes s;
                             distances := distances s; objs := None |}) i od)
       0 (length (os_distances topology)) (os_distances topology)).

(** called during topology destroy; [nbobjs] is left as it is *)
Definition hwloc_topology_distances_destroy (topology : hwloc_topology) : hwloc_topology :=
  set_os_distances topology
    (for_range
       (fun i od =>
          alter (fun s => {| nbobjs := nbobjs s; indexes := None;
                             distances := None; objs := None |}) i od)
       0 (length (os_distances topology)) (os_distances topology)).

Definition EINVAL : Z := 22.

(** The result of a call that returns an [int] and may assign [errno]. *)
Record set_result := {
  ret : Z;
  errno : option Z;
  topo : hwloc_topology
}.

(** The two nested loops of [hwloc_topology__set_distance_matrix]: is the
    same index present twice among the first [nbobjs] cells? *)
Definition same_index_twice (nbobjs : nat) (indexes : list N) : bool :=
  for_some
    (fun i =>
       for_some (fun j => N.eqb (rd 0%N indexes i) (rd 0%N indexes j))
         (i + 1) (nbobjs - (i + 1)))
    0 nbobjs.

(** The three assignments that end
    [hwloc_topology__set_distance_matrix]. *)
Definition store_matrix (topology : hwloc_topology) (type : hwloc_obj_type_t)
    (nbobjs : nat) (indexes : list N) (distances : list float) : hwloc_topology :=
  set_os_distances topology
    (alter (fun s => {| nbobjs := nbobjs; indexes := Some indexes;
                        distances := Some distances; objs := objs s |})
       type (os_distances topology)).

(** check a distance index array and matrix and insert it in the topology *)
Definition hwloc_topology__set_distance_matrix (topology : hwloc_topology)
    (type : hwloc_obj_type_t) (nbobjs : nat) (indexes : list N) (distances : list float)
  : set_result :=
  (* make sure we don't have the same index twice *)
  if same_index_twice nbobjs indexes then
    {| ret := -1; errno := Some EINVAL; topo := topology |}
  else
    {| ret := 0; errno := None;
       topo := store_matrix topology type nbobjs indexes distances |}.

(** ** Distances from the environment *)

(** A [char *] is the text from the pointed character up to the
    terminating NUL; [p + n] drops [n] characters (and stays on the NUL
    when the text is shorter, where the C program never reads). *)
Fixpoint advance (n : nat) (p : string) : string :=
  match n, p with
  | S n', String _ p' => advance n' p'
  | _, _ => p
  end.

(** [p[n]], [None] being the terminating NUL. *)
Definition char_at (p : string) (n : nat) : option ascii := String.get n p.

(** [p[n] == c] for a character [c] that is not NUL. *)
Definition char_is (p : string) (n : nat) (c : ascii) : bool :=
  match char_at p n with
  | Some c' => Ascii.eqb c' c
  | None => false
  end.

(** [!p[n]] *)
Definition at_end (p : string) (n : nat) : bool :=
  match char_at p n with
  | Some _ => false
  | None => true
  end.

Fixpoint in_set (c : ascii) (set : string) : bool :=
  match set with
  | EmptyString => false
  | String c' set' => Ascii.eqb c c' || in_set c set'
  end.

(** [strspn] of the C library. *)
Fixpoint strspn (p accept : string) : nat :=
  match p with
  | EmptyString => 0
  | String c p' => if in_set c accept then S (strspn p' accept) else 0
  end.

(** [isspace] in the C locale. *)
Definition isspace (c : ascii) : bool :=
  let n := nat_of_ascii c in Nat.eqb n 32 || ((9 <=? n) && (n <=? 13)).

Fixpoint skip_spaces (p : string) : string :=
  match p with
  | String c p' => if isspace c then skip_spaces p' else p
  | EmptyString => p
  end.

(** The value of a character as a digit, letters counting from ten. *)
Definition digit_value (c : ascii) : option N :=
  let n := N_of_ascii c in
  if (48 <=? n)%N && (n <=? 57)%N then Some (n - 48)%N
  else if (97 <=? n)%N && (n <=? 122)%N then Some (n - 87)%N
  else if (65 <=? n)%N && (n <=? 90)%N then Some (n - 55)%N
  else None.

(** The longest run of digits of [base] at [p]: its value from [acc], whether
    a digit was read, and the text after it. *)
Fixpoint read_digits (base : N) (p : string) (acc : N) (seen : bool) : N * bool * string :=
  match p with
  | EmptyString => (acc, seen, p)
  | String c p' =>
      match digit_value c with
      | Some v => if (v <? base)%N then read_digits base p' (acc * base + v)%N true
                  else (acc, seen, p)
      | None => (acc, seen, p)
      end
  end.

Definition read_sign (p : string) : bool * string :=
  match p with
  | String "-" p' => (true, p')
  | String "+" p' => (false, p')
  | _ => (false, p)
  end.

Definition is_hex_digit (c : option ascii) : bool :=
  match c with
  | Some c => match digit_value c with Some v => (v <? 16)%N | None => false end
  | None => false
  end.

(** The number read in [base] after white space and a sign, on
    [unsigned long] (64 bits): clamped when too large, negated when the
    sign is [-]; without a digit nothing is read and the end pointer is
    [p]. *)
Definition ULONG_MAX : N := 18446744073709551615.

Definition read_unsigned_long (base : N) (digits_at : string) (negative : bool) (p : string)
  : N * string :=
  let '(v, seen, rest) := read_digits base digits_at 0%N false in
  if seen then
    ((if (ULONG_MAX <? v)%N then ULONG_MAX
      else if negative then ((ULONG_MAX + 1 - v) mod (ULONG_MAX + 1))%N else v), rest)
  else (0%N, p).

(** [strtoul(p, &next, 0)] of the C library: the value and [next]. With
    base 0 a leading [0x] announces hexadecimal digits and a leading [0]
    octal ones. *)
Definition strtoul (p : string) : N * string :=
  let '(negative, q) := read_sign (skip_spaces p) in
  match q with
  | String "0" (String x q') =>
      if (Ascii.eqb x "x" || Ascii.eqb x "X") && is_hex_digit (char_at q' 0)
      then read_unsigned_long 16 q' negative p
      else read_unsigned_long 8 q negative p
  | String "0" _ => read_unsigned_long 8 q negative p
  | _ => read_unsigned_long 10 q negative p
  end.

(** The directive [%u] of [sscanf]: white space, a sign, decimal digits;
    the value as stored in an [unsigned], or [None] when nothing matches. *)
Definition scan_u (p : string) : option (N * string) :=
  let '(negative, q) := read_sign (skip_spaces p) in
  let '(v, seen, rest) := read_digits 10 q 0%N false in
  if seen then Some (u32 (fst (read_unsigned_long 10 q negative p)), rest) else None.

(** [sscanf(p, "%u*%u*%u", &x, &y, &z)]: the values assigned, in order;
    the value returned by [sscanf] is at least 2 exactly when two or more
    were assigned. *)
Definition sscanf_u_u_u (p : string) : list N :=
  match scan_u p with
  | Some (x, String "*" p) =>
      match scan_u p with
      | Some (y, String "*" p) =>
          match scan_u p with
          | Some (z, _) => [x; y; z]
          | None => [x; y]
          end
      | Some (y, _) => [x; y]
      | None => [x]
      end
  | Some (x, _) => [x]
  | None => []
  end.

(** count indexes: the [while (1)] loop; the pointer after it and the count *)
Fixpoint count_indexes (budget : nat) (tmp : string) (nbobjs : nat)
  : outcome (string * nat) :=
  match budget with
  | O => Exhausted
  | S budget' =>
      let size := strspn tmp "0123456789" in
      if negb (char_is tmp size ",") then
        (* last element *)
        Done (advance size tmp, nbobjs + 1)
      else
        (* another index *)
        count_indexes budget' (advance (size + 1) tmp) (nbobjs + 1)
  end.

(** parse indexes: the array and the pointer after the loop *)
Definition parse_indexes (nbobjs : nat) (tmp : string) : list N * string :=
  for_range
    (fun i '(indexes, tmp) =>
       let '(v, next) := strtoul tmp in
       (<[i := u32 v]> indexes, advance 1 next))
    0 nbobjs (replicate nbobjs 0%N, tmp).

(** generate the matrix to create x groups of y elements *)
Definition grouping_matrix (nbobjs : nat) (y z : N) (distances : list float)
  : outcome (list float) :=
  for_range_o
    (fun i =>
       for_range_o
         (fun j distances =>
            poke distances (unsigned_index nbobjs i j)
              (if Nat.eqb i j then F32.of_Z 1
               else if (N.of_nat i / z =? N.of_nat j / z)%N then F32.of_Z 2
               else if (N.of_nat i / z / y =? N.of_nat j / z / y)%N then F32.of_Z 4
               else F32.of_Z 8))
         0 nbobjs)
    0 nbobjs distances.

Section Environment.

(** [strtof(p, &next)] of the C library: the value and [next]. *)
Variable strtof : string -> float * string.

(** parse a comma separated list of distances: [None] when values are
    missing *)
Fixpoint parse_distances (total : nat) (i count : nat) (tmp : string)
    (distances : list float) : option (list float) :=
  match count with
  | O => Some distances
  | S count' =>
      let '(v, next) := strtof tmp in
      let distances := <[i := v]> distances in
      if at_end next 0 && negb (Nat.eqb i (total - 1)) then None
      else parse_distances total (S i) count' (advance 1 next) distances
  end.

Definition hwloc_get_type_distances_from_string (topology : hwloc_topology)
    (type : hwloc_obj_type_t) (string : string) : outcome hwloc_topology :=
  '(tmp, nbobjs) ← count_indexes (S (String.length string)) string 0;
  if negb (char_is tmp 0 ":") then Done topology
  else
    let indexes := replicate nbobjs 0%N in
    let distances := replicate (matrix_cells nbobjs) F32.zero in
    let '(indexes, tmp) := parse_indexes nbobjs string in
    (* parse distances *)
    match sscanf_u_u_u tmp with
    | x :: y :: rest =>
        let z := match rest with z :: _ => z | [] => 1%N end in
        if negb (u32 (x * y * z) =? N.of_nat nbobjs)%N then Done topology
        else
          distances ← grouping_matrix nbobjs y z distances;
          Done (topo (hwloc_topology__set_distance_matrix topology type nbobjs indexes
                        distances))
    | _ =>
        match parse_distances (matrix_cells nbobjs) 0 (matrix_cells nbobjs) tmp distances with
        | None => Done topology
        | Some distances =>
            Done (topo (hwloc_topology__set_distance_matrix topology type nbobjs indexes
                          distances))
        end
    end.

End Environment.

(** ** Setting distances through the interface *)

(** [memcpy] of the first [n] cells into a fresh block of [n] cells. *)
Definition copy_cells {A : Type} (d : A) (n : nat) (a : list A) : list A :=
  map (rd d a) (seq 0 n).

(** take the given distance, store them as is in the topology *)
Definition hwloc_topology_set_distance_matrix (topology : hwloc_topology)
    (type : hwloc_obj_type_t) (nbobjs : nat) (indexes : list N) (distances : list float)
  : set_result :=
  let _indexes := copy_cells 0%N nbobjs indexes in
  let _distances := copy_cells F32.zero (matrix_cells nbobjs) distances in
  hwloc_topology__set_distance_matrix topology type nbobjs _indexes _distances.

(** ** Resolving indexes into objects *)

Fixpoint hwloc_find_obj_by_type_and_os_index (root : hwloc_tree)
    (type : hwloc_obj_type_t) (os_idx : N) {struct root} : option hwloc_obj_t :=
  match root with
  | Node o children =>
      if Nat.eqb (obj_type o) type && N.eqb (os_index o) os_idx then Some []
      else
        (fix walk (child : list hwloc_tree) (k : nat) {struct child} : option hwloc_obj_t :=
           match child with
           | [] => None
           | c :: next_sibling =>
               match hwloc_find_obj_by_type_and_os_index c type os_idx with
               | Some found => Some (k :: found)
               | None => walk next_sibling (S k)
               end
           end) children 0
  end.

(** The walk along [next_sibling] inside it, by name. *)
Definition find_in_children (type : hwloc_obj_type_t) (os_idx : N) :=
  fix walk (child : list hwloc_tree) (k : nat) {struct child} : option hwloc_obj_t :=
    match child with
    | [] => None
    | c :: next_sibling =>
        match hwloc_find_obj_by_type_and_os_index c type os_idx with
        | Some found => Some (k :: found)
        | None => walk next_sibling (S k)
        end
    end.

(** The loop over [i] of [hwloc_convert_distances_indexes_into_objects]:
    [None] is the array freed and set to [NULL] at the first unknown index. *)
Fixpoint resolve_from (root : hwloc_tree) (type : hwloc_obj_type_t) (indexes : list N)
    (i count : nat) (objs : list hwloc_obj_t) : option (list hwloc_obj_t) :=
  match count with
  | O => Some objs
  | S count' =>
      match hwloc_find_obj_by_type_and_os_index root type (rd 0%N indexes i) with
      | None => None
      | Some obj => resolve_from root type indexes (S i) count' (<[i := obj]> objs)
      end
  end.

(** One turn of the loop over the types. [calloc] yields [nbobjs] null
    pointers; a null pointer is written [[]] here, and every cell is
    overwritten before the array is stored. *)
Definition convert_type (root : hwloc_tree) (type : hwloc_obj_type_t)
    (s : hwloc_os_distances_s) : hwloc_os_distances_s :=
  match indexes s with
  | Some idx =>
      {| nbobjs := nbobjs s; indexes := indexes s; distances := distances s;
         objs := resolve_from root type idx 0 (nbobjs s) (replicate (nbobjs s) []) |}
  | None => s
  end.

(** convert distance indexes that were previously stored in the topology
    into actual objects *)
Definition hwloc_convert_distances_indexes_into_objects (topology : hwloc_topology)
  : hwloc_topology :=
  set_os_distances topology
    (for_range (fun type od => alter (convert_type (levels topology) type) type od)
       0 (length (os_distances topology)) (os_distances topology)).

(** ** Logically ordered latency matrices *)

(** [a - b] on [unsigned]. *)
Definition usub (a b : N) : N := u32 (a + 4294967296 - u32 b)%N.

(** What the model reads through a pointer outside the array of objects. *)
Definition no_obj : hwloc_obj :=
  {| obj_type := 0; os_index := 0%N; cpuset := 0%N; depth := 0%N;
     logical_index := 0%N; group_depth := 0%Z; obj_distances := [] |}.

(** The union of the cpusets of [objs[0..nbobjs-1]]. *)
Definition union_cpusets (nbobjs : nat) (objs : list hwloc_obj) : hwloc_cpuset_t :=
  for_range (fun i set => hwloc_bitmap_or set (cpuset (rd no_obj objs i))) 0 nbobjs 0%N.

(** get the logical index offset, it's the min of all logical indexes *)
Definition min_logical_index (nbobjs : nat) (objs : list hwloc_obj) : N :=
  for_range
    (fun i minl =>
       if (logical_index (rd no_obj objs i) <? minl)%N
       then logical_index (rd no_obj objs i) else minl)
    0 nbobjs UINT_MAX.

(** compute/check min/max values: the pair [(min, max)] after the scan *)
Definition scan_min_max (nbobjs : nat) (osmatrix : list float) : float * float :=
  for_range
    (fun i =>
       for_range
         (fun j '(min, max) =>
            let val := ucell nbobjs osmatrix i j in
            let min := if F32.lt val min then val else min in
            let max := if F32.lt max val then val else max in
            (min, max))
         0 nbobjs)
    0 nbobjs (F32.FLT_MAX, F32.FLT_MIN).

(** [matrix[i] = x] on the block of [malloc]. *)
Definition store (matrix : list (option float)) (i : N) (x : float)
  : outcome (list (option float)) :=
  if (i <? N.of_nat (length matrix))%N then Done (<[N.to_nat i := Some x]> matrix)
  else Fault.

(** The loops that fill the logically ordered matrix; [NORMALIZE_LATENCY(d)]
    is [d / min]. *)
Definition fill_latency (nbobjs : nat) (objs : list hwloc_obj) (osmatrix : list float)
    (minl : N) (min : float) (matrix : list (option float))
  : outcome (list (option float)) :=
  let n := N.of_nat nbobjs in
  for_range_o
    (fun i matrix =>
       let li := usub (logical_index (rd no_obj objs i)) minl in
       matrix ← store matrix (u32 (li * n + li)) (F32.div (ucell nbobjs osmatrix i i) min);
       for_range_o
         (fun j matrix =>
            let lj := usub (logical_index (rd no_obj objs j)) minl in
            matrix ← store matrix (u32 (li * n + lj))
                       (F32.div (ucell nbobjs osmatrix i j) min);
            store matrix (u32 (lj * n + li)) (F32.div (ucell nbobjs osmatrix j i) min))
         (i + 1) (nbobjs - (i + 1)) matrix)
    0 nbobjs matrix.

(** [root->distances[root->distances_count++] = d] *)
Definition add_distances (d : hwloc_distances_s) (root : hwloc_obj) : hwloc_obj :=
  {| obj_type := obj_type root; os_index := os_index root; cpuset := cpuset root;
     depth := depth root; logical_index := logical_index root;
     group_depth := group_depth root; obj_distances := obj_distances root ++ [d] |}.

Section Normalizer.

(** [hwloc_get_obj_covering_cpuset], from the helpers of the library: the
    object found for a cpuset, or [NULL]. *)
Variable hwloc_get_obj_covering_cpuset :
  hwloc_topology -> hwloc_cpuset_t -> option hwloc_obj_t.

(** [objs] are the objects the array of pointers of the C function points
    to; the fields read from them are not written by the function. *)
Definition hwloc_setup_distances_from_os_matrix (topology : hwloc_topology)
    (nbobjs : nat) (objs : list hwloc_obj) (osmatrix : list float)
  : outcome hwloc_topology :=
  (* find the root *)
  let set := union_cpusets nbobjs objs in
  match hwloc_get_obj_covering_cpuset topology set with
  | None => Fault (* assert(root) *)
  | Some root =>
      match deref (levels topology) root with
      | None => Fault
      | Some root_obj =>
          if negb (hwloc_bitmap_isequal set (cpuset root_obj)) then Done topology
          else
            let relative_depth := usub (depth (rd no_obj objs 0)) (depth root_obj) in
            let minl := min_logical_index nbobjs objs in
            let '(min, max) := scan_min_max nbobjs osmatrix in
            if F32.is_zero min then Done topology
            else
              matrix ← fill_latency nbobjs objs osmatrix minl min
                         (replicate (matrix_cells nbobjs) None);
              Done
                (set_levels topology
                   (update_obj
                      (add_distances
                         {| relative_depth := relative_depth;
                            dist_nbobjs := nbobjs;
                            latency := matrix;
                            latency_max := F32.div max min;
                            latency_base := min |})
                      (levels topology) root))
      end
  end.

End Normalizer.

(** ** Grouping by minimal distance *)

(** find the minimal distance: the scan of the cells above the diagonal *)
Definition find_min_distance (nbobjs : nat) (distances : list float) : float :=
  for_range
    (fun i =>
       for_range
         (fun j min_distance =>
            if F32.lt (cell nbobjs distances i j) min_distance
            then cell nbobjs distances i j else min_distance)
         (i + 1) (nbobjs - (i + 1)))
    0 nbobjs F32.FLT_MAX.

(** The variables a rescan updates; [newfirstfound] is [None] for [-1]. *)
Record rescan := {
  groupids : list nat;
  size : nat;
  newfirstfound : option nat
}.

(** One turn of the [while] loop: the loops over [j] and [k]. *)
Definition rescan_from (nbobjs : nat) (distances : list float) (min_distance : float)
    (groupid firstfound : nat) (groupids0 : list nat) (size0 : nat) : rescan :=
  for_range
    (fun j st =>
       if Nat.eqb (rd 0 (groupids st) j) groupid then
         for_range
           (fun k st =>
              if Nat.eqb (rd 0 (groupids st) k) 0
                 && F32.eq (cell nbobjs distances j k) min_distance
              then {| groupids := <[k := groupid]> (groupids st);
                      size := S (size st);
                      newfirstfound :=
                        match newfirstfound st with
                        | None => Some k
                        | Some first => Some first
                        end |}
              else st)
           0 nbobjs st
       else st)
    firstfound (nbobjs - firstfound)
    {| groupids := groupids0; size := size0; newfirstfound := None |}.

(** [while (firstfound != -1)], with at most [budget] turns. *)
Fixpoint grow_group (budget : nat) (nbobjs : nat) (distances : list float)
    (min_distance : float) (groupid firstfound : nat) (groupids0 : list nat) (size0 : nat)
  : outcome (list nat * nat) :=
  match budget with
  | O => Exhausted
  | S budget' =>
      let st := rescan_from nbobjs distances min_distance groupid firstfound groupids0 size0 in
      match newfirstfound st with
      | None => Done (groupids st, size st)
      | Some found =>
          grow_group budget' nbobjs distances min_distance groupid found
            (groupids st) (size st)
      end
  end.

(** build groups of objects connected with this distance: the body of the
    loop over [i], on the pair [(groupids, groupid)] *)
Definition build_group (nbobjs : nat) (distances : list float) (min_distance : float)
    (i : nat) (st : list nat * nat) : outcome (list nat * nat) :=
  let '(groupids, groupid) := st in
  (* if already grouped, skip *)
  if negb (Nat.eqb (rd 0 groupids i) 0) then Done (groupids, groupid)
  else
    (* start a new group *)
    '(groupids, size) ← grow_group (S nbobjs) nbobjs distances min_distance groupid i
                          (<[i := groupid]> groupids) 1;
    if Nat.eqb size 1 then
      (* cancel this group and start over *)
      Done (<[i := 0]> groupids, groupid)
    else
      (* valid this group *)
      Done (groupids, groupid + 1).

(** Place objects in groups if they are in a transitive graph of minimal
    distances: the number of groups and the array [groupids]. *)
Definition hwloc_setup_group_from_min_distance (nbobjs : nat) (distances : list float)
  : outcome (nat * list nat) :=
  let groupids := replicate nbobjs 0 in
  let min_distance := find_min_distance nbobjs distances in
  if F32.eq min_distance F32.FLT_MAX then Done (0, groupids)
  else
    '(groupids, groupid) ← for_range_o (build_group nbobjs distances min_distance)
                             0 nbobjs (groupids, 1);
    (* return the last id, since it's also the number of used group ids *)
    Done (groupid - 1, groupids).

(** The index [groupids[i] - 1], computed on [unsigned]. *)
Definition group_index (groupid : nat) : N := usub (N.of_nat groupid) 1.

(** [groupdistances[a][b] += d] on the [nbgroups]-by-[nbgroups] array. *)
Definition accumulate (nbgroups : nat) (groupdistances : list float) (a b : N) (d : float)
  : outcome (list float) :=
  if (a <? N.of_nat nbgroups)%N && (b <? N.of_nat nbgroups)%N then
    let c := N.to_nat a * nbgroups + N.to_nat b in
    Done (<[c := F32.add (rd F32.zero groupdistances c) d]> groupdistances)
  else Fault.

(** factorize distances *)
Definition factorize (nbobjs : nat) (distances : list float) (groupids : list nat)
    (nbgroups : nat) (groupsizes : list nat) : outcome (list float) :=
  groupdistances ←
    for_range_o
      (fun i =>
         for_range_o
           (fun j groupdistances =>
              accumulate nbgroups groupdistances
                (group_index (rd 0 groupids i)) (group_index (rd 0 groupids j))
                (cell nbobjs distances i j))
           0 nbobjs)
      0 nbobjs (replicate (nbgroups * nbgroups) F32.zero);
  Done
    (for_range
       (fun i =>
          for_range
            (fun j groupdistances =>
               <[i * nbgroups + j :=
                   F32.div (rd F32.zero groupdistances (i * nbgroups + j))
                     (F32.of_Z
                        (Z.of_N (u32 (N.of_nat (rd 0 groupsizes i)
                                      * N.of_nat (rd 0 groupsizes j)))))]>
                 groupdistances)
            0 nbgroups)
       0 nbgroups groupdistances).

(** check that the matrix is ok: does one of the two tests of the loops
    over [i] and [j > i] abort? *)
Definition matrix_rejected (nbobjs : nat) (distances : list float) : bool :=
  for_some
    (fun i =>
       for_some
         (fun j =>
            (* should be symmetric *)
            negb (F32.eq (cell nbobjs distances i j) (cell nbobjs distances j i))
            (* diagonal is smaller than everything else *)
            || F32.le (cell nbobjs distances i j) (cell nbobjs distances i i))
         (i + 1) (nbobjs - (i + 1)))
    0 nbobjs.

Section Grouping.

(** What [distances.c] takes from the rest of the library: the rank of
    the [Group] type, the allocation of an object of a type with an OS
    index, and the insertion of an object in the tree by its cpuset. *)
Variable HWLOC_OBJ_GROUP : hwloc_obj_type_t.
Variable hwloc_alloc_setup_object : hwloc_obj_type_t -> Z -> hwloc_obj.
Variable hwloc_insert_object_by_cpuset : hwloc_topology -> hwloc_obj -> hwloc_topology.

(** The Group object once its cpuset and its depth are assigned. *)
Definition new_group (set : hwloc_cpuset_t) (group_level : Z) : hwloc_obj :=
  let group_obj := hwloc_alloc_setup_object HWLOC_OBJ_GROUP (-1) in
  {| obj_type := obj_type group_obj; os_index := os_index group_obj;
     cpuset := set; depth := depth group_obj;
     logical_index := logical_index group_obj; group_depth := group_level;
     obj_distances := obj_distances group_obj |}.

(** The variables of the loop that creates the groups. *)
Record grouping := {
  g_topology : hwloc_topology;
  groupobjs : list hwloc_obj;
  groupsizes : list nat
}.

(** create new Group objects and record their size *)
Definition create_groups (topology : hwloc_topology) (nbobjs : nat)
    (objs : list hwloc_obj) (groupids : list nat) (nbgroups : nat) (depth : Z) : grouping :=
  for_range
    (fun i st =>
       let '(set, groupsize) :=
         for_range
           (fun j '(set, groupsize) =>
              if Nat.eqb (rd 0 groupids j) (i + 1)
              then (hwloc_bitmap_or set (cpuset (rd no_obj objs j)), S groupsize)
              else (set, groupsize))
           0 nbobjs (0%N, rd 0 (groupsizes st) i) in
       let group_obj := new_group set depth in
       {| g_topology := hwloc_insert_object_by_cpuset (g_topology st) group_obj;
          groupobjs := <[i := group_obj]> (groupobjs st);
          groupsizes := <[i := groupsize]> (groupsizes st) |})
    0 nbgroups
    {| g_topology := topology;
       groupobjs := replicate nbgroups no_obj;
       groupsizes := replicate nbgroups 0 |}.

(** Look at object physical distances to group them; [budget] bounds the
    depth of the recursion. *)
Fixpoint hwloc__setup_groups_from_distances (budget : nat) (topology : hwloc_topology)
    (nbobjs : nat) (objs : list hwloc_obj) (distances : list float) (depth : Z)
  : outcome hwloc_topology :=
  if nbobjs <=? 2 then Done topology
  else
    '(nbgroups, groupids) ← hwloc_setup_group_from_min_distance nbobjs distances;
    if Nat.eqb nbgroups 0 then Done topology
    else if Nat.eqb nbgroups 1 then Done topology
    else
      let st := create_groups topology nbobjs objs groupids nbgroups depth in
      groupdistances ← factorize nbobjs distances groupids nbgroups (groupsizes st);
      match budget with
      | O => Exhausted
      | S budget' =>
          hwloc__setup_groups_from_distances budget' (g_topology st) nbgroups
            (groupobjs st) groupdistances (depth + 1)
      end.

(** Look at object physical distances to group them. [ignore_distances]
    is whether [getenv("HWLOC_IGNORE_DISTANCES")] is set. *)
Definition hwloc_setup_groups_from_distances (ignore_distances : bool)
    (topology : hwloc_topology) (nbobjs : nat) (objs : list hwloc_obj)
    (distances : list float) : outcome hwloc_topology :=
  if ignore_distances then Done topology
  else if matrix_rejected nbobjs distances then Done topology
  else hwloc__setup_groups_from_distances nbobjs topology nbobjs objs distances 0.

End Grouping.

(** ** The loops over the object types *)

(** The objects an array of pointers points to in a tree; through a
    pointer that leads nowhere the model reads [no_obj]. *)
Definition pointed (tree : hwloc_tree) (objs : list hwloc_obj_t) : list hwloc_obj :=
  map (fun p => default no_obj (deref tree p)) objs.

Section EnvironmentVariables.

Variable strtof : string -> float * string.

(** [hwloc_obj_type_string], from the traversal helpers of the library,
    and [getenv] of the C library, [None] being [NULL]. *)
Variable hwloc_obj_type_string : hwloc_obj_type_t -> string.
Variable getenv : string -> option string.

(** [snprintf(envname, sizeof(envname), "HWLOC_%s_DISTANCES", ...)] into
    a block of 64 characters: the 63 first characters of the name. *)
Definition distances_envname (type : hwloc_obj_type_t) : string :=
  substring 0 63 ("HWLOC_" ++ hwloc_obj_type_string type ++ "_DISTANCES")%string.

(** take distances in the environment, store them as is in the topology *)
Definition hwloc_store_distances_from_env (topology : hwloc_topology)
  : outcome hwloc_topology :=
  for_range_o
    (fun type topology =>
       match getenv (distances_envname type) with
       | Some env => hwloc_get_type_distances_from_string strtof topology type env
       | None => Done topology
       end)
    0 (length (os_distances topology)) topology.

End EnvironmentVariables.

Section Finalize.

Variable hwloc_get_obj_covering_cpuset :
  hwloc_topology -> hwloc_cpuset_t -> option hwloc_obj_t.

(** [hwloc_get_type_depth], from the traversal helpers of the library,
    and the two values it returns for a type without a depth of its own. *)
Variable hwloc_get_type_depth : hwloc_topology -> hwloc_obj_type_t -> Z.
Variable HWLOC_TYPE_DEPTH_UNKNOWN : Z.
Variable HWLOC_TYPE_DEPTH_MULTIPLE : Z.

(** One turn of the loop over the types. *)
Definition finalize_type (type : hwloc_obj_type_t) (topology : hwloc_topology)
  : outcome hwloc_topology :=
  let s := slot topology type in
  if Nat.eqb (nbobjs s) 0 then Done topology
  else
    let type_depth := hwloc_get_type_depth topology type in
    if Z.eqb type_depth HWLOC_TYPE_DEPTH_UNKNOWN
       || Z.eqb type_depth HWLOC_TYPE_DEPTH_MULTIPLE
    then Done topology
    else
      match objs s with
      | Some objs =>
          match distances s with
          | None => Fault (* assert(topology->os_distances[type].distances) *)
          | Some distances =>
              hwloc_setup_distances_from_os_matrix hwloc_get_obj_covering_cpuset
                topology (nbobjs s) (pointed (levels topology) objs) distances
          end
      | None => Done topology
      end.

(** convert internal distances into logically-ordered distances that can
    be exposed in the API *)
Definition hwloc_finalize_logical_distances (topology : hwloc_topology)
  : outcome hwloc_topology :=
  for_range_o finalize_type 0 (length (os_distances topology)) topology.

End Finalize.

Section GroupByDistances.

Variable HWLOC_OBJ_GROUP : hwloc_obj_type_t.
Variable hwloc_alloc_setup_object : hwloc_obj_type_t -> Z -> hwloc_obj.
Variable hwloc_insert_object_by_cpuset : hwloc_topology -> hwloc_obj -> hwloc_topology.
Variable getenv : string -> option string.

(** [getenv("HWLOC_IGNORE_DISTANCES")] as a condition. *)
Definition ignore_distances_set : bool :=
  match getenv "HWLOC_IGNORE_DISTANCES" with
  | Some _ => true
  | None => false
  end.

(** One turn of the loop over the types. The objects are read through
    their pointers in [tree], the tree as it is when
    [hwloc_group_by_distances] is entered: an insertion links a new object
    and leaves those that exist where they are in memory, with their
    cpusets. *)
Definition group_type (tree : hwloc_tree) (type : hwloc_obj_type_t)
    (topology : hwloc_topology) : outcome hwloc_topology :=
  let s := slot topology type in
  if Nat.eqb (nbobjs s) 0 then Done topology
  else
    match objs s with
    | Some objs =>
        match distances s with
        | None => Fault (* assert(topology->os_distances[type].distances) *)
        | Some distances =>
            hwloc_setup_groups_from_distances HWLOC_OBJ_GROUP hwloc_alloc_setup_object
              hwloc_insert_object_by_cpuset ignore_distances_set
              topology (nbobjs s) (pointed tree objs) distances
        end
    | None => Done topology
    end.

Definition hwloc_group_by_distances (topology : hwloc_topology)
  : outcome hwloc_topology :=
  for_range_o (group_type (levels topology))
    0 (length (os_distances topology)) topology.

End GroupByDistances.

(** * Notions used in the statements *)

(** ** Groups *)

(** The number of cells of [groupids] that hold [id]: the members of group
    [id], or the objects that belong to no group yet when [id] is 0. *)
Fixpoint members (id : nat) (groupids : list nat) : nat :=
  match groupids with
  | [] => 0
  | x :: rest => (if Nat.eqb x id then 1 else 0) + members id rest
  end.

Definition unassigned (groupids : list nat) : nat := members 0 groupids.

(** What a rescan for group [id] keeps, from the array [g] and the size
    [s] it starts with: the length of [groupids]; every object it takes
    out of those without a group goes to group [id] and is counted in
    [size]; the other groups are untouched. It leaves everything as it
    was when it finds nothing, and makes [size] grow otherwise. *)
Definition rescan_inv (n id : nat) (g : list nat) (s : nat) (st : rescan) : Prop :=
  length (groupids st) = n
  /\ unassigned (groupids st) + size st = unassigned g + s
  /\ members id (groupids st) + s = members id g + size st
  /\ (forall other, other <> 0 -> other <> id ->
        members other (groupids st) = members other g)
  /\ s <= size st
  /\ match newfirstfound st with
     | None => groupids st = g /\ size st = s
     | Some _ => s < size st
     end.

(** What the loop over [i] keeps, on the pair of [groupids] and of the
    next group id: every committed group has two members or more, taken
    out of the objects without a group, and no object has an id that is
    not committed. *)
Definition build_inv (n : nat) (st : list nat * nat) : Prop :=
  length st.1 = n /\ 1 <= st.2
  /\ 2 * (st.2 - 1) + unassigned st.1 <= n
  /\ (forall id, 1 <= id < st.2 -> 2 <= members id st.1)
  /\ (forall id, st.2 <= id -> members id st.1 = 0).

(** ** Rows of the logically ordered matrix *)

(** The row (and the column) of the logically ordered matrix that
    [hwloc_setup_distances_from_os_matrix] computes for object [i]:
    [objs[i]->logical_index - minl]. *)
Definition logical_row (nbobjs : nat) (objs : list hwloc_obj) (i : nat) : N :=
  usub (logical_index (rd no_obj objs i)) (min_logical_index nbobjs objs).

(** The cell of the flat latency array that the function writes for the
    objects [i] and [j]: [li * nbobjs + lj], computed on [unsigned]. *)
Definition latency_cell (nbobjs : nat) (objs : list hwloc_obj) (i j : nat) : nat :=
  N.to_nat (u32 (logical_row nbobjs objs i * N.of_nat nbobjs + logical_row nbobjs objs j)).

(** The cells written for the objects lie inside the block allocated for
    the matrix, and differ from one pair of objects to the other. Outside
    the block the C function writes beyond what it allocated. *)
Definition cells_inside (nbobjs : nat) (objs : list hwloc_obj) : Prop :=
  forall i j, i < nbobjs -> j < nbobjs -> latency_cell nbobjs objs i j < matrix_cells nbobjs.

Definition cells_distinct (nbobjs : nat) (objs : list hwloc_obj) : Prop :=
  forall i j i' j', i < nbobjs -> j < nbobjs -> i' < nbobjs -> j' < nbobjs ->
    latency_cell nbobjs objs i j = latency_cell nbobjs objs i' j' -> i = i' /\ j = j'.

Definition well_placed (nbobjs : nat) (objs : list hwloc_obj) : Prop :=
  cells_inside nbobjs objs /\ cells_distinct nbobjs objs.

(** The case the function is written for: [nbobjs * nbobjs] is an
    [unsigned], and the rows of the objects lie inside the matrix and
    differ from one object to the other, as the logical indexes of the
    objects of one level below a common ancestor do. *)
Definition matrix_fits (nbobjs : nat) : Prop :=
  (N.of_nat nbobjs * N.of_nat nbobjs <= UINT_MAX)%N.

Definition rows_inside (nbobjs : nat) (objs : list hwloc_obj) : Prop :=
  forall i, i < nbobjs -> (logical_row nbobjs objs i < N.of_nat nbobjs)%N.

Definition rows_distinct (nbobjs : nat) (objs : list hwloc_obj) : Prop :=
  forall i j, i < nbobjs -> j < nbobjs ->
    logical_row nbobjs objs i = logical_row nbobjs objs j -> i = j.

(** ** Decimal numerals and the text of a grouping shorthand *)

(** The character of a decimal digit. *)
Definition digit_char (d : N) : ascii := ascii_of_N (48 + d).

(** The text of a numeral given by its digits, most significant first, and
    its value. *)
Fixpoint numeral (ds : list N) : string :=
  match ds with
  | [] => EmptyString
  | d :: ds' => String (digit_char d) (numeral ds')
  end.

Definition numeral_from (acc : N) (ds : list N) : N :=
  fold_left (fun acc d => (acc * 10 + d)%N) ds acc.

Definition numeral_value (ds : list N) : N := numeral_from 0 ds.

(** A numeral has a digit at least, and decimal digits only; it is plain
    when it is [0] or starts with another digit than 0 (a leading 0
    announces octal digits to [strtoul]); it fits when its value is an
    [unsigned]. *)
Definition is_numeral (ds : list N) : Prop :=
  ds <> [] /\ Forall (fun d => (d < 10)%N) ds.

Definition plain (ds : list N) : Prop :=
  ds = [0%N] \/ exists d ds', ds = d :: ds' /\ d <> 0%N.

Definition fits (ds : list N) : Prop := (numeral_value ds <= UINT_MAX)%N.

(** The indexes of a text, each followed by a comma but the last, which
    is followed by a colon and the body. *)
Fixpoint indexes_text (idxs : list (list N)) (body : string) : string :=
  match idxs with
  | [] => body
  | [ds] => (numeral ds ++ String ":" body)%string
  | ds :: rest => (numeral ds ++ String "," (indexes_text rest body))%string
  end.


(** The characters that end a numeral in the texts considered. *)
Definition ends_numeral (rest : string) : Prop :=
  rest = EmptyString
  \/ exists c r, rest = String c r /\ (c = ","%char \/ c = ":"%char \/ c = "*"%char).

(** ** The order of the search in the tree *)

(** [preorder_le p q]: the object at [p] is the object at [q] or comes
    before it in the walk of the tree that visits an object before its
    children, and the children from the first to the last. *)
Fixpoint preorder_le (p q : hwloc_obj_t) : Prop :=
  match p, q with
  | [], _ => True
  | _ :: _, [] => False
  | k :: p', k' :: q' => k < k' \/ (k = k' /\ preorder_le p' q')
  end.

(** ** The text of a list of distances *)




(** ** Objects that gained distances *)

(** [o'] is [o] with records appended to its distances. *)
Definition gained_distances (o o' : hwloc_obj) : Prop :=
  obj_type o' = obj_type o /\ os_index o' = os_index o /\ cpuset o' = cpuset o
  /\ depth o' = depth o /\ logical_index o' = logical_index o
  /\ group_depth o' = group_depth o
  /\ exists added, obj_distances o' = obj_distances o ++ added.

(** The tree [t'] is the tree [t] in which objects gained distances: the
    same positions hold objects, with the same fields otherwise. *)
Definition tree_gained_distances (t t' : hwloc_tree) : Prop :=
  forall q, option_Forall2 gained_distances (deref t q) (deref t' q).

(** ** Chains of minimal links *)

(** [min_chain n d min a k]: from object [a], object [k] is reached by
    links [(j, k')] between objects of the matrix whose distance
    [d[j][k']] compares equal to [min]. *)
Inductive min_chain (n : nat) (d : list float) (min : float) : nat -> nat -> Prop :=
| chain_here (a : nat) : min_chain n d min a a
| chain_step (a j k : nat) :
    min_chain n d min a j -> j < n -> k < n ->
    F32.eq (cell n d j k) min = true -> min_chain n d min a k.

(** An array of group ids changed for group [id]: a cell is as it was, or
    was 0 and now holds [id]. *)
Definition joined (id : nat) (g g' : list nat) : Prop :=
  forall k, rd 0 g' k = rd 0 g k \/ (rd 0 g k = 0 /\ rd 0 g' k = id).

(** What the loop over [i] keeps, on the pair of [groupids] and of the
    next group id: ids are below the next one, and every committed group
    has an object from which a chain leads to each of its objects. *)
Definition chained (n : nat) (d : list float) (min : float) (st : list nat * nat) : Prop :=
  length st.1 = n
  /\ 1 <= st.2
  /\ (forall k, rd 0 st.1 k < st.2)
  /\ (forall id, 1 <= id < st.2 ->
        exists seed, seed < n /\ rd 0 st.1 seed = id
          /\ forall k, rd 0 st.1 k = id -> min_chain n d min seed k).

(** ** The arrays of a slot go together *)

(** A slot has indexes exactly when it has distances, and has no
    resolved objects without distances: what the loops over the types
    assert before they use the distances. *)
Definition slot_consistent (s : hwloc_os_distances_s) : Prop :=
  (indexes s = None <-> distances s = None)
  /\ (objs s <> None -> distances s <> None).

Definition store_consistent (topology : hwloc_topology) : Prop :=
  forall type, slot_consistent (slot topology type).

(** * Sample data *)

(** A machine with two NUMA nodes of two processing units each. *)
Definition sample_obj (type : hwloc_obj_type_t) (os : N) (set : hwloc_cpuset_t)
    (dep li : N) : hwloc_obj :=
  {| obj_type := type; os_index := os; cpuset := set; depth := dep;
     logical_index := li; group_depth := 0%Z; obj_distances := [] |}.

Definition sample_tree : hwloc_tree :=
  Node (sample_obj 1 0%N 15%N 0%N 0%N)
    [Node (sample_obj 2 0%N 3%N 1%N 0%N) []; Node (sample_obj 2 1%N 12%N 1%N 1%N) []].

Definition sample_topology : hwloc_topology :=
  {| levels := sample_tree; os_distances := replicate 9 no_distances |}.

(** The same machine after distances between its two nodes were set. *)
Definition sample_with_distances : hwloc_topology :=
  topo (hwloc_topology_set_distance_matrix sample_topology 2 2 [0; 1]%N
          (map F32.of_Z [1; 5; 5; 2]%Z)).

(** A [strtof] that reads nothing, for the texts that hold no number. *)
Definition strtof_nothing (p : string) : float * string := (F32.zero, p).

(** Four objects in two close pairs: distance 10 inside a pair, 20 across. *)
Definition matrix_two_pairs : list float :=
  map F32.of_Z [ 0; 10; 20; 20;
                10;  0; 20; 20;
                20; 20;  0; 10;
                20; 20; 10;  0]%Z.

(** The same matrix with a last diagonal cell above the rest of its row. *)
Definition matrix_large_last_diagonal : list float :=
  map F32.of_Z [ 0; 10; 20; 20;
                10;  0; 20; 20;
                20; 20;  0; 10;
                20; 20; 10; 99]%Z.

(** Two close pairs and a fifth object at distance 20 from all others. *)
Definition matrix_two_pairs_and_one : list float :=
  map F32.of_Z [ 0; 10; 20; 20; 20;
                10;  0; 20; 20; 20;
                20; 20;  0; 10; 20;
                20; 20; 10;  0; 20;
                20; 20; 20; 20;  0]%Z.

(** The two nodes of the sample machine, and a covering-object search that
    answers with the root of the tree. *)
Definition sample_nodes : list hwloc_obj :=
  [sample_obj 2 0%N 3%N 1%N 0%N; sample_obj 2 1%N 12%N 1%N 1%N].

Definition cover_by_root (topology : hwloc_topology) (set : hwloc_cpuset_t)
  : option hwloc_obj_t := Some [].

(** A symmetric matrix whose diagonal cells are the least of their rows
    and differ from each other. *)
Definition matrix_unequal_diagonal : list float := map F32.of_Z [1; 5; 5; 2]%Z.


(** A matrix of positive numbers below [FLT_MIN]: [2^-130] on the diagonal
    and [2^-129] elsewhere. *)
Definition matrix_subnormal : list float :=
  [S754_finite false 524288 (-149); S754_finite false 1048576 (-149);
   S754_finite false 1048576 (-149); S754_finite false 524288 (-149)].

(** A tree in which two objects have the same type and the same OS index:
    the child of the first child of the root, and the second child of the
    root. *)
Definition sample_tree_twins : hwloc_tree :=
  Node (sample_obj 1 0%N 15%N 0%N 0%N)
    [Node (sample_obj 2 0%N 3%N 1%N 0%N) [Node (sample_obj 3 7%N 3%N 2%N 0%N) []];
     Node (sample_obj 3 7%N 12%N 1%N 1%N) []].


(** A search for the depth of a type that finds every type at depth 1,
    with the values [-1] and [-2] for a type without a depth of its own. *)
Definition depth_one (topology : hwloc_topology) (type : hwloc_obj_type_t) : Z := 1.

(** Four objects in a chain of minimal links: 0 with 3, 3 with 1 and 1
    with 2, at distance 1, the other pairs being at distance 5. *)
Definition matrix_chain : list float :=
  map F32.of_Z [0; 5; 5; 1;
                5; 0; 1; 1;
                5; 1; 0; 5;
                1; 1; 5; 0]%Z.

(** The rank of the Group type, an allocation that fills the type and
    the OS index of an object, and an insertion that links an object
    below the root of the tree, after the children it has. *)
Definition sample_group_type : hwloc_obj_type_t := 8.

Definition sample_alloc (type : hwloc_obj_type_t) (os : Z) : hwloc_obj :=
  sample_obj type (Z.to_N (os mod 4294967296)) 0%N 0%N 0%N.

Definition sample_insert (topology : hwloc_topology) (obj : hwloc_obj) : hwloc_topology :=
  set_levels topology
    (Node (tree_obj (levels topology))
       (tree_children (levels topology) ++ [Node obj []])).

(** Four objects with one processing unit each. *)
Definition sample_units : list hwloc_obj :=
  [sample_obj 6 0%N 1%N 2%N 0%N; sample_obj 6 1%N 2%N 2%N 1%N;
   sample_obj 6 2%N 4%N 2%N 2%N; sample_obj 6 3%N 8%N 2%N 3%N].

(** An environment without any variable. *)
Definition getenv_nothing (name : string) : option string := None.

(** Two nodes that cover the machine, with logical indexes 0 and 5. *)
Definition sample_nodes_apart : list hwloc_obj :=
  [sample_obj 2 0%N 3%N 1%N 0%N; sample_obj 2 1%N 12%N 1%N 5%N].

(** The first node alone. *)
Definition sample_first_node : list hwloc_obj := [sample_obj 2 0%N 3%N 1%N 0%N].




(** * Properties *)

(** ** Loops *)

Lemma for_range_ind {St : Type} (P : nat -> St -> Prop) (body : nat -> St -> St)
    (count lo : nat) (s : St) :
  P lo s ->
  (forall i s, lo <= i < lo + count -> P i s -> P (S i) (body i s)) ->
  P (lo + count) (for_range body lo count s).
Proof.
  revert lo s. induction count as [|count IH]; intros lo s H0 Hstep; simpl.
  - by rewrite Nat.add_0_r.
  - replace (lo + S count) with (S lo + count) by lia.
    apply IH.
    + apply Hstep; [lia | done].
    + intros i s' Hi. apply Hstep. lia.
Qed.

Lemma for_range_o_ind {St : Type} (P : nat -> St -> Prop) (body : nat -> St -> outcome St)
    (count lo : nat) (s : St) :
  P lo s ->
  (forall i s, lo <= i < lo + count -> P i s -> exists s', body i s = Done s' /\ P (S i) s') ->
  exists s', for_range_o body lo count s = Done s' /\ P (lo + count) s'.
Proof.
  revert lo s. induction count as [|count IH]; intros lo s H0 Hstep; simpl.
  - exists s. by rewrite Nat.add_0_r.
  - destruct (Hstep lo s) as (s1 & -> & H1); [lia | done |]. simpl.
    replace (lo + S count) with (S lo + count) by lia.
    apply IH; [done |]. intros i s' Hi. apply Hstep. lia.
Qed.

Lemma for_range_o_not_exhausted {St : Type} (body : nat -> St -> outcome St)
    (count lo : nat) (s : St) :
  (forall i s, body i s <> Exhausted) -> for_range_o body lo count s <> Exhausted.
Proof.
  intros Hbody. revert lo s. induction count as [|count IH]; intros lo s; simpl; [done |].
  destruct (body lo s) eqn:E; simpl; [apply IH | done | by apply Hbody in E].
Qed.

Lemma for_some_true (stop : nat -> bool) (count lo : nat) :
  for_some stop lo count = true <-> exists i, lo <= i < lo + count /\ stop i = true.
Proof.
  revert lo. induction count as [|count IH]; intros lo; simpl.
  - split; [done | intros (i & ? & _); lia].
  - destruct (stop lo) eqn:E.
    + split; [intros _; exists lo; split; [lia | done] | done].
    + rewrite IH. split; intros (i & Hi & Hs).
      * exists i. split; [lia | done].
      * exists i. split; [| done].
        destruct (decide (i = lo)) as [-> | ?]; [congruence | lia].
Qed.

Lemma for_some_false (stop : nat -> bool) (count lo : nat) :
  for_some stop lo count = false <-> forall i, lo <= i < lo + count -> stop i = false.
Proof.
  split.
  - intros H i Hi. destruct (stop i) eqn:E; [| done].
    assert (for_some stop lo count = true) by (apply for_some_true; eauto). congruence.
  - intros H. destruct (for_some stop lo count) eqn:E; [| done].
    apply for_some_true in E as (i & Hi & Hs). rewrite H in Hs; done.
Qed.

(** A pair of indexes [i < j < n] in terms of the bounds of the nested loops. *)
Lemma pair_loop_true (stop : nat -> nat -> bool) (n : nat) :
  for_some (fun i => for_some (stop i) (i + 1) (n - (i + 1))) 0 n = true
  <-> exists i j, i < j < n /\ stop i j = true.
Proof.
  rewrite for_some_true. split.
  - intros (i & Hi & H). apply for_some_true in H as (j & Hj & H).
    exists i, j. split; [lia | done].
  - intros (i & j & Hij & H). exists i. split; [lia |].
    apply for_some_true. exists j. split; [lia | done].
Qed.

Lemma pair_loop_false (stop : nat -> nat -> bool) (n : nat) :
  for_some (fun i => for_some (stop i) (i + 1) (n - (i + 1))) 0 n = false
  <-> forall i j, i < j < n -> stop i j = false.
Proof.
  split.
  - intros H i j Hij. destruct (stop i j) eqn:E; [| done].
    assert (for_some (fun i => for_some (stop i) (i + 1) (n - (i + 1))) 0 n = true)
      by (apply pair_loop_true; eauto).
    congruence.
  - intros H.
    destruct (for_some (fun i => for_some (stop i) (i + 1) (n - (i + 1))) 0 n) eqn:E; [| done].
    apply pair_loop_true in E as (i & j & Hij & Hs). rewrite H in Hs; done.
Qed.

Lemma rd_lookup {A : Type} (d : A) (a : list A) (i : nat) (x : A) :
  a !! i = Some x -> rd d a i = x.
Proof. intros H. unfold rd. by apply nth_lookup_Some with (d := d) in H. Qed.

Lemma rd_insert_eq {A : Type} (d : A) (a : list A) (i : nat) (x : A) :
  i < length a -> rd d (<[i := x]> a) i = x.
Proof. intros H. apply rd_lookup. by apply list_lookup_insert_eq. Qed.

Lemma rd_insert_ne {A : Type} (d : A) (a : list A) (i j : nat) (x : A) :
  i <> j -> rd d (<[i := x]> a) j = rd d a j.
Proof.
  intros H. unfold rd. rewrite !nth_lookup. by rewrite list_lookup_insert_ne.
Qed.

Lemma rd_alter_eq {A : Type} (d : A) (f : A -> A) (a : list A) (i : nat) :
  i < length a -> rd d (alter f i a) i = f (rd d a i).
Proof.
  intros H. destruct (lookup_lt_is_Some_2 a i H) as [x Hx].
  rewrite (rd_lookup d a i x Hx). apply rd_lookup.
  by rewrite list_lookup_alter_eq, Hx.
Qed.

Lemma rd_alter_ne {A : Type} (d : A) (f : A -> A) (a : list A) (i j : nat) :
  i <> j -> rd d (alter f i a) j = rd d a j.
Proof.
  intros H. unfold rd. rewrite !nth_lookup. by rewrite list_lookup_alter_ne.
Qed.

(** ** Binary32 comparisons and quotients *)

Lemma compare_cont_lt_trans (a b c : positive) :
  PosDef.Pos.compare_cont Eq a b = Lt -> PosDef.Pos.compare_cont Eq b c = Lt ->
  PosDef.Pos.compare_cont Eq a c = Lt.
Proof.
  change (PosDef.Pos.compare_cont Eq) with Pos.compare. rewrite !Pos.compare_lt_iff. lia.
Qed.

Lemma compare_cont_gt_trans (a b c : positive) :
  CompOpp (PosDef.Pos.compare_cont Eq a b) = Lt ->
  CompOpp (PosDef.Pos.compare_cont Eq b c) = Lt ->
  CompOpp (PosDef.Pos.compare_cont Eq a c) = Lt.
Proof.
  change (PosDef.Pos.compare_cont Eq) with Pos.compare.
  rewrite <- !Pos.compare_antisym, !Pos.compare_lt_iff. lia.
Qed.

(** [<] on floats is transitive (a comparison with a NaN is false). *)
Lemma flt_trans (a b c : float) :
  F32.lt a b = true -> F32.lt b c = true -> F32.lt a c = true.
Proof.
  unfold F32.lt, SFltb, SFcompare.
  destruct a as [[]|[]| |[] ma ea], b as [[]|[]| |[] mb eb], c as [[]|[]| |[] mc ec];
    try done.
  - destruct (Z.compare_spec ea eb), (Z.compare_spec eb ec), (Z.compare_spec ea ec);
      try done; try lia; subst.
    intros Hab Hbc.
    destruct (CompOpp (PosDef.Pos.compare_cont Eq ma mb)) eqn:E1; try done.
    destruct (CompOpp (PosDef.Pos.compare_cont Eq mb mc)) eqn:E2; try done.
    by rewrite (compare_cont_gt_trans ma mb mc E1 E2).
  - destruct (Z.compare_spec ea eb), (Z.compare_spec eb ec), (Z.compare_spec ea ec);
      try done; try lia; subst.
    intros Hab Hbc.
    destruct (PosDef.Pos.compare_cont Eq ma mb) eqn:E1; try done.
    destruct (PosDef.Pos.compare_cont Eq mb mc) eqn:E2; try done.
    by rewrite (compare_cont_lt_trans ma mb mc E1 E2).
Qed.

Lemma flt_not_nan (a b : float) : F32.lt a b = true -> F32.is_nan a = false.
Proof. by destruct a as [[]|[]| |[] ma ea], b as [[]|[]| |[] mb eb]. Qed.




(** A finite number that is not zero, divided by itself, is 1 exactly. *)
Lemma div_same (s : bool) (m : positive) (e : Z) :
  F32.div (S754_finite s m e) (S754_finite s m e) = F32.one.
Proof.
  unfold F32.div, SFdiv, SFdiv_core_binary.
  replace (Zdigits2 (Z.pos m) + e - (Zdigits2 (Z.pos m) + e))%Z with 0%Z by lia.
  replace (e - e)%Z with 0%Z by lia.
  change (Z.min (fexp F32.prec F32.emax 0) 0) with (-24)%Z.
  change (0 - -24)%Z with 24%Z. cbv iota.
  assert (Z.div_eucl (Z.shiftl (Z.pos m) 24) (Z.pos m) = (16777216, 0)%Z) as ->.
  { rewrite Z.shiftl_mul_pow2 by lia.
    assert ((Z.pos m * 2 ^ 24) / Z.pos m = 2 ^ 24)%Z as Hq
      by (rewrite Z.mul_comm; apply Z.div_mul; lia).
    assert ((Z.pos m * 2 ^ 24) mod Z.pos m = 0)%Z as Hr
      by (rewrite Z.mul_comm; apply Z.mod_mul; lia).
    unfold Z.div, Z.modulo in Hq, Hr.
    destruct (Z.div_eucl (Z.pos m * 2 ^ 24) (Z.pos m)) as [q r]. by subst. }
  assert (new_location (Z.pos m) 0 = loc_Exact) as ->.
  { unfold new_location. by destruct (Z.even (Z.pos m)). }
  by destruct s.
Qed.

Lemma flt_irrefl (a : float) : F32.lt a a = false.
Proof.
  unfold F32.lt, SFltb, SFcompare. destruct a as [[]|[]| |[] m e]; try done.
  - rewrite Z.compare_refl. change (PosDef.Pos.compare_cont Eq) with Pos.compare.
    by rewrite Pos.compare_refl.
  - rewrite Z.compare_refl. change (PosDef.Pos.compare_cont Eq) with Pos.compare.
    by rewrite Pos.compare_refl.
Qed.

(** ** The distance store *)

Lemma same_index_twice_true (n : nat) (indexes : list N) :
  same_index_twice n indexes = true
  <-> exists i j, i < j < n /\ rd 0%N indexes i = rd 0%N indexes j.
Proof.
  unfold same_index_twice.
  rewrite (pair_loop_true (fun i j => N.eqb (rd 0%N indexes i) (rd 0%N indexes j))).
  split; intros (i & j & Hij & H); exists i, j; (split; [done |]); by apply N.eqb_eq.
Qed.

Lemma same_index_twice_false (n : nat) (indexes : list N) :
  same_index_twice n indexes = false
  <-> forall i j, i < j < n -> rd 0%N indexes i <> rd 0%N indexes j.
Proof.
  unfold same_index_twice.
  rewrite (pair_loop_false (fun i j => N.eqb (rd 0%N indexes i) (rd 0%N indexes j))).
  split; intros H i j Hij; apply N.eqb_neq; by apply H.
Qed.

Lemma set_distance_matrix_rejected (topology : hwloc_topology)
    (type : hwloc_obj_type_t) (n : nat) (idx : list N) (dist : list float) :
  (exists i j, i < j < n /\ rd 0%N idx i = rd 0%N idx j) ->
  hwloc_topology__set_distance_matrix topology type n idx dist
  = {| ret := -1; errno := Some EINVAL; topo := topology |}.
Proof.
  intros Hdup. apply same_index_twice_true in Hdup.
  unfold hwloc_topology__set_distance_matrix. by rewrite Hdup.
Qed.

Lemma set_distance_matrix_stored (topology : hwloc_topology)
    (type : hwloc_obj_type_t) (n : nat) (idx : list N) (dist : list float) :
  (forall i j, i < j < n -> rd 0%N idx i <> rd 0%N idx j) ->
  hwloc_topology__set_distance_matrix topology type n idx dist
  = {| ret := 0; errno := None; topo := store_matrix topology type n idx dist |}.
Proof.
  intros Hdistinct. apply same_index_twice_false in Hdistinct.
  unfold hwloc_topology__set_distance_matrix. by rewrite Hdistinct.
Qed.

Lemma slot_store_matrix (topology : hwloc_topology) (type : hwloc_obj_type_t) (n : nat)
    (idx : list N) (dist : list float) :
  type < length (os_distances topology) ->
  slot (store_matrix topology type n idx dist) type
  = {| nbobjs := n; indexes := Some idx; distances := Some dist;
       objs := objs (slot topology type) |}.
Proof. intros Htype. unfold slot; simpl. by rewrite rd_alter_eq. Qed.

Lemma slot_store_matrix_other (topology : hwloc_topology) (type other : hwloc_obj_type_t)
    (n : nat) (idx : list N) (dist : list float) :
  other <> type ->
  slot (store_matrix topology type n idx dist) other = slot topology other.
Proof. intros Hother. unfold slot; simpl. by rewrite rd_alter_ne. Qed.

(** C6. [hwloc_topology__set_distance_matrix] fails with [EINVAL] and
    returns [-1], leaving the topology (hence the stored [nbobjs],
    [indexes] and [distances] of the type) as it was, whenever two of the
    [nbobjs] indexes are equal; when they are pairwise distinct it returns
    [0] and the slot of the type holds the new count, the new indexes and
    the new distances together, the other slots being unchanged. *)
Theorem set_distance_matrix_checks_indexes (topology : hwloc_topology)
    (type : hwloc_obj_type_t) (n : nat) (idx : list N) (dist : list float) :
  let r := hwloc_topology__set_distance_matrix topology type n idx dist in
  ((exists i j, i < j < n /\ rd 0%N idx i = rd 0%N idx j) ->
     ret r = (-1)%Z /\ errno r = Some EINVAL /\ topo r = topology)
  /\ ((forall i j, i < j < n -> rd 0%N idx i <> rd 0%N idx j) ->
        ret r = 0%Z /\ errno r = None
        /\ (type < length (os_distances topology) ->
              slot (topo r) type
              = {| nbobjs := n; indexes := Some idx; distances := Some dist;
                   objs := objs (slot topology type) |})
        /\ (forall other, other <> type -> slot (topo r) other = slot topology other)
        /\ levels (topo r) = levels topology).
Proof.
  simpl. split.
  - intros Hdup. by rewrite set_distance_matrix_rejected.
  - intros Hdistinct. rewrite set_distance_matrix_stored by done. simpl.
    split; [done |]. split; [done |]. split; [apply slot_store_matrix |].
    split; [| done]. intros other. apply slot_store_matrix_other.
Qed.

(** The copying entry point behaves alike on the cells it copies. *)
Lemma rd_copy_cells {A : Type} (d : A) (n : nat) (a : list A) (i : nat) :
  i < n -> rd d (copy_cells d n a) i = rd d a i.
Proof.
  intros H. unfold copy_cells. apply rd_lookup.
  rewrite list_lookup_fmap, lookup_seq_lt by done. done.
Qed.

Lemma set_distance_matrix_copy_rejects (topology : hwloc_topology)
    (type : hwloc_obj_type_t) (n : nat) (idx : list N) (dist : list float) (i j : nat) :
  i < j < n -> rd 0%N idx i = rd 0%N idx j ->
  hwloc_topology_set_distance_matrix topology type n idx dist
  = {| ret := -1; errno := Some EINVAL; topo := topology |}.
Proof.
  intros Hij Heq. unfold hwloc_topology_set_distance_matrix, hwloc_topology__set_distance_matrix.
  assert (same_index_twice n (copy_cells 0%N n idx) = true) as ->; [| done].
  apply same_index_twice_true. exists i, j. split; [done |].
  rewrite !rd_copy_cells by lia. done.
Qed.

(** With distinct indexes the copying entry point stores the copies. *)
Lemma set_distance_matrix_copy_stored (topology : hwloc_topology)
    (type : hwloc_obj_type_t) (n : nat) (idx : list N) (dist : list float) :
  (forall i j, i < j < n -> rd 0%N idx i <> rd 0%N idx j) ->
  hwloc_topology_set_distance_matrix topology type n idx dist
  = {| ret := 0; errno := None;
       topo := store_matrix topology type n (copy_cells 0%N n idx)
                 (copy_cells F32.zero (matrix_cells n) dist) |}.
Proof.
  intros Hdistinct. unfold hwloc_topology_set_distance_matrix.
  apply set_distance_matrix_stored. intros i j Hij.
  rewrite !rd_copy_cells by lia. by apply Hdistinct.
Qed.

(** A loop that rewrites slot [t] of an array at turn [t]. *)
Lemma for_range_alter {A : Type} (d : A) (f : nat -> A -> A) (count lo : nat) (a : list A) :
  let a' := for_range (fun t a => alter (f t) t a) lo count a in
  length a' = length a
  /\ forall t, t < length a ->
       rd d a' t = if decide (lo <= t < lo + count) then f t (rd d a t) else rd d a t.
Proof.
  simpl.
  pose (P := fun (k : nat) (a' : list A) =>
               length a' = length a
               /\ forall t, t < length a ->
                    rd d a' t = if decide (lo <= t < k) then f t (rd d a t) else rd d a t).
  apply (for_range_ind P); unfold P.
  - split; [done |]. intros t Ht. rewrite decide_False by lia. done.
  - intros i s Hi [Hlen Hrd]. split; [by rewrite length_alter |].
    intros t Ht. destruct (decide (t = i)) as [-> | Hne].
    + rewrite rd_alter_eq by lia. rewrite Hrd by done.
      rewrite decide_False by lia. rewrite decide_True by lia. done.
    + rewrite rd_alter_ne by done. rewrite Hrd by done.
      destruct (decide (lo <= t < i)), (decide (lo <= t < S i)); (done || lia).
Qed.

(** A reload drops the resolved objects of every type and keeps what was
    set; a destroy drops the three arrays. *)
Lemma distances_clear_slot (topology : hwloc_topology) (type : hwloc_obj_type_t) :
  type < length (os_distances topology) ->
  slot (hwloc_topology_distances_clear topology) type
  = {| nbobjs := nbobjs (slot topology type); indexes := indexes (slot topology type);
       distances := distances (slot topology type); objs := None |}.
Proof.
  intros Htype. unfold hwloc_topology_distances_clear, slot. simpl.
  destruct (for_range_alter no_distances
              (fun _ s => {| nbobjs := nbobjs s; indexes := indexes s;
                             distances := distances s; objs := None |})
              (length (os_distances topology)) 0 (os_distances topology)) as [_ Hrd].
  rewrite Hrd by done. by rewrite decide_True by lia.
Qed.

Lemma distances_destroy_slot (topology : hwloc_topology) (type : hwloc_obj_type_t) :
  type < length (os_distances topology) ->
  slot (hwloc_topology_distances_destroy topology) type
  = {| nbobjs := nbobjs (slot topology type); indexes := None; distances := None;
       objs := None |}.
Proof.
  intros Htype. unfold hwloc_topology_distances_destroy, slot. simpl.
  destruct (for_range_alter no_distances
              (fun _ s => {| nbobjs := nbobjs s; indexes := None;
                             distances := None; objs := None |})
              (length (os_distances topology)) 0 (os_distances topology)) as [_ Hrd].
  rewrite Hrd by done. by rewrite decide_True by lia.
Qed.

(** ** Distances from the environment *)

Lemma cell_index_inj (n i j i' j' : nat) :
  j < n -> j' < n -> i * n + j = i' * n + j' -> i = i' /\ j = j'.
Proof. intros Hj Hj' H. assert (i = i') by nia. subst. lia. Qed.

Lemma cell_index_lt (n i j : nat) : i < n -> j < n -> i * n + j < n * n.
Proof. nia. Qed.

(** When [n * n] is an [unsigned], the products computed on [unsigned]
    are the products. *)
Lemma matrix_cells_fits (n : nat) : matrix_fits n -> matrix_cells n = n * n.
Proof.
  unfold matrix_fits, matrix_cells, u32, UINT_MAX. intros H.
  rewrite N.mod_small by lia. lia.
Qed.

Lemma unsigned_index_fits (n i j : nat) :
  matrix_fits n -> i < n -> j < n -> unsigned_index n i j = i * n + j.
Proof.
  unfold matrix_fits, unsigned_index, u32, UINT_MAX. intros H Hi Hj.
  rewrite N.mod_small by nia. lia.
Qed.

Lemma ucell_fits (n : nat) (m : list float) (i j : nat) :
  matrix_fits n -> i < n -> j < n -> ucell n m i j = cell n m i j.
Proof. intros H Hi Hj. unfold ucell, cell. by rewrite unsigned_index_fits. Qed.


(** A loop that ran to its end, read backwards: what the body keeps
    holds at the end. *)
Lemma for_range_o_done_ind {St : Type} (P : nat -> St -> Prop)
    (body : nat -> St -> outcome St) (count lo : nat) (s s' : St) :
  P lo s ->
  (forall i st st', lo <= i < lo + count -> P i st -> body i st = Done st' -> P (S i) st') ->
  for_range_o body lo count s = Done s' -> P (lo + count) s'.
Proof.
  revert lo s. induction count as [|count IH]; intros lo s H0 Hstep; simpl.
  - intros [= <-]. by rewrite Nat.add_0_r.
  - destruct (body lo s) as [s1 | |] eqn:E; simpl; [| done | done].
    replace (lo + S count) with (S lo + count) by lia.
    apply IH.
    + apply (Hstep lo s); [lia | done | done].
    + intros i st st' Hi. apply Hstep. lia.
Qed.

(** Two nested loops that store [v i j] into cell [(i, j)] of a block of
    [n * n] cells fill the matrix with [v], when [n * n] is an
    [unsigned]. *)
Lemma nested_fill (v : nat -> nat -> float) (n : nat) (d : list float) :
  matrix_fits n ->
  length d = n * n ->
  exists m,
    for_range_o
      (fun i => for_range_o (fun j d => poke d (unsigned_index n i j) (v i j)) 0 n) 0 n d
    = Done m
    /\ length m = n * n /\ forall i j, i < n -> j < n -> cell n m i j = v i j.
Proof.
  intros Hfits Hlen.
  pose (P := fun (k : nat) (m : list float) =>
               length m = n * n
               /\ forall i j, i < k -> j < n -> cell n m i j = v i j).
  destruct (for_range_o_ind P
              (fun i => for_range_o (fun j d => poke d (unsigned_index n i j) (v i j)) 0 n)
              n 0 d) as (m & Hrun & Hm & Hcells); unfold P in *; clear P.
  - split; [done |]. intros; lia.
  - intros k m Hk [Hm Hdone].
    pose (Q := fun (l : nat) (m : list float) =>
                 length m = n * n
                 /\ forall i j, (i < k \/ (i = k /\ j < l)) -> j < n -> cell n m i j = v i j).
    destruct (for_range_o_ind Q (fun j d => poke d (unsigned_index n k j) (v k j)) n 0 m)
      as (m' & Hrun' & H1 & H2); unfold Q in *; clear Q.
    + split; [done |]. intros i j [Hi | [_ Hj]] Hjn; [by apply Hdone | lia].
    + intros l m' Hl [Hm' Hdone']. unfold poke.
      rewrite unsigned_index_fits by (done || lia).
      assert (k * n + l < n * n) as Hin by (apply cell_index_lt; lia).
      rewrite Hm'. destruct (Nat.ltb_spec (k * n + l) (n * n)) as [_ | ?]; [| lia].
      eexists. split; [done |]. split; [by rewrite length_insert |].
      intros i j Hij Hjn. unfold cell.
      destruct (decide (i = k /\ j = l)) as [[-> ->] | Hne].
      * apply rd_insert_eq. by rewrite Hm'.
      * rewrite rd_insert_ne.
        -- apply Hdone'; [| done]. destruct Hij as [? | [? ?]]; [by left | right; lia].
        -- intros Heq. apply cell_index_inj in Heq; [| lia | lia]. lia.
    + exists m'. split; [done |]. split; [done |]. intros i j Hi Hj. apply H2; [| done].
      destruct (decide (i = k)); [right | left]; lia.
  - exists m. split; [done |]. split; [done |]. intros i j Hi Hj. by apply Hcells.
Qed.

Lemma grouping_matrix_cells (n : nat) (y z : N) (d : list float) :
  matrix_fits n ->
  length d = n * n ->
  exists m,
    grouping_matrix n y z d = Done m
    /\ length m = n * n
    /\ forall i j, i < n -> j < n ->
         cell n m i j
         = if Nat.eqb i j then F32.of_Z 1
           else if (N.of_nat i / z =? N.of_nat j / z)%N then F32.of_Z 2
           else if (N.of_nat i / z / y =? N.of_nat j / z / y)%N then F32.of_Z 4
           else F32.of_Z 8.
Proof.
  intros Hfits Hlen. unfold grouping_matrix.
  apply (nested_fill
           (fun i j =>
              if Nat.eqb i j then F32.of_Z 1
              else if (N.of_nat i / z =? N.of_nat j / z)%N then F32.of_Z 2
              else if (N.of_nat i / z / y =? N.of_nat j / z / y)%N then F32.of_Z 4
              else F32.of_Z 8) n d Hfits Hlen).
Qed.


Lemma grouping_matrix_ends (n : nat) (y z : N) (d : list float) :
  grouping_matrix n y z d <> Exhausted.
Proof.
  unfold grouping_matrix. apply for_range_o_not_exhausted.
  intros i d'. apply for_range_o_not_exhausted. intros j d''. unfold poke.
  by destruct (_ <? _).
Qed.



(** The counting loop ends within its budget: each turn passes at least
    one character. *)
Lemma advance_length (n : nat) (p : string) :
  String.length (advance n p) = String.length p - n.
Proof.
  revert p. induction n as [|n IH]; intros [|c p]; simpl; try done; lia.
Qed.

Lemma char_is_length (p : string) (n : nat) (c : ascii) :
  char_is p n c = true -> n < String.length p.
Proof.
  unfold char_is, char_at. revert n. induction p as [|c' p IH]; intros [|n]; simpl; try done.
  - lia.
  - intros H. apply IH in H. lia.
Qed.

Lemma count_indexes_total (budget : nat) (tmp : string) (n : nat) :
  String.length tmp < budget ->
  exists tmp' n', count_indexes budget tmp n = Done (tmp', n') /\ n < n'.
Proof.
  revert tmp n. induction budget as [|budget IH]; intros tmp n Hlen; [lia |]. simpl.
  destruct (char_is tmp (strspn tmp "0123456789") ",") eqn:E; simpl.
  - apply char_is_length in E.
    destruct (IH (advance (strspn tmp "0123456789" + 1) tmp) (n + 1)) as (tmp' & n' & -> & Hn).
    + rewrite advance_length. lia.
    + exists tmp', n'. split; [done | lia].
  - eexists _, _. split; [done | lia].
Qed.

(** The parser ends on every text: it returns, or it stores outside the
    block of the matrix. *)
Lemma distances_from_string_ends (strtof : string -> float * string)
    (topology : hwloc_topology) (type : hwloc_obj_type_t) (s : string) :
  hwloc_get_type_distances_from_string strtof topology type s <> Exhausted.
Proof.
  unfold hwloc_get_type_distances_from_string.
  destruct (count_indexes_total (S (String.length s)) s 0) as (tmp & n & -> & _); [lia |].
  simpl. destruct (negb _); [done |].
  destruct (parse_indexes n s) as [idx body].
  destruct (sscanf_u_u_u body) as [|x [|y rest]].
  - by destruct (parse_distances _ _ _ _ _ _).
  - by destruct (parse_distances _ _ _ _ _ _).
  - destruct (negb _); [done |].
    destruct (grouping_matrix n y _ _) eqn:E; simpl; [done | done |].
    by apply grouping_matrix_ends in E.
Qed.



Lemma digit_cases (d : N) :
  (d < 10)%N ->
  d = 0%N \/ d = 1%N \/ d = 2%N \/ d = 3%N \/ d = 4%N \/ d = 5%N \/ d = 6%N
  \/ d = 7%N \/ d = 8%N \/ d = 9%N.
Proof. lia. Qed.

Ltac each_digit d H :=
  apply digit_cases in H;
  destruct H as [-> | [-> | [-> | [-> | [-> | [-> | [-> | [-> | [-> | ->]]]]]]]]].

Lemma digit_in_set (d : N) : (d < 10)%N -> in_set (digit_char d) "0123456789" = true.
Proof. intros H. each_digit d H; reflexivity. Qed.

Lemma digit_value_char (d : N) : (d < 10)%N -> digit_value (digit_char d) = Some d.
Proof. intros H. each_digit d H; reflexivity. Qed.

Lemma digit_not_space (d : N) : (d < 10)%N -> isspace (digit_char d) = false.
Proof. intros H. each_digit d H; reflexivity. Qed.

Lemma strspn_end (rest : string) : ends_numeral rest -> strspn rest "0123456789" = 0.
Proof. intros [-> | (c & r & -> & [-> | [-> | ->]])]; reflexivity. Qed.

Lemma read_digits_end (base acc : N) (seen : bool) (rest : string) :
  ends_numeral rest -> read_digits base rest acc seen = (acc, seen, rest).
Proof. intros [-> | (c & r & -> & [-> | [-> | ->]])]; reflexivity. Qed.

Lemma numeral_cons (d : N) (ds : list N) (rest : string) :
  (numeral (d :: ds) ++ rest)%string = String (digit_char d) (numeral ds ++ rest).
Proof. done. Qed.

Lemma strspn_cons (c : ascii) (p accept : string) :
  strspn (String c p) accept = if in_set c accept then S (strspn p accept) else 0.
Proof. done. Qed.

Lemma read_digits_cons (base : N) (c : ascii) (p : string) (acc : N) (seen : bool) :
  read_digits base (String c p) acc seen
  = match digit_value c with
    | Some v => if (v <? base)%N then read_digits base p (acc * base + v)%N true
                else (acc, seen, String c p)
    | None => (acc, seen, String c p)
    end.
Proof. done. Qed.

Lemma strspn_numeral (ds : list N) (rest : string) :
  Forall (fun d => (d < 10)%N) ds -> ends_numeral rest ->
  strspn (numeral ds ++ rest) "0123456789" = length ds.
Proof.
  intros Hds Hrest. induction Hds as [|d ds Hd Hds IH].
  - by apply strspn_end.
  - rewrite numeral_cons, strspn_cons, (digit_in_set d Hd), IH. done.
Qed.

Lemma advance_numeral (ds : list N) (rest : string) :
  advance (length ds) (numeral ds ++ rest) = rest.
Proof. induction ds as [|d ds IH]; simpl; [by destruct rest | done]. Qed.

Lemma char_at_numeral (ds : list N) (rest : string) (k : nat) :
  char_at (numeral ds ++ rest) (length ds + k) = char_at rest k.
Proof. unfold char_at. induction ds as [|d ds IH]; simpl; done. Qed.

Lemma length_numeral (ds : list N) (rest : string) :
  String.length (numeral ds ++ rest) = length ds + String.length rest.
Proof. induction ds as [|d ds IH]; simpl; [done | by rewrite IH]. Qed.

Lemma read_digits_numeral (ds : list N) (rest : string) (acc : N) (seen : bool) :
  Forall (fun d => (d < 10)%N) ds -> ends_numeral rest ->
  read_digits 10 (numeral ds ++ rest) acc seen
  = (numeral_from acc ds, match ds with [] => seen | _ => true end, rest).
Proof.
  intros Hds Hrest. revert acc seen.
  induction Hds as [|d ds Hd Hds IH]; intros acc seen.
  - change (numeral [] ++ rest)%string with rest.
    by rewrite read_digits_end.
  - rewrite numeral_cons, read_digits_cons, (digit_value_char d Hd).
    destruct (N.ltb_spec d 10) as [_ | ?]; [| lia].
    rewrite IH. by destruct ds.
Qed.

(** [strtoul] reads a plain numeral that fits as its value and stops
    after it. *)
Lemma strtoul_numeral (ds : list N) (rest : string) :
  is_numeral ds -> plain ds -> fits ds -> ends_numeral rest ->
  strtoul (numeral ds ++ rest) = (numeral_value ds, rest).
Proof.
  intros [Hne Hds] Hplain Hfits Hrest. unfold fits, UINT_MAX in Hfits.
  destruct Hplain as [-> | (d & ds' & -> & Hd)].
  - destruct Hrest as [-> | (c & r & -> & [-> | [-> | ->]])]; reflexivity.
  - apply Forall_cons in Hds as [Hd10 Hds'].
    assert (strtoul (numeral (d :: ds') ++ rest)
            = read_unsigned_long 10 (numeral (d :: ds') ++ rest) false
                (numeral (d :: ds') ++ rest)) as ->.
    { each_digit d Hd10; done. }
    unfold read_unsigned_long.
    rewrite read_digits_numeral by (done || by apply Forall_cons).
    fold (numeral_value (d :: ds')).
    destruct (N.ltb_spec ULONG_MAX (numeral_value (d :: ds'))) as [Hlt | _]; [| done].
    unfold ULONG_MAX in Hlt. lia.
Qed.


Lemma indexes_text_step (ds : list N) (rest : list (list N)) (body : string) :
  exists c, (c = ","%char \/ c = ":"%char)
    /\ indexes_text (ds :: rest) body
       = (numeral ds ++ String c (indexes_text rest body))%string
    /\ (c = ","%char <-> rest <> []).
Proof.
  destruct rest as [|ds' rest].
  - exists ":"%char. split; [by right |]. split; [done |]. split; [done | done].
  - exists ","%char. split; [by left |]. split; [done |]. split; [done | done].
Qed.

Lemma ends_numeral_mark (c : ascii) (r : string) :
  c = ","%char \/ c = ":"%char -> ends_numeral (String c r).
Proof. intros H. right. exists c, r. split; [done |]. destruct H; auto. Qed.

Lemma advance_past_mark (ds : list N) (c : ascii) (p : string) :
  advance (length ds + 1) (numeral ds ++ String c p) = p.
Proof. induction ds as [|d ds IH]; simpl; [by destruct p | done]. Qed.

(** The counting loop finds as many indexes as the text holds and stops on
    the colon. *)
Lemma count_indexes_text (idxs : list (list N)) (body : string) (budget k : nat) :
  idxs <> [] -> Forall is_numeral idxs ->
  String.length (indexes_text idxs body) < budget ->
  count_indexes budget (indexes_text idxs body) k = Done (String ":" body, k + length idxs).
Proof.
  intros Hne Hnum. revert budget k.
  induction Hnum as [|ds rest [_ Hds] Hrest IH]; [done |]. clear Hne.
  intros budget k Hlen. destruct budget as [|budget]; [lia |].
  destruct (indexes_text_step ds rest body) as (c & Hc & Htext & Hcomma).
  rewrite Htext in Hlen |- *. rewrite length_numeral in Hlen. simpl in Hlen.
  cbn [count_indexes].
  rewrite strspn_numeral by (done || by apply ends_numeral_mark).
  unfold char_is. rewrite <- (Nat.add_0_r (length ds)) at 1.
  rewrite char_at_numeral. cbn [char_at String.get].
  destruct Hc as [-> | ->].
  - assert (rest <> []) as Hrest' by (by apply Hcomma).
    cbn [Ascii.eqb Bool.eqb negb].
    rewrite advance_past_mark. rewrite IH by (done || lia).
    f_equal. f_equal. simpl. lia.
  - assert (rest = []) as ->.
    { destruct rest as [|ds' rest']; [done |]. destruct Hcomma as [_ H].
      by specialize (H ltac:(done)). }
    cbn [Ascii.eqb Bool.eqb negb]. by rewrite advance_numeral.
Qed.

(** The parsing loop reads the value of each index and stops after the
    colon. *)
Lemma parse_indexes_text (idxs : list (list N)) (body : string) :
  Forall (fun ds => is_numeral ds /\ plain ds /\ fits ds) idxs ->
  parse_indexes (length idxs) (indexes_text idxs body)
  = (map numeral_value idxs, body).
Proof.
  intros Hidx. unfold parse_indexes.
  pose (P := fun (k : nat) (st : list N * string) =>
               st.2 = indexes_text (drop k idxs) body
               /\ length st.1 = length idxs
               /\ forall i, i < k -> st.1 !! i = numeral_value <$> idxs !! i).
  assert (P (0 + length idxs)
            (for_range
               (fun i '(indexes, tmp) =>
                  let '(v, next) := strtoul tmp in (<[i := u32 v]> indexes, advance 1 next))
               0 (length idxs) (replicate (length idxs) 0%N, indexes_text idxs body))) as H.
  { apply (for_range_ind P); unfold P; clear P.
    - simpl. rewrite length_replicate. split; [done |]. split; [done |]. intros; lia.
    - intros k [arr tmp] Hk (Htmp & Hlen & Hread). simpl in Htmp, Hlen, Hread.
      destruct (lookup_lt_is_Some_2 idxs k) as [ds Hds]; [lia |].
      rewrite (drop_S _ _ _ Hds) in Htmp.
      destruct (indexes_text_step ds (drop (S k) idxs) body) as (c & Hc & Htext & _).
      rewrite Htext in Htmp. subst tmp.
      pose proof (Forall_lookup_1 _ _ _ _ Hidx Hds) as (Hnum & Hplain & Hfits).
      rewrite strtoul_numeral by (done || by apply ends_numeral_mark).
      unfold fits, UINT_MAX in Hfits. unfold u32. rewrite N.mod_small by lia.
      simpl. split; [done |]. split; [by rewrite length_insert |].
      intros i Hi. destruct (decide (i = k)) as [-> | Hne].
      + rewrite list_lookup_insert_eq by lia. by rewrite Hds.
      + rewrite list_lookup_insert_ne by done. apply Hread. lia. }
  destruct (for_range _ 0 (length idxs) _) as [arr tmp].
  destruct H as (Htmp & Hlen & Hread). simpl in Htmp, Hlen, Hread.
  rewrite drop_all in Htmp. simpl in Htmp. subst tmp. f_equal.
  apply list_eq. intros i. rewrite list_lookup_fmap.
  destruct (decide (i < length idxs)) as [Hi | Hi]; [by apply Hread |].
  rewrite !lookup_ge_None_2 by lia. done.
Qed.








(** ** Resolving indexes into objects *)

(** Induction on the tree, with the property known of every child. *)
Lemma hwloc_tree_ind' (P : hwloc_tree -> Prop) :
  (forall o children, Forall P children -> P (Node o children)) -> forall t, P t.
Proof.
  intros step. fix F 1. intros [o children]. apply step.
  induction children as [|c cs IH]; [apply Forall_nil_2 | apply Forall_cons_2; [apply F | apply IH]].
Qed.

Lemma find_obj_unfold (o : hwloc_obj) (children : list hwloc_tree)
    (type : hwloc_obj_type_t) (os_idx : N) :
  hwloc_find_obj_by_type_and_os_index (Node o children) type os_idx
  = if Nat.eqb (obj_type o) type && N.eqb (os_index o) os_idx then Some []
    else find_in_children type os_idx children 0.
Proof. done. Qed.

Lemma find_in_children_some (type : hwloc_obj_type_t) (os_idx : N)
    (children : list hwloc_tree) (k : nat) (p : hwloc_obj_t) :
  find_in_children type os_idx children k = Some p ->
  exists k' p' c, p = (k + k') :: p' /\ children !! k' = Some c
    /\ hwloc_find_obj_by_type_and_os_index c type os_idx = Some p'
    /\ forall k'' c'', k'' < k' -> children !! k'' = Some c'' ->
         hwloc_find_obj_by_type_and_os_index c'' type os_idx = None.
Proof.
  revert k. induction children as [|c cs IH]; intros k; [done |]. simpl.
  destruct (hwloc_find_obj_by_type_and_os_index c type os_idx) as [found|] eqn:Ec.
  - intros [= <-]. exists 0, found, c. rewrite Nat.add_0_r. repeat split; [done |].
    intros k'' c'' Hk. lia.
  - intros H. apply IH in H as (k' & p' & c' & -> & Hc' & Hfind & Hbefore).
    exists (S k'), p', c'. repeat split; [f_equal; lia | done | done |].
    intros [|k''] c'' Hk Hc''; simpl in Hc''; [congruence |].
    apply (Hbefore k''); [lia | done].
Qed.

Lemma find_in_children_none (type : hwloc_obj_type_t) (os_idx : N)
    (children : list hwloc_tree) (k : nat) :
  find_in_children type os_idx children k = None <->
  forall c, c ∈ children -> hwloc_find_obj_by_type_and_os_index c type os_idx = None.
Proof.
  revert k. induction children as [|c cs IH]; intros k; simpl.
  - split; [intros _ c Hc; by apply elem_of_nil in Hc | done].
  - destruct (hwloc_find_obj_by_type_and_os_index c type os_idx) as [found|] eqn:Ec.
    + split; [done |]. intros H. specialize (H c (list_elem_of_here _ _)). congruence.
    + rewrite IH. split.
      * intros H c' Hc'. apply elem_of_cons in Hc' as [-> | Hc']; [done | by apply H].
      * intros H c' Hc'. apply H. by apply list_elem_of_further.
Qed.

(** What is found is an object of the tree with the type and the index
    asked for. *)
Lemma find_obj_sound (root : hwloc_tree) (type : hwloc_obj_type_t) (os_idx : N)
    (p : hwloc_obj_t) :
  hwloc_find_obj_by_type_and_os_index root type os_idx = Some p ->
  exists o, deref root p = Some o /\ obj_type o = type /\ os_index o = os_idx.
Proof.
  revert p. induction root as [o children IH] using hwloc_tree_ind'. intros p.
  rewrite find_obj_unfold.
  destruct (Nat.eqb (obj_type o) type && N.eqb (os_index o) os_idx) eqn:E.
  - intros [= <-]. exists o. apply andb_true_iff in E as [E1 E2].
    apply Nat.eqb_eq in E1. apply N.eqb_eq in E2. done.
  - intros H. apply find_in_children_some in H as (k' & p' & c & -> & Hc & Hfind & _).
    rewrite Forall_forall in IH.
    destruct (IH c) with (p := p') as (o' & Ho' & ?); [by eapply list_elem_of_lookup_2 | done |].
    exists o'. split; [| done]. unfold deref in *. simpl. by rewrite Hc.
Qed.

(** Every object of the tree with the type and the index asked for makes
    the search succeed: the whole tree is searched. *)
Lemma find_obj_complete (root : hwloc_tree) (type : hwloc_obj_type_t) (os_idx : N)
    (p : hwloc_obj_t) (o : hwloc_obj) :
  deref root p = Some o -> obj_type o = type -> os_index o = os_idx ->
  is_Some (hwloc_find_obj_by_type_and_os_index root type os_idx).
Proof.
  revert p. induction root as [o' children IH] using hwloc_tree_ind'. intros p Hp Ht Hi.
  rewrite find_obj_unfold.
  destruct (Nat.eqb (obj_type o') type && N.eqb (os_index o') os_idx) eqn:E; [done |].
  destruct p as [|k p]; unfold deref in Hp; simpl in Hp.
  - injection Hp as ->. subst.
    by rewrite Nat.eqb_refl, N.eqb_refl in E.
  - destruct (children !! k) as [c|] eqn:Hc; [| done].
    destruct (find_in_children type os_idx children 0) eqn:F; [done |].
    rewrite find_in_children_none in F.
    rewrite Forall_forall in IH.
    assert (c ∈ children) as Hin by (by eapply list_elem_of_lookup_2).
    destruct (IH c Hin p) as [q Hq]; [done | done | done |].
    rewrite F in Hq; done.
Qed.

Lemma resolve_from_some (root : hwloc_tree) (type : hwloc_obj_type_t) (idx : list N)
    (count i : nat) (objs : list hwloc_obj_t) :
  i + count <= length objs ->
  (forall k, i <= k < i + count ->
     is_Some (hwloc_find_obj_by_type_and_os_index root type (rd 0%N idx k))) ->
  exists l, resolve_from root type idx i count objs = Some l
    /\ length l = length objs
    /\ (forall k, i <= k < i + count ->
          hwloc_find_obj_by_type_and_os_index root type (rd 0%N idx k) = Some (rd [] l k))
    /\ (forall k, k < i -> rd [] l k = rd [] objs k).
Proof.
  revert i objs. induction count as [|count IH]; intros i objs Hlen Hall; simpl.
  - exists objs. split; [done |]. split; [done |]. split; [intros; lia | done].
  - destruct (Hall i) as [obj Hobj]; [lia |]. rewrite Hobj.
    destruct (IH (S i) (<[i := obj]> objs)) as (l & -> & Hl & Hfound & Hkept).
    + rewrite length_insert. lia.
    + intros k Hk. apply Hall. lia.
    + exists l. rewrite length_insert in Hl. repeat split; [done | |].
      * intros k Hk. destruct (decide (k = i)) as [-> | Hne].
        -- assert (i < length objs) as Hi by lia.
           rewrite Hkept by lia. rewrite rd_insert_eq by exact Hi. done.
        -- apply Hfound. lia.
      * intros k Hk. rewrite Hkept by lia. apply rd_insert_ne. lia.
Qed.

Lemma resolve_from_none (root : hwloc_tree) (type : hwloc_obj_type_t) (idx : list N)
    (count i : nat) (objs : list hwloc_obj_t) :
  (exists k, i <= k < i + count
     /\ hwloc_find_obj_by_type_and_os_index root type (rd 0%N idx k) = None) ->
  resolve_from root type idx i count objs = None.
Proof.
  revert i objs. induction count as [|count IH]; intros i objs (k & Hk & Hnone); simpl.
  - lia.
  - destruct (hwloc_find_obj_by_type_and_os_index root type (rd 0%N idx i)) eqn:E; [| done].
    apply IH. exists k. split; [| done].
    destruct (decide (k = i)) as [-> | ?]; [congruence | lia].
Qed.

Lemma convert_slot (topology : hwloc_topology) (type : hwloc_obj_type_t) :
  type < length (os_distances topology) ->
  slot (hwloc_convert_distances_indexes_into_objects topology) type
  = convert_type (levels topology) type (slot topology type).
Proof.
  intros Htype. unfold hwloc_convert_distances_indexes_into_objects, slot.
  unfold set_os_distances, os_distances at 1.
  destruct (for_range_alter no_distances (convert_type (levels topology))
              (length (os_distances topology)) 0 (os_distances topology)) as [_ Hrd].
  rewrite Hrd by done. rewrite decide_True by lia. done.
Qed.

(** C8. For a type whose slot stores indexes, after
    [hwloc_convert_distances_indexes_into_objects] the count, the indexes
    and the distances of the slot are what they were; if every index is
    found in the tree, [objs] is an array of the same length whose cell [i]
    is the object found for index [i] (an object of the tree with that type
    and that index); if one index is not found, [objs] is [NULL]. *)
Theorem convert_indexes_all_or_nothing (topology : hwloc_topology)
    (type : hwloc_obj_type_t) (idx : list N) :
  type < length (os_distances topology) ->
  indexes (slot topology type) = Some idx ->
  let s := slot topology type in
  let s' := slot (hwloc_convert_distances_indexes_into_objects topology) type in
  let find := hwloc_find_obj_by_type_and_os_index (levels topology) type in
  nbobjs s' = nbobjs s /\ indexes s' = indexes s /\ distances s' = distances s
  /\ ((forall i, i < nbobjs s -> is_Some (find (rd 0%N idx i))) ->
        exists l, objs s' = Some l /\ length l = nbobjs s
          /\ forall i, i < nbobjs s ->
               find (rd 0%N idx i) = Some (rd [] l i)
               /\ exists o, deref (levels topology) (rd [] l i) = Some o
                    /\ obj_type o = type /\ os_index o = rd 0%N idx i)
  /\ ((exists i, i < nbobjs s /\ find (rd 0%N idx i) = None) -> objs s' = None).
Proof.
  intros Htype Hidx s s' find. subst s'. rewrite convert_slot by done.
  unfold convert_type. fold s in Hidx |- *. rewrite Hidx. simpl.
  split; [done |]. split; [done |]. split; [done |]. split.
  - intros Hall.
    destruct (resolve_from_some (levels topology) type idx (nbobjs s) 0
                (replicate (nbobjs s) []))
      as (l & Hl & Hlen & Hfound & _).
    + rewrite length_replicate. lia.
    + intros k Hk. apply Hall. lia.
    + exists l. rewrite length_replicate in Hlen. split; [done |]. split; [done |].
      intros i Hi. split; [apply Hfound; lia |].
      apply find_obj_sound. apply Hfound. lia.
  - intros (i & Hi & Hnone). apply resolve_from_none. exists i. split; [lia | done].
Qed.

Lemma convert_indexes_witness :
  exists l,
    objs (slot (hwloc_convert_distances_indexes_into_objects sample_with_distances) 2)
    = Some l
    /\ length l = 2
    /\ deref sample_tree (rd [] l 0) = Some (sample_obj 2 0%N 3%N 1%N 0%N)
    /\ deref sample_tree (rd [] l 1) = Some (sample_obj 2 1%N 12%N 1%N 1%N).
Proof.
  destruct (convert_indexes_all_or_nothing sample_with_distances 2 [0; 1]%N)
    as (_ & _ & _ & Hall & _).
  - vm_compute. lia.
  - reflexivity.
  - destruct Hall as (l & Hl & Hlen & Hobjs).
    + intros i Hi. change (i < 2) in Hi.
      assert (i = 0 \/ i = 1) as [-> | ->] by lia; vm_compute; eauto.
    + exists l. split; [exact Hl |]. split; [exact Hlen |].
      destruct (Hobjs 0) as [H0 _]; [vm_compute; lia |].
      destruct (Hobjs 1) as [H1 _]; [vm_compute; lia |].
      change (Some [0] = Some (rd [] l 0)) in H0.
      change (Some [1] = Some (rd [] l 1)) in H1.
      injection H0 as <-. injection H1 as <-. split; reflexivity.
Defined.

(** ** Logically ordered latency matrices *)

(** Two nested loops over the rows and the columns of a matrix visit its
    cells in row-major order: [R t] is what holds after [t] cells. *)
Lemma for_cells_ind {St : Type} (R : nat -> St -> Prop) (body : nat -> nat -> St -> St)
    (n : nat) (s : St) :
  R 0 s ->
  (forall i j st, i < n -> j < n -> R (i * n + j) st -> R (S (i * n + j)) (body i j st)) ->
  R (n * n) (for_range (fun i => for_range (body i) 0 n) 0 n s).
Proof.
  intros H0 Hstep. change (n * n) with ((0 + n) * n).
  apply (for_range_ind (fun k st => R (k * n) st)); [done |].
  intros k st Hk Hst. replace (S k * n) with (k * n + (0 + n)) by lia.
  apply (for_range_ind (fun l st => R (k * n + l) st)).
  - by rewrite Nat.add_0_r.
  - intros l st' Hl Hst'. replace (k * n + S l) with (S (k * n + l)) by lia.
    apply Hstep; (done || lia).
Qed.

(** What the scan computes. [min] is never a NaN, no cell is below it, and
    it is [FLT_MAX] or a cell; no cell is above [max], which is [FLT_MIN]
    or a cell. *)
Lemma scan_min_max_spec (n : nat) (m : list float) :
  let '(min, max) := scan_min_max n m in
  F32.is_nan min = false
  /\ (forall i j, i < n -> j < n -> F32.lt (ucell n m i j) min = false)
  /\ (min = F32.FLT_MAX \/ exists i j, i < n /\ j < n /\ min = ucell n m i j)
  /\ (forall i j, i < n -> j < n -> F32.lt max (ucell n m i j) = false)
  /\ (max = F32.FLT_MIN \/ exists i j, i < n /\ j < n /\ max = ucell n m i j).
Proof.
  unfold scan_min_max.
  pose (R := fun (t : nat) (st : float * float) =>
               F32.is_nan st.1 = false
               /\ (forall i j, i < n -> j < n -> i * n + j < t ->
                     F32.lt (ucell n m i j) st.1 = false)
               /\ (st.1 = F32.FLT_MAX \/ exists i j, i < n /\ j < n /\ st.1 = ucell n m i j)
               /\ (forall i j, i < n -> j < n -> i * n + j < t ->
                     F32.lt st.2 (ucell n m i j) = false)
               /\ (st.2 = F32.FLT_MIN \/ exists i j, i < n /\ j < n /\ st.2 = ucell n m i j)).
  assert (R (n * n)
            (for_range
               (fun i =>
                  for_range
                    (fun j '(min, max) =>
                       let val := ucell n m i j in
                       let min := if F32.lt val min then val else min in
                       let max := if F32.lt max val then val else max in
                       (min, max)) 0 n) 0 n (F32.FLT_MAX, F32.FLT_MIN))) as H.
  { apply (for_cells_ind R); unfold R; clear R.
    - simpl. repeat split; (intros; lia) || (by left).
    - intros i j [min max] Hi Hj (Hnan & Hlow & Hmin & Hhigh & Hmax). simpl in *.
      split; [| split; [| split; [| split]]].
      + destruct (F32.lt (ucell n m i j) min) eqn:E; [by eapply flt_not_nan | done].
      + intros i' j' Hi' Hj' Hseen.
        destruct (decide (i' * n + j' = i * n + j)) as [Heq | Hne].
        * apply cell_index_inj in Heq as [-> ->]; [| done | done].
          destruct (F32.lt (ucell n m i j) min) eqn:E; [apply flt_irrefl | done].
        * assert (F32.lt (ucell n m i' j') min = false) as Hold by (apply Hlow; lia).
          destruct (F32.lt (ucell n m i j) min) eqn:E; [| done].
          destruct (F32.lt (ucell n m i' j') (ucell n m i j)) eqn:E'; [| done].
          by rewrite (flt_trans _ _ _ E' E) in Hold.
      + destruct (F32.lt (ucell n m i j) min); [right; eauto | done].
      + intros i' j' Hi' Hj' Hseen.
        destruct (decide (i' * n + j' = i * n + j)) as [Heq | Hne].
        * apply cell_index_inj in Heq as [-> ->]; [| done | done].
          destruct (F32.lt max (ucell n m i j)) eqn:E; [apply flt_irrefl | done].
        * assert (F32.lt max (ucell n m i' j') = false) as Hold by (apply Hhigh; lia).
          destruct (F32.lt max (ucell n m i j)) eqn:E; [| done].
          destruct (F32.lt (ucell n m i j) (ucell n m i' j')) eqn:E'; [| done].
          by rewrite (flt_trans _ _ _ E E') in Hold.
      + destruct (F32.lt max (ucell n m i j)); [right; eauto | done]. }
  destruct (for_range _ 0 n _) as [min max]. unfold R in H; simpl in H.
  destruct H as (Hnan & Hlow & Hmin & Hhigh & Hmax).
  repeat split; try done.
  - intros i j Hi Hj. apply Hlow; [done | done |]. by apply cell_index_lt.
  - intros i j Hi Hj. apply Hhigh; [done | done |]. by apply cell_index_lt.
Qed.

Section FillLatency.

Variables (n : nat) (objs : list hwloc_obj) (os : list float) (min : float).
Hypothesis Hinside : cells_inside n objs.

Let value (a b : nat) : float := F32.div (ucell n os a b) min.

(** The cells stored so far: [written S matrix] when the block has its
    length and, the cells being distinct, the cell of every pair of objects
    in [S] holds its normalised distance. *)
Let written (S : nat -> nat -> Prop) (matrix : list (option float)) : Prop :=
  length matrix = matrix_cells n
  /\ (cells_distinct n objs ->
      forall a b, a < n -> b < n -> S a b ->
        matrix !! latency_cell n objs a b = Some (Some (value a b))).

Lemma store_written (S : nat -> nat -> Prop) (matrix : list (option float)) (a b : nat) :
  a < n -> b < n -> written S matrix ->
  exists matrix',
    store matrix (N.of_nat (latency_cell n objs a b)) (value a b) = Done matrix'
    /\ written (fun a' b' => S a' b' \/ (a' = a /\ b' = b)) matrix'.
Proof.
  intros Ha Hb [Hlen Hcells]. unfold store.
  pose proof (Hinside a b Ha Hb) as Hlt. rewrite Hlen.
  destruct (N.ltb_spec (N.of_nat (latency_cell n objs a b)) (N.of_nat (matrix_cells n)))
    as [_ | ?]; [| lia].
  rewrite Nat2N.id.
  eexists. split; [done |]. split; [by rewrite length_insert |].
  intros Hinj a' b' Ha' Hb' [HS | [-> ->]].
  - destruct (decide (latency_cell n objs a' b' = latency_cell n objs a b)) as [Heq | Hne].
    + apply Hinj in Heq as [-> ->]; try done.
      apply list_lookup_insert_eq. rewrite Hlen. lia.
    + rewrite list_lookup_insert_ne by lia. by apply Hcells.
  - apply list_lookup_insert_eq. rewrite Hlen. lia.
Qed.

Lemma written_weaken (S S' : nat -> nat -> Prop) (matrix : list (option float)) :
  (forall a b, a < n -> b < n -> S' a b -> S a b) ->
  written S matrix -> written S' matrix.
Proof.
  intros Hsub [Hlen Hcells]. split; [done |].
  intros Hinj a b Ha Hb HS. by apply Hcells; [| | | apply Hsub].
Qed.

(** The index the function computes for a pair of objects. *)
Lemma latency_cell_index (a b : nat) :
  u32 (usub (logical_index (rd no_obj objs a)) (min_logical_index n objs) * N.of_nat n
       + usub (logical_index (rd no_obj objs b)) (min_logical_index n objs))
  = N.of_nat (latency_cell n objs a b).
Proof. unfold latency_cell, logical_row. by rewrite N2Nat.id. Qed.

(** The loops run inside the block; when the cells are distinct they leave
    in the cell of every pair of objects the quotient of their raw
    distance by [min]. *)
Lemma fill_latency_done :
  exists matrix,
    fill_latency n objs os (min_logical_index n objs) min (replicate (matrix_cells n) None)
    = Done matrix
    /\ length matrix = matrix_cells n
    /\ (cells_distinct n objs ->
        forall a b, a < n -> b < n ->
          matrix !! latency_cell n objs a b
          = Some (Some (F32.div (ucell n os a b) min))).
Proof.
  unfold fill_latency.
  destruct (for_range_o_ind
              (fun i matrix => written (fun a b => a < i \/ b < i) matrix)
              (fun i matrix =>
                 let li := usub (logical_index (rd no_obj objs i)) (min_logical_index n objs) in
                 matrix ← store matrix (u32 (li * N.of_nat n + li))
                            (F32.div (ucell n os i i) min);
                 for_range_o
                   (fun j matrix =>
                      let lj := usub (logical_index (rd no_obj objs j))
                                  (min_logical_index n objs) in
                      matrix ← store matrix (u32 (li * N.of_nat n + lj))
                                 (F32.div (ucell n os i j) min);
                      store matrix (u32 (lj * N.of_nat n + li)) (F32.div (ucell n os j i) min))
                   (i + 1) (n - (i + 1)) matrix)
              n 0 (replicate (matrix_cells n) None)) as (matrix & Hrun & Hlen & Hcells).
  - split; [apply length_replicate |]. intros; lia.
  - intros i matrix Hi Hw. cbv zeta.
    assert (i < n) as Hin by lia.
    destruct (store_written _ matrix i i Hin Hin Hw) as (m1 & Hs1 & Hw1).
    rewrite latency_cell_index. unfold value in Hs1. rewrite Hs1. simpl.
    destruct (for_range_o_ind
                (fun j matrix =>
                   written (fun a b => a < i \/ b < i \/ (a = i /\ b = i)
                                       \/ (a = i /\ i < b < j) \/ (b = i /\ i < a < j))
                     matrix)
                (fun j matrix =>
                   let lj := usub (logical_index (rd no_obj objs j))
                               (min_logical_index n objs) in
                   matrix ← store matrix
                              (u32 (usub (logical_index (rd no_obj objs i))
                                      (min_logical_index n objs) * N.of_nat n + lj))
                              (F32.div (ucell n os i j) min);
                   store matrix
                     (u32 (lj * N.of_nat n
                           + usub (logical_index (rd no_obj objs i))
                               (min_logical_index n objs)))
                     (F32.div (ucell n os j i) min))
                (n - (i + 1)) (i + 1) m1) as (m2 & Hrun2 & Hw2).
    + revert Hw1. apply written_weaken. intros a b Ha Hb. lia.
    + intros j m Hj Hm. cbv zeta.
      assert (j < n) as Hjn by lia.
      destruct (store_written _ m i j Hin Hjn Hm) as (m' & Hs & Hw').
      rewrite !latency_cell_index. unfold value in Hs. rewrite Hs. simpl.
      destruct (store_written _ m' j i Hjn Hin Hw') as (m'' & Hs' & Hw'').
      unfold value in Hs'. rewrite Hs'.
      eexists. split; [done |].
      revert Hw''. apply written_weaken. intros a b Ha Hb. lia.
    + exists m2. split; [done |].
      revert Hw2. apply written_weaken. intros a b Ha Hb. lia.
  - exists matrix. split; [done |]. split; [done |].
    intros Hinj a b Ha Hb. apply Hcells; [done | done | done | lia].
Qed.

End FillLatency.

Lemma deref_update_obj (f : hwloc_obj -> hwloc_obj) (t : hwloc_tree) (p : hwloc_obj_t)
    (o : hwloc_obj) :
  deref t p = Some o -> deref (update_obj f t p) p = Some (f o).
Proof.
  unfold deref. revert t. induction p as [|k p IH]; intros t; simpl.
  - by intros [= <-].
  - destruct (tree_children t !! k) as [c|] eqn:Hc; [| done]. simpl.
    intros H. rewrite list_lookup_insert_eq by (by eapply lookup_lt_Some).
    by apply IH.
Qed.

(** The minimum of the logical indexes is below each of them. *)
Lemma min_logical_index_le (n : nat) (objs : list hwloc_obj) :
  (min_logical_index n objs <= UINT_MAX)%N
  /\ forall i, i < n -> (min_logical_index n objs <= logical_index (rd no_obj objs i))%N.
Proof.
  unfold min_logical_index.
  pose (P := fun (k : nat) (minl : N) =>
               (minl <= UINT_MAX)%N
               /\ forall i, i < k -> (minl <= logical_index (rd no_obj objs i))%N).
  apply (for_range_ind P); unfold P; clear P.
  - split; [lia |]. intros; lia.
  - intros k minl Hk [Hmax Hle].
    destruct (N.ltb_spec (logical_index (rd no_obj objs k)) minl) as [Hlt | Hge].
    + split; [lia |]. intros i Hi. destruct (decide (i = k)) as [-> | ?]; [lia |].
      specialize (Hle i). lia.
    + split; [done |]. intros i Hi. destruct (decide (i = k)) as [-> | ?]; [lia |].
      apply Hle. lia.
Qed.

(** When [n * n] is an [unsigned], objects whose rows lie inside the
    matrix and differ from one object to the other are well placed, at
    the cells of their rows and columns. *)
Lemma rows_well_placed (n : nat) (objs : list hwloc_obj) :
  matrix_fits n -> rows_inside n objs ->
  cells_inside n objs
  /\ (rows_distinct n objs -> cells_distinct n objs)
  /\ forall i j, i < n -> j < n ->
       latency_cell n objs i j
       = N.to_nat (logical_row n objs i) * n + N.to_nat (logical_row n objs j).
Proof.
  intros Hfits Hrows.
  assert (forall i j, i < n -> j < n ->
            latency_cell n objs i j
            = N.to_nat (logical_row n objs i) * n + N.to_nat (logical_row n objs j)) as Hcell.
  { intros i j Hi Hj. pose proof (Hrows i Hi). pose proof (Hrows j Hj).
    unfold latency_cell, u32. unfold matrix_fits, UINT_MAX in Hfits.
    rewrite N.mod_small by nia. lia. }
  split; [| split; [| done]].
  - intros i j Hi Hj. rewrite Hcell, matrix_cells_fits by done.
    pose proof (Hrows i Hi). pose proof (Hrows j Hj). nia.
  - intros Hdistinct i j i' j' Hi Hj Hi' Hj'. rewrite !Hcell by done. intros Heq.
    pose proof (Hrows i Hi). pose proof (Hrows j Hj).
    pose proof (Hrows i' Hi'). pose proof (Hrows j' Hj').
    assert (logical_row n objs i = logical_row n objs i') by nia.
    assert (logical_row n objs j = logical_row n objs j') by nia.
    split; by apply Hdistinct.
Qed.

(** Objects with distinct logical indexes (C [unsigned] numbers) that span
    less than [n] are well placed, when [n * n] is an [unsigned]. *)
Lemma well_placed_distinct (n : nat) (objs : list hwloc_obj) :
  matrix_fits n ->
  (forall i, i < n -> (logical_index (rd no_obj objs i) <= UINT_MAX)%N) ->
  (forall i, i < n ->
     (logical_index (rd no_obj objs i) < min_logical_index n objs + N.of_nat n)%N) ->
  (forall i j, i < n -> j < n ->
     logical_index (rd no_obj objs i) = logical_index (rd no_obj objs j) -> i = j) ->
  well_placed n objs
  /\ forall i, i < n ->
       logical_row n objs i
       = (logical_index (rd no_obj objs i) - min_logical_index n objs)%N.
Proof.
  intros Hfits Hfit Hspan Hinj. destruct (min_logical_index_le n objs) as [Hmax Hle].
  assert (forall i, i < n ->
            logical_row n objs i
            = (logical_index (rd no_obj objs i) - min_logical_index n objs)%N) as Hrow.
  { intros i Hi. specialize (Hfit i Hi). specialize (Hle i Hi).
    unfold logical_row, usub, u32, UINT_MAX in *.
    rewrite (N.mod_small (min_logical_index n objs)) by lia.
    replace (logical_index (rd no_obj objs i) + 4294967296 - min_logical_index n objs)%N
      with (logical_index (rd no_obj objs i) - min_logical_index n objs
            + 1 * 4294967296)%N by lia.
    rewrite N.Div0.mod_add. apply N.mod_small. lia. }
  split; [| done].
  destruct (rows_well_placed n objs Hfits) as (Hinside & Hdistinct & _).
  - intros i Hi. rewrite Hrow by done. specialize (Hspan i Hi). specialize (Hle i Hi). lia.
  - split; [done |]. apply Hdistinct.
    intros i j Hi Hj. rewrite !Hrow by done. intros Heq. apply Hinj; [done | done |].
    pose proof (Hle i Hi). pose proof (Hle j Hj). lia.
Qed.


(** The record stored when the function goes to its end. *)
Lemma normalize_done (cover : hwloc_topology -> hwloc_cpuset_t -> option hwloc_obj_t)
    (topology : hwloc_topology) (n : nat) (objs : list hwloc_obj) (os : list float)
    (root : hwloc_obj_t) (root_obj : hwloc_obj) :
  cover topology (union_cpusets n objs) = Some root ->
  deref (levels topology) root = Some root_obj ->
  cpuset root_obj = union_cpusets n objs ->
  F32.is_zero (scan_min_max n os).1 = false ->
  cells_inside n objs ->
  exists matrix,
    hwloc_setup_distances_from_os_matrix cover topology n objs os
    = Done (set_levels topology
              (update_obj
                 (add_distances
                    {| relative_depth := usub (depth (rd no_obj objs 0)) (depth root_obj);
                       dist_nbobjs := n;
                       latency := matrix;
                       latency_max := F32.div (scan_min_max n os).2 (scan_min_max n os).1;
                       latency_base := (scan_min_max n os).1 |})
                 (levels topology) root))
    /\ length matrix = matrix_cells n
    /\ (cells_distinct n objs ->
        forall i j, i < n -> j < n ->
          matrix !! latency_cell n objs i j
          = Some (Some (F32.div (ucell n os i j) (scan_min_max n os).1))).
Proof.
  intros Hcover Hroot Hset Hzero Hinside. unfold hwloc_setup_distances_from_os_matrix.
  rewrite Hcover, Hroot, Hset. unfold hwloc_bitmap_isequal. rewrite N.eqb_refl. cbn [negb].
  destruct (scan_min_max n os) as [min max]. simpl in Hzero |- *. rewrite Hzero.
  destruct (fill_latency_done n objs os min Hinside) as (matrix & -> & Hlen & Hcells).
  exists matrix. done.
Qed.


Lemma sample_nodes_well_placed : well_placed 2 sample_nodes.
Proof.
  split.
  - intros i j Hi Hj.
    assert (i = 0 \/ i = 1) as [-> | ->] by lia;
      assert (j = 0 \/ j = 1) as [-> | ->] by lia; vm_compute; lia.
  - intros i j i' j' Hi Hj Hi' Hj'.
    assert (i = 0 \/ i = 1) as [-> | ->] by lia;
      assert (j = 0 \/ j = 1) as [-> | ->] by lia;
      assert (i' = 0 \/ i' = 1) as [-> | ->] by lia;
      assert (j' = 0 \/ j' = 1) as [-> | ->] by lia;
      vm_compute; (done || discriminate).
Qed.



(** C2, as the claim states it, fails: on [matrix_unequal_diagonal]
    (symmetric, each diagonal cell the least of its row) the function
    attaches a record whose cell (1,1) is 2, which is not 1. *)
Lemma normalized_diagonal_counterexample :
  exists topology' record,
    hwloc_setup_distances_from_os_matrix cover_by_root sample_topology 2 sample_nodes
      matrix_unequal_diagonal
    = Done topology'
    /\ obj_distances (tree_obj (levels topology')) = [record]
    /\ latency_cell 2 sample_nodes 1 1 = 3
    /\ latency record !! 3 = Some (Some (F32.of_Z 2))
    /\ F32.eq (F32.of_Z 2) F32.one = false.
Proof. eexists _, _. repeat split. Qed.

(** C2, amended. When the function attaches a record, the cell of the
    stored matrix on the diagonal, at the row and the column of object
    [i], is the raw cell [(i, i)] divided by the computed minimum
    [latency_base]; it is 1 whenever that raw cell is the minimum itself
    and is finite. The raw cell [(i, i)] is the one the function reads,
    [osmatrix[i * nbobjs + i]]. *)
Theorem normalized_diagonal
    (cover : hwloc_topology -> hwloc_cpuset_t -> option hwloc_obj_t)
    (topology : hwloc_topology) (n : nat) (objs : list hwloc_obj) (os : list float)
    (root : hwloc_obj_t) (root_obj : hwloc_obj) :
  cover topology (union_cpusets n objs) = Some root ->
  deref (levels topology) root = Some root_obj ->
  cpuset root_obj = union_cpusets n objs ->
  F32.is_zero (scan_min_max n os).1 = false ->
  well_placed n objs ->
  exists topology' record,
    hwloc_setup_distances_from_os_matrix cover topology n objs os = Done topology'
    /\ deref (levels topology') root = Some (add_distances record root_obj)
    /\ latency_base record = (scan_min_max n os).1
    /\ forall i, i < n ->
         latency record !! latency_cell n objs i i
         = Some (Some (F32.div (ucell n os i i) (latency_base record)))
         /\ (ucell n os i i = latency_base record ->
             F32.is_finite (ucell n os i i) = true ->
             latency record !! latency_cell n objs i i = Some (Some F32.one)).
Proof.
  intros Hcover Hroot Hset Hzero [Hinside Hdistinct].
  destruct (normalize_done cover topology n objs os root root_obj)
    as (matrix & Hrun & Hlen & Hcells); [done | done | done | done | done |].
  specialize (Hcells Hdistinct).
  eexists _, _. split; [exact Hrun |]. simpl.
  split; [by apply deref_update_obj |]. split; [done |].
  intros i Hi. split; [by apply Hcells |].
  intros Hmin Hfinite. simpl in Hmin. rewrite Hcells by done. rewrite <- Hmin.
  destruct (ucell n os i i) as [s | s | | s m e] eqn:E; try done.
  - rewrite <- Hmin in Hzero. by destruct s.
  - by rewrite div_same.
Qed.

Lemma normalized_diagonal_witness :
  exists topology' record,
    hwloc_setup_distances_from_os_matrix cover_by_root sample_topology 2 sample_nodes
      matrix_unequal_diagonal
    = Done topology'
    /\ obj_distances (tree_obj (levels topology')) = [record]
    /\ latency record !! latency_cell 2 sample_nodes 0 0 = Some (Some F32.one)
    /\ latency record !! latency_cell 2 sample_nodes 1 1
       = Some (Some (F32.div (F32.of_Z 2) (F32.of_Z 1))).
Proof.
  destruct (normalized_diagonal cover_by_root sample_topology 2 sample_nodes
              matrix_unequal_diagonal [] (tree_obj sample_tree))
    as (topology' & record & Hrun & Hroot & Hbase & Hdiag);
    [reflexivity | reflexivity | reflexivity | reflexivity
    | exact sample_nodes_well_placed |].
  exists topology', record. split; [exact Hrun |].
  unfold deref in Hroot. simpl in Hroot. injection Hroot as Hroot. rewrite Hroot.
  split; [reflexivity |].
  destruct (Hdiag 0) as [_ H0]; [lia |]. destruct (Hdiag 1) as [H1 _]; [lia |].
  rewrite Hbase in H0, H1. split.
  - apply H0; reflexivity.
  - exact H1.
Defined.

(** C5. On [matrix_subnormal], whose cells are positive and below
    [FLT_MIN], the function attaches a record with [latency_max] 16, the
    quotient of [FLT_MIN] by the minimum, where the raw maximum divided by
    the minimum is 2: the scan for the maximum starts from [FLT_MIN], the
    least positive normalised number. *)
Theorem latency_max_starts_from_FLT_MIN :
  exists topology' record,
    hwloc_setup_distances_from_os_matrix cover_by_root sample_topology 2 sample_nodes
      matrix_subnormal
    = Done topology'
    /\ obj_distances (tree_obj (levels topology')) = [record]
    /\ latency_base record = cell 2 matrix_subnormal 0 0
    /\ (scan_min_max 2 matrix_subnormal).2 = F32.FLT_MIN
    /\ latency_max record = F32.of_Z 16
    /\ F32.div (cell 2 matrix_subnormal 0 1) (cell 2 matrix_subnormal 0 0) = F32.of_Z 2
    /\ (forall i j, i < 2 -> j < 2 ->
          F32.lt (cell 2 matrix_subnormal 0 1) (cell 2 matrix_subnormal i j) = false)
    /\ (forall i j, i < 2 -> j < 2 ->
          valid_binary F32.prec F32.emax (cell 2 matrix_subnormal i j) = true).
Proof.
  eexists _, _. repeat split.
  - intros i j Hi Hj.
    assert (i = 0 \/ i = 1) as [-> | ->] by lia;
      assert (j = 0 \/ j = 1) as [-> | ->] by lia; reflexivity.
  - intros i j Hi Hj.
    assert (i = 0 \/ i = 1) as [-> | ->] by lia;
      assert (j = 0 \/ j = 1) as [-> | ->] by lia; reflexivity.
Qed.

(** X16. The part of the round trip that holds: the stored matrix, read
    at the cell written for two objects, is their raw distance divided
    by the computed minimum, which is [latency_base]; [latency_max] is the
    quotient of the scanned maximum. The raw distance is the cell the
    function reads, [osmatrix[i * nbobjs + j]], and the stored matrix has
    the [nbobjs * nbobjs] cells of its block, both computed on
    [unsigned]. When [nbobjs * nbobjs] is an [unsigned], these are cell
    [(i, j)] of the raw matrix and [nbobjs * nbobjs] cells, and the cell
    written for two objects whose rows lie inside the matrix is the one
    at the row of the first and the column of the second. *)
Theorem normalized_matrix_reindexed
    (cover : hwloc_topology -> hwloc_cpuset_t -> option hwloc_obj_t)
    (topology : hwloc_topology) (n : nat) (objs : list hwloc_obj) (os : list float)
    (root : hwloc_obj_t) (root_obj : hwloc_obj) :
  cover topology (union_cpusets n objs) = Some root ->
  deref (levels topology) root = Some root_obj ->
  cpuset root_obj = union_cpusets n objs ->
  F32.is_zero (scan_min_max n os).1 = false ->
  well_placed n objs ->
  exists topology' record,
    hwloc_setup_distances_from_os_matrix cover topology n objs os = Done topology'
    /\ deref (levels topology') root = Some (add_distances record root_obj)
    /\ latency_base record = (scan_min_max n os).1
    /\ latency_max record = F32.div (scan_min_max n os).2 (scan_min_max n os).1
    /\ dist_nbobjs record = n
    /\ length (latency record) = matrix_cells n
    /\ (forall i j, i < n -> j < n ->
          latency record !! latency_cell n objs i j
          = Some (Some (F32.div (ucell n os i j) (latency_base record))))
    /\ (matrix_fits n ->
        matrix_cells n = n * n
        /\ (forall i j, i < n -> j < n -> ucell n os i j = cell n os i j)
        /\ (rows_inside n objs ->
            forall i j, i < n -> j < n ->
              latency_cell n objs i j
              = N.to_nat (logical_row n objs i) * n + N.to_nat (logical_row n objs j))).
Proof.
  intros Hcover Hroot Hset Hzero [Hinside Hdistinct].
  destruct (normalize_done cover topology n objs os root root_obj)
    as (matrix & Hrun & Hlen & Hcells); [done | done | done | done | done |].
  specialize (Hcells Hdistinct).
  eexists _, _. split; [exact Hrun |]. simpl.
  split; [by apply deref_update_obj |].
  split; [done |]. split; [done |]. split; [done |]. split; [done |]. split; [done |].
  intros Hfits. split; [by apply matrix_cells_fits |].
  split; [intros i j Hi Hj; by apply ucell_fits |].
  intros Hrows. by apply rows_well_placed.
Qed.

Lemma normalized_matrix_reindexed_witness :
  exists topology' record,
    hwloc_setup_distances_from_os_matrix cover_by_root sample_topology 2 sample_nodes
      matrix_unequal_diagonal
    = Done topology'
    /\ obj_distances (tree_obj (levels topology')) = [record]
    /\ latency record !! latency_cell 2 sample_nodes 0 1
       = Some (Some (F32.div (F32.of_Z 5) (F32.of_Z 1))).
Proof.
  destruct (normalized_matrix_reindexed cover_by_root sample_topology 2 sample_nodes
              matrix_unequal_diagonal [] (tree_obj sample_tree))
    as (topology' & record & Hrun & Hroot & Hbase & _ & _ & _ & Hcells & _);
    [reflexivity | reflexivity | reflexivity | reflexivity
    | exact sample_nodes_well_placed |].
  exists topology', record. split; [exact Hrun |].
  unfold deref in Hroot. simpl in Hroot. injection Hroot as Hroot. rewrite Hroot.
  split; [reflexivity |].
  rewrite (Hcells 0 1) by lia. rewrite Hbase. reflexivity.
Defined.

(** ** Grouping: the check of the matrix *)

(** What the two tests of the loops let through: the cells above the
    diagonal equal their mirror cells and are not below or equal to the
    diagonal cell of their row. *)
Lemma matrix_rejected_false (n : nat) (d : list float) :
  matrix_rejected n d = false
  <-> forall i j, i < j < n ->
        F32.eq (cell n d i j) (cell n d j i) = true
        /\ F32.le (cell n d i j) (cell n d i i) = false.
Proof.
  unfold matrix_rejected.
  rewrite (pair_loop_false
             (fun i j => negb (F32.eq (cell n d i j) (cell n d j i))
                         || F32.le (cell n d i j) (cell n d i i))).
  split; intros H i j Hij; specialize (H i j Hij).
  - apply orb_false_iff in H as [H1 H2]. apply negb_false_iff in H1. done.
  - destruct H as [-> ->]. done.
Qed.

Lemma matrix_rejected_true (n : nat) (d : list float) :
  matrix_rejected n d = true
  <-> exists i j, i < j < n
        /\ (F32.eq (cell n d i j) (cell n d j i) = false
            \/ F32.le (cell n d i j) (cell n d i i) = true).
Proof.
  unfold matrix_rejected.
  rewrite (pair_loop_true
             (fun i j => negb (F32.eq (cell n d i j) (cell n d j i))
                         || F32.le (cell n d i j) (cell n d i i))).
  split; intros (i & j & Hij & H); exists i, j; (split; [done |]).
  - apply orb_true_iff in H as [H | H]; [left; by apply negb_true_iff | by right].
  - apply orb_true_iff. destruct H as [H | H]; [left; by apply negb_true_iff | by right].
Qed.

Section GroupingProperties.

Variable G : hwloc_obj_type_t.
Variable alloc_obj : hwloc_obj_type_t -> Z -> hwloc_obj.
Variable insert_obj : hwloc_topology -> hwloc_obj -> hwloc_topology.

(** The functions of [distances.c] over these, and the Group object made
    at recursion level 0 for a cpuset. *)
Let setup_groups := hwloc_setup_groups_from_distances G alloc_obj insert_obj.
Let setup_groups_rec := hwloc__setup_groups_from_distances G alloc_obj insert_obj.
Let group_of (set : hwloc_cpuset_t) : hwloc_obj := new_group G alloc_obj set 0.

(** A matrix that fails one of the two tests creates no group. *)
Lemma rejected_matrix_creates_nothing (ignore : bool)
    (topology : hwloc_topology) (n : nat) (objs : list hwloc_obj) (d : list float) :
  matrix_rejected n d = true -> setup_groups ignore topology n objs d = Done topology.
Proof.
  intros H. unfold setup_groups, hwloc_setup_groups_from_distances. rewrite H.
  by destruct ignore.
Qed.

(** C1. On the symmetric 4-by-4 matrix [matrix_large_last_diagonal], whose
    last diagonal cell (99) is above the cell (3,2) of its row (10), the
    check lets the matrix through and two groups are created: the loops
    compare a diagonal cell with the cells to its right only. *)
Theorem check_misses_cells_left_of_diagonal
    (topology : hwloc_topology) (o0 o1 o2 o3 : hwloc_obj) :
  F32.lt (cell 4 matrix_large_last_diagonal 3 3) (cell 4 matrix_large_last_diagonal 3 2)
  = false
  /\ matrix_rejected 4 matrix_large_last_diagonal = false
  /\ setup_groups false topology 4 [o0; o1; o2; o3] matrix_large_last_diagonal
     = Done (insert_obj
               (insert_obj topology (group_of (hwloc_bitmap_or (cpuset o0) (cpuset o1))))
               (group_of (hwloc_bitmap_or (cpuset o2) (cpuset o3)))).
Proof. repeat apply conj; reflexivity. Qed.

(** C3. On [matrix_two_pairs] the clustering commits two groups, of
    objects 0 and 1 and of objects 2 and 3, and the grouping hands to the
    tree one Group object for each, whose cpuset is the union of the
    cpusets of its two members. *)
Theorem two_pairs_make_two_groups
    (topology : hwloc_topology) (o0 o1 o2 o3 : hwloc_obj) :
  matrix_rejected 4 matrix_two_pairs = false
  /\ hwloc_setup_group_from_min_distance 4 matrix_two_pairs = Done (2, [1; 1; 2; 2])
  /\ setup_groups false topology 4 [o0; o1; o2; o3] matrix_two_pairs
     = Done (insert_obj
               (insert_obj topology (group_of (hwloc_bitmap_or (cpuset o0) (cpuset o1))))
               (group_of (hwloc_bitmap_or (cpuset o2) (cpuset o3))))
  /\ cpuset (group_of (hwloc_bitmap_or (cpuset o0) (cpuset o1)))
     = N.lor (cpuset o0) (cpuset o1)
  /\ cpuset (group_of (hwloc_bitmap_or (cpuset o2) (cpuset o3)))
     = N.lor (cpuset o2) (cpuset o3)
  /\ obj_type (group_of (hwloc_bitmap_or (cpuset o0) (cpuset o1)))
     = obj_type (alloc_obj G (-1)).
Proof. repeat apply conj; reflexivity. Qed.

(** C10. On [matrix_two_pairs_and_one], which passes the check, the
    clustering returns two groups and leaves the fifth object with group
    id 0; its index [groupids[4] - 1] is [UINT_MAX], outside the 2-by-2
    array of the factorisation, and the run faults there. *)
Theorem ungrouped_object_breaks_factorisation
    (topology : hwloc_topology) (objs : list hwloc_obj) :
  matrix_rejected 5 matrix_two_pairs_and_one = false
  /\ hwloc_setup_group_from_min_distance 5 matrix_two_pairs_and_one
     = Done (2, [1; 1; 2; 2; 0])
  /\ group_index 0 = UINT_MAX
  /\ factorize 5 matrix_two_pairs_and_one [1; 1; 2; 2; 0] 2 [2; 2] = Fault
  /\ setup_groups false topology 5 objs matrix_two_pairs_and_one = Fault.
Proof. repeat apply conj; reflexivity. Qed.

(** ** Grouping: the clustering and its termination *)

Lemma members_le_length (id : nat) (g : list nat) : members id g <= length g.
Proof. induction g as [|x g IH]; simpl; [done |]. destruct (Nat.eqb x id); lia. Qed.

(** A store into [groupids] moves one object from the group it leaves to
    the group it joins. *)
Lemma members_insert (id : nat) (g : list nat) (k v : nat) :
  k < length g ->
  members id (<[k := v]> g) + (if Nat.eqb (rd 0 g k) id then 1 else 0)
  = members id g + (if Nat.eqb v id then 1 else 0).
Proof.
  unfold rd. revert k. induction g as [|x g IH]; intros k Hk; simpl in *; [lia |].
  destruct k as [|k]; simpl.
  - destruct (Nat.eqb x id), (Nat.eqb v id); lia.
  - specialize (IH k ltac:(lia)).
    destruct (Nat.eqb x id), (Nat.eqb (nth k g 0) id), (Nat.eqb v id); lia.
Qed.

Lemma members_replicate_zero (id n : nat) : id <> 0 -> members id (replicate n 0) = 0.
Proof. intros Hid. induction n as [|n IH]; simpl; [done |]. by destruct id. Qed.

Lemma insert_zero_back (g : list nat) (i id : nat) :
  i < length g -> rd 0 g i = 0 -> <[i := 0]> (<[i := id]> g) = g.
Proof.
  intros Hi Hzero. rewrite list_insert_insert_eq. apply list_insert_id.
  destruct (lookup_lt_is_Some_2 g i Hi) as [x Hx].
  rewrite (rd_lookup 0 g i x Hx) in Hzero. by subst.
Qed.

Lemma rescan_from_inv (n : nat) (d : list float) (min : float) (id ff : nat)
    (g : list nat) (s : nat) :
  id <> 0 -> length g = n -> rescan_inv n id g s (rescan_from n d min id ff g s).
Proof.
  intros Hid Hlen. unfold rescan_from.
  apply (for_range_ind (fun _ => rescan_inv n id g s)).
  - unfold rescan_inv; simpl. repeat split; (done || lia).
  - intros j st Hj Hst. destruct (Nat.eqb (rd 0 (groupids st) j) id); [| done].
    apply (for_range_ind (fun _ => rescan_inv n id g s)); [done |].
    intros k st' Hk (Hl & Hfree & Hmine & Hothers & Hle & Hnew).
    destruct (Nat.eqb (rd 0 (groupids st') k) 0) eqn:Ek; simpl; [| done].
    destruct (F32.eq (cell n d j k) min); simpl; [| done].
    apply Nat.eqb_eq in Ek.
    assert (k < length (groupids st')) as Hkl by lia.
    pose proof (members_insert 0 (groupids st') k id Hkl) as Hfree'.
    pose proof (members_insert id (groupids st') k id Hkl) as Hmine'.
    rewrite Ek in Hfree', Hmine'. rewrite Nat.eqb_refl in Hmine'.
    destruct id as [|id']; [done |]. simpl in Hfree', Hmine'.
    unfold rescan_inv, unassigned in *; simpl. rewrite length_insert.
    split; [done |]. split; [lia |]. split; [lia |]. split; [| split; [lia |]].
    + intros other Hzero Hother.
      pose proof (members_insert other (groupids st') k (S id') Hkl) as Hsame.
      rewrite Ek in Hsame.
      destruct other as [|other']; [done |]. simpl in Hsame.
      destruct (Nat.eqb_spec id' other') as [-> | _]; [done |].
      rewrite <- (Hothers (S other')) by done. lia.
    + destruct (newfirstfound st'); lia.
Qed.

(** The [while] loop ends within a budget above the number of objects
    without a group. *)
Lemma grow_group_done (budget n : nat) (d : list float) (min : float) (id ff : nat)
    (g : list nat) (s : nat) :
  id <> 0 -> length g = n -> unassigned g < budget ->
  exists g' s',
    grow_group budget n d min id ff g s = Done (g', s')
    /\ length g' = n
    /\ unassigned g' + s' = unassigned g + s
    /\ members id g' + s = members id g + s'
    /\ (forall other, other <> 0 -> other <> id -> members other g' = members other g)
    /\ s <= s'
    /\ (s' = s -> g' = g).
Proof.
  intros Hid. revert ff g s.
  induction budget as [|budget IH]; intros ff g s Hlen Hbudget; [lia |]. simpl.
  destruct (rescan_from_inv n d min id ff g s Hid Hlen)
    as (Hl & Hfree & Hmine & Hothers & Hle & Hnew).
  destruct (newfirstfound (rescan_from n d min id ff g s)) as [found|].
  - destruct (IH found (groupids (rescan_from n d min id ff g s))
                (size (rescan_from n d min id ff g s)))
      as (g' & s' & -> & Hl' & Hfree' & Hmine' & Hothers' & Hle' & _); [done | lia |].
    exists g', s'. split; [done |]. split; [done |]. split; [lia |]. split; [lia |].
    split; [| split; [lia | lia]].
    intros other Hzero Hother. rewrite Hothers' by done. by apply Hothers.
  - destruct Hnew as [Hg Hs]. eexists _, _. split; [done |].
    rewrite Hg, Hs. repeat split; (done || lia).
Qed.

Lemma build_group_inv (n : nat) (d : list float) (min : float) (i : nat)
    (st : list nat * nat) :
  i < n -> build_inv n st ->
  exists st', build_group n d min i st = Done st' /\ build_inv n st'.
Proof.
  intros Hi. destruct st as [g id]. unfold build_inv at 1. cbn [fst snd].
  intros (Hlen & Hid & Hcount & Htwo & Hnone). unfold build_group.
  destruct (Nat.eqb (rd 0 g i) 0) eqn:E; cbn [negb].
  - apply Nat.eqb_eq in E.
    assert (i < length g) as Hil by lia.
    pose proof (members_insert 0 g i id Hil) as Hfree.
    pose proof (members_insert id g i id Hil) as Hmine.
    rewrite E in Hfree, Hmine. rewrite Nat.eqb_refl in Hmine.
    rewrite (Hnone id) in Hmine by lia.
    destruct id as [|id']; [lia |]. simpl in Hfree, Hmine.
    pose proof (members_le_length 0 g) as Hall.
    destruct (grow_group_done (S n) n d min (S id') i (<[i := S id']> g) 1)
      as (g' & s' & -> & Hl' & Hfree' & Hmine' & Hothers & Hle & Hsame).
    + lia.
    + by rewrite length_insert.
    + unfold unassigned. lia.
    + simpl. destruct (Nat.eqb s' 1) eqn:Es.
      * apply Nat.eqb_eq in Es. rewrite (Hsame Es).
        rewrite insert_zero_back by (done || lia).
        eexists. split; [done |]. unfold build_inv. cbn [fst snd]. done.
      * apply Nat.eqb_neq in Es. eexists. split; [done |].
        unfold build_inv, unassigned in *. cbn [fst snd].
        split; [done |]. split; [lia |]. split; [lia |]. split.
        -- intros id Hrange. destruct (decide (id = S id')) as [-> | Hne]; [lia |].
           rewrite Hothers by lia.
           pose proof (members_insert id g i (S id') Hil) as Hsame'.
           rewrite E in Hsame'.
           destruct id as [|id'']; [lia |]. simpl in Hsame'.
           destruct (Nat.eqb_spec id' id'') as [-> | _]; [done |].
           specialize (Htwo (S id'')). lia.
        -- intros id Hrange. rewrite Hothers by lia.
           pose proof (members_insert id g i (S id') Hil) as Hsame'.
           rewrite E in Hsame'.
           destruct id as [|id'']; [lia |]. simpl in Hsame'.
           destruct (Nat.eqb_spec id' id'') as [-> | _]; [lia |].
           specialize (Hnone (S id'')). lia.
  - eexists. split; [done |]. unfold build_inv. cbn [fst snd]. done.
Qed.

(** The clustering returns; its count of groups is at most half the
    number of objects, every group from 1 to the count has two members or
    more, and no object has a group id above the count. *)
Lemma setup_group_from_min_distance_done (n : nat) (d : list float) :
  exists c g,
    hwloc_setup_group_from_min_distance n d = Done (c, g)
    /\ length g = n /\ 2 * c <= n
    /\ (forall id, 1 <= id <= c -> 2 <= members id g)
    /\ (forall id, c < id -> members id g = 0).
Proof.
  unfold hwloc_setup_group_from_min_distance.
  destruct (F32.eq (find_min_distance n d) F32.FLT_MAX).
  - eexists _, _. split; [done |]. rewrite length_replicate.
    split; [done |]. split; [lia |]. split; [intros; lia |].
    intros id Hid. apply members_replicate_zero. lia.
  - destruct (for_range_o_ind (fun _ => build_inv n)
                (build_group n d (find_min_distance n d)) n 0 (replicate n 0, 1))
      as ([g id] & -> & Hlen & Hid & Hcount & Htwo & Hnone).
    + unfold build_inv, unassigned; simpl. rewrite length_replicate.
      pose proof (members_le_length 0 (replicate n 0)) as H.
      rewrite length_replicate in H.
      split; [done |]. split; [done |]. split; [lia |]. split; [intros; lia |].
      intros id Hid. apply members_replicate_zero. lia.
    + intros i st Hi Hst. apply build_group_inv; [lia | done].
    + simpl in *. eexists _, _. split; [done |]. split; [done |]. split; [lia |].
      split; intros id' Hid'; [apply Htwo | apply Hnone]; lia.
Qed.

Lemma accumulate_not_exhausted (nbgroups : nat) (gd : list float) (a b : N) (x : float) :
  accumulate nbgroups gd a b x <> Exhausted.
Proof. unfold accumulate. by destruct (_ && _). Qed.

Lemma factorize_not_exhausted (n : nat) (d : list float) (g : list nat) (c : nat)
    (sizes : list nat) :
  factorize n d g c sizes <> Exhausted.
Proof.
  unfold factorize.
  destruct (for_range_o _ 0 n _) eqn:E; simpl; [done | done |].
  exfalso. revert E. apply for_range_o_not_exhausted.
  intros i s. apply for_range_o_not_exhausted.
  intros j s'. apply accumulate_not_exhausted.
Qed.

(** A budget of the number of objects is enough for the recursion. *)
Lemma setup_groups_not_exhausted (budget : nat)
    (topology : hwloc_topology) (n : nat) (objs : list hwloc_obj) (d : list float)
    (depth : Z) :
  n <= budget -> setup_groups_rec budget topology n objs d depth <> Exhausted.
Proof.
  revert topology n objs d depth.
  induction budget as [|budget IH]; intros topology n objs d depth Hn.
  - simpl. destruct n; [done | lia].
  - simpl. destruct (n <=? 2) eqn:E2; [done |]. apply Nat.leb_gt in E2.
    destruct (setup_group_from_min_distance_done n d) as (c & g & -> & _ & Hc & _). simpl.
    destruct (Nat.eqb c 0); [done |]. destruct (Nat.eqb c 1); [done |].
    destruct (factorize n d g c _) eqn:F; simpl; [| done | by apply factorize_not_exhausted in F].
    apply IH. lia.
Qed.

(** C9. The grouping terminates on every input. The clustering of [n]
    objects returns a count [c] of groups with [2 * c <= n]: each of the
    groups 1 to [c] has two members or more, an object is in one group at
    most and in none above [c]. The recursion is on [c], stops at once
    when [n <= 2] or [c <= 1], and never exhausts a budget of [n] turns,
    which is the budget the entry point gives it. *)
Theorem grouping_terminates (ignore : bool)
    (topology : hwloc_topology) (n : nat) (objs : list hwloc_obj) (d : list float)
    (depth : Z) :
  (exists c g,
     hwloc_setup_group_from_min_distance n d = Done (c, g)
     /\ 2 * c <= n
     /\ (forall id, 1 <= id <= c -> 2 <= members id g)
     /\ (forall id, c < id -> members id g = 0)
     /\ (n <= 2 \/ c <= 1 ->
         forall budget, setup_groups_rec budget topology n objs d depth = Done topology)
     /\ (2 < n -> 1 < c ->
         forall budget,
           let created := create_groups G alloc_obj insert_obj topology n objs g c depth in
           setup_groups_rec (S budget) topology n objs d depth
           = gd ← factorize n d g c (groupsizes created);
             setup_groups_rec budget (g_topology created) c (groupobjs created) gd
               (depth + 1)))
  /\ (forall budget, n <= budget ->
        setup_groups_rec budget topology n objs d depth <> Exhausted)
  /\ setup_groups ignore topology n objs d <> Exhausted.
Proof.
  split; [| split].
  - destruct (setup_group_from_min_distance_done n d)
      as (c & g & Hrun & _ & Hc & Htwo & Hnone).
    exists c, g. split; [done |]. split; [done |]. split; [done |]. split; [done |]. split.
    + intros Hstop budget. destruct budget; simpl; rewrite Hrun; simpl.
      all: destruct (n <=? 2) eqn:E2; [done |]; apply Nat.leb_gt in E2.
      all: destruct Hstop as [? | Hc1]; [lia |].
      all: assert (c = 0 \/ c = 1) as [-> | ->] by lia; done.
    + intros Hn Hc1 budget. simpl. rewrite Hrun. simpl.
      destruct (n <=? 2) eqn:E2; [apply Nat.leb_le in E2; lia |].
      destruct c as [|[|c]]; [lia | lia |]. done.
  - intros budget. apply setup_groups_not_exhausted.
  - unfold setup_groups, hwloc_setup_groups_from_distances.
    destruct ignore; [done |]. destruct (matrix_rejected n d); [done |].
    by apply setup_groups_not_exhausted.
Qed.

End GroupingProperties.

(** * Further properties *)

(** ** The life of the store *)

Lemma rd_outside {A : Type} (d : A) (a : list A) (i : nat) :
  length a <= i -> rd d a i = d.
Proof. intros H. unfold rd. by apply nth_overflow. Qed.

Lemma rd_ext {A : Type} (d : A) (a b : list A) :
  length a = length b -> (forall i, i < length a -> rd d a i = rd d b i) -> a = b.
Proof. intros Hlen H. by apply (nth_ext a b d d). Qed.

Lemma length_for_range_alter {A : Type} (f : nat -> A -> A) (count lo : nat) (a : list A) :
  length (for_range (fun t a => alter (f t) t a) lo count a) = length a.
Proof.
  revert lo a. induction count as [|count IH]; intros lo a; simpl; [done |].
  by rewrite IH, length_alter.
Qed.

(** A loop over the whole array that rewrites each slot. *)
Lemma rd_for_range_alter_all {A : Type} (d : A) (f : nat -> A -> A) (a : list A) (t : nat) :
  t < length a ->
  rd d (for_range (fun t a => alter (f t) t a) 0 (length a) a) t = f t (rd d a t).
Proof.
  intros Ht. destruct (for_range_alter d f (length a) 0 a) as [_ Hrd].
  rewrite Hrd by done. by rewrite decide_True by lia.
Qed.

(** X1. After [hwloc_topology_distances_init] the slot of every type is
    empty (no object, no array), whatever it held before; the tree and
    the number of slots are what they were. *)
Theorem distances_init_empties_store (topology : hwloc_topology) :
  let topology' := hwloc_topology_distances_init topology in
  levels topology' = levels topology
  /\ length (os_distances topology') = length (os_distances topology)
  /\ forall type, slot topology' type = no_distances.
Proof.
  simpl. split; [done |].
  pose (P := fun (k : nat) (od : list hwloc_os_distances_s) =>
               length od = length (os_distances topology)
               /\ forall t, t < k -> rd no_distances od t = no_distances).
  assert (P (0 + length (os_distances topology))
            (for_range (fun i od => <[i := no_distances]> od)
               0 (length (os_distances topology)) (os_distances topology))) as [Hlen Hrd].
  { apply (for_range_ind P); unfold P.
    - split; [done |]. intros t Ht. lia.
    - intros i od Hi [Hlen Hrd]. split; [by rewrite length_insert |].
      intros t Ht. destruct (decide (t = i)) as [-> | Hne].
      + apply rd_insert_eq. lia.
      + rewrite rd_insert_ne by done. apply Hrd. lia. }
  split; [exact Hlen |]. intros type. unfold slot. simpl.
  destruct (decide (type < length (os_distances topology))) as [Hin | Hout].
  - by apply Hrd.
  - apply rd_outside. lia.
Qed.

Lemma slot_outside (topology : hwloc_topology) (type : hwloc_obj_type_t) :
  length (os_distances topology) <= type -> slot topology type = no_distances.
Proof. intros H. unfold slot. by apply rd_outside. Qed.

Lemma length_convert (topology : hwloc_topology) :
  length (os_distances (hwloc_convert_distances_indexes_into_objects topology))
  = length (os_distances topology).
Proof. apply length_for_range_alter. Qed.

Lemma length_clear (topology : hwloc_topology) :
  length (os_distances (hwloc_topology_distances_clear topology))
  = length (os_distances topology).
Proof.
  apply (length_for_range_alter
           (fun _ s => {| nbobjs := nbobjs s; indexes := indexes s;
                          distances := distances s; objs := None |})).
Qed.

Lemma length_destroy (topology : hwloc_topology) :
  length (os_distances (hwloc_topology_distances_destroy topology))
  = length (os_distances topology).
Proof.
  apply (length_for_range_alter
           (fun _ s => {| nbobjs := nbobjs s; indexes := None;
                          distances := None; objs := None |})).
Qed.

(** Two topologies with the same tree and the same slots are equal. *)
Lemma topology_ext (a b : hwloc_topology) :
  levels a = levels b ->
  length (os_distances a) = length (os_distances b) ->
  (forall type, type < length (os_distances a) -> slot a type = slot b type) ->
  a = b.
Proof.
  destruct a as [la oa], b as [lb ob]. simpl. intros -> Hlen Hslot.
  f_equal. by apply (rd_ext no_distances).
Qed.

(** X2. [hwloc_topology_distances_clear] keeps, for every type, the
    count, the indexes and the distances that were set and drops the
    resolved objects; the tree is untouched. Resolving again gives, for
    every type that has indexes, the slot that resolving gave before the
    reload. *)
Theorem distances_clear_drops_objects_only (topology : hwloc_topology) :
  let topology' := hwloc_topology_distances_clear topology in
  levels topology' = levels topology
  /\ length (os_distances topology') = length (os_distances topology)
  /\ (forall type,
        nbobjs (slot topology' type) = nbobjs (slot topology type)
        /\ indexes (slot topology' type) = indexes (slot topology type)
        /\ distances (slot topology' type) = distances (slot topology type)
        /\ objs (slot topology' type) = None)
  /\ (forall type,
        is_Some (indexes (slot topology type)) ->
        slot (hwloc_convert_distances_indexes_into_objects topology') type
        = slot (hwloc_convert_distances_indexes_into_objects topology) type).
Proof.
  simpl. split; [done |]. split; [apply length_clear |].
  assert (forall type,
            nbobjs (slot (hwloc_topology_distances_clear topology) type)
            = nbobjs (slot topology type)
            /\ indexes (slot (hwloc_topology_distances_clear topology) type)
               = indexes (slot topology type)
            /\ distances (slot (hwloc_topology_distances_clear topology) type)
               = distances (slot topology type)
            /\ objs (slot (hwloc_topology_distances_clear topology) type) = None) as Hkept.
  { intros type.
    destruct (decide (type < length (os_distances topology))) as [Hin | Hout].
    - by rewrite distances_clear_slot.
    - rewrite !slot_outside by (rewrite ?length_clear; lia). done. }
  split; [exact Hkept |].
  intros type [idx Hidx].
  destruct (decide (type < length (os_distances topology))) as [Hin | Hout].
  - rewrite !convert_slot by (rewrite ?length_clear; done).
    destruct (Hkept type) as (Hn & Hi & Hd & _).
    unfold convert_type. rewrite Hi, Hn, Hd, Hidx. done.
  - rewrite slot_outside in Hidx by lia. done.
Qed.

(** X3. [hwloc_topology_distances_destroy] leaves every type without
    indexes, distances and objects, and with the count it had; nothing is
    left to resolve, so that
    [hwloc_convert_distances_indexes_into_objects] changes nothing after
    it. *)
Theorem distances_destroy_drops_arrays (topology : hwloc_topology) :
  let topology' := hwloc_topology_distances_destroy topology in
  levels topology' = levels topology
  /\ length (os_distances topology') = length (os_distances topology)
  /\ (forall type,
        nbobjs (slot topology' type) = nbobjs (slot topology type)
        /\ indexes (slot topology' type) = None
        /\ distances (slot topology' type) = None
        /\ objs (slot topology' type) = None)
  /\ hwloc_convert_distances_indexes_into_objects topology' = topology'.
Proof.
  simpl. split; [done |]. split; [apply length_destroy |].
  assert (forall type,
            nbobjs (slot (hwloc_topology_distances_destroy topology) type)
            = nbobjs (slot topology type)
            /\ indexes (slot (hwloc_topology_distances_destroy topology) type) = None
            /\ distances (slot (hwloc_topology_distances_destroy topology) type) = None
            /\ objs (slot (hwloc_topology_distances_destroy topology) type) = None) as Hgone.
  { intros type.
    destruct (decide (type < length (os_distances topology))) as [Hin | Hout].
    - by rewrite distances_destroy_slot.
    - rewrite !slot_outside by (rewrite ?length_destroy; lia). done. }
  split; [exact Hgone |].
  apply topology_ext; [done | apply length_convert |].
  intros type Htype. rewrite length_convert in Htype.
  rewrite convert_slot by done.
  destruct (Hgone type) as (_ & Hi & _). unfold convert_type. by rewrite Hi.
Qed.

(** ** Setting distances through the interface *)

Lemma copy_cells_agree {A : Type} (d : A) (n : nat) (a b : list A) :
  (forall i, i < n -> rd d a i = rd d b i) -> copy_cells d n a = copy_cells d n b.
Proof.
  intros H. unfold copy_cells. apply map_ext_in. intros i Hi.
  apply in_seq in Hi. apply H. lia.
Qed.

Lemma length_copy_cells {A : Type} (d : A) (n : nat) (a : list A) :
  length (copy_cells d n a) = n.
Proof. unfold copy_cells. by rewrite length_map, length_seq. Qed.

(** X4. [hwloc_topology_set_distance_matrix] works on copies of the
    [nbobjs] first indexes and of the [nbobjs * nbobjs] first distances,
    the product being the one the function computes on [unsigned]
    ([matrix_cells], which is the product when it fits and is smaller
    otherwise): two calls whose arrays agree on these cells give the same
    result. When two of the indexes are equal it returns [-1] with
    [EINVAL] and the topology is as it was; otherwise it returns [0], and
    the slot of the type holds the count and two arrays of [nbobjs] and
    [matrix_cells nbobjs] cells with the content of the input, the
    resolved objects of the slot, the other slots and the tree being as
    they were. *)
Theorem set_distance_matrix_copies_input (topology : hwloc_topology)
    (type : hwloc_obj_type_t) (n : nat) (idx : list N) (dist : list float) :
  let r := hwloc_topology_set_distance_matrix topology type n idx dist in
  (forall idx2 dist2,
     (forall i, i < n -> rd 0%N idx2 i = rd 0%N idx i) ->
     (forall k, k < matrix_cells n -> rd F32.zero dist2 k = rd F32.zero dist k) ->
     hwloc_topology_set_distance_matrix topology type n idx2 dist2 = r)
  /\ ((exists i j, i < j < n /\ rd 0%N idx i = rd 0%N idx j) ->
      ret r = (-1)%Z /\ errno r = Some EINVAL /\ topo r = topology)
  /\ ((forall i j, i < j < n -> rd 0%N idx i <> rd 0%N idx j) ->
      ret r = 0%Z /\ errno r = None /\ levels (topo r) = levels topology
      /\ (forall other, other <> type -> slot (topo r) other = slot topology other)
      /\ (type < length (os_distances topology) ->
          exists idx' dist',
            slot (topo r) type
            = {| nbobjs := n; indexes := Some idx'; distances := Some dist';
                 objs := objs (slot topology type) |}
            /\ length idx' = n /\ length dist' = matrix_cells n
            /\ (forall i, i < n -> rd 0%N idx' i = rd 0%N idx i)
            /\ (forall k, k < matrix_cells n -> rd F32.zero dist' k = rd F32.zero dist k))).
Proof.
  simpl. split; [| split].
  - intros idx2 dist2 Hidx Hdist. unfold hwloc_topology_set_distance_matrix.
    by rewrite (copy_cells_agree 0%N n idx2 idx),
      (copy_cells_agree F32.zero (matrix_cells n) dist2 dist).
  - intros (i & j & Hij & Heq).
    by rewrite (set_distance_matrix_copy_rejects topology type n idx dist i j).
  - intros Hdistinct. rewrite set_distance_matrix_copy_stored by done. simpl.
    split; [done |]. split; [done |]. split; [done |]. split.
    + intros other. apply slot_store_matrix_other.
    + intros Htype. eexists _, _. split; [by apply slot_store_matrix |].
      split; [apply length_copy_cells |]. split; [apply length_copy_cells |].
      split; intros; by apply rd_copy_cells.
Qed.

(** ** The search in the tree *)

(** X5. [hwloc_find_obj_by_type_and_os_index] returns an object of the
    tree that has the type and the OS index asked for, and returns [NULL]
    exactly when no object of the tree has them. *)
Theorem find_obj_finds_what_exists (root : hwloc_tree) (type : hwloc_obj_type_t)
    (os_idx : N) :
  (forall p,
     hwloc_find_obj_by_type_and_os_index root type os_idx = Some p ->
     exists o, deref root p = Some o /\ obj_type o = type /\ os_index o = os_idx)
  /\ (hwloc_find_obj_by_type_and_os_index root type os_idx = None
      <-> forall p o, deref root p = Some o ->
            ~ (obj_type o = type /\ os_index o = os_idx)).
Proof.
  split; [intros p; apply find_obj_sound |]. split.
  - intros Hnone p o Hp [Ht Hi].
    destruct (find_obj_complete root type os_idx p o Hp Ht Hi) as [q Hq]. congruence.
  - intros Hno.
    destruct (hwloc_find_obj_by_type_and_os_index root type os_idx) as [p|] eqn:E; [| done].
    apply find_obj_sound in E as (o & Hp & Ht & Hi). by destruct (Hno p o Hp).
Qed.

(** X6. When several objects have the type and the OS index asked for,
    the search returns the first of them in the walk that visits an
    object before its children and the children in order. *)
Theorem find_obj_returns_first_match (root : hwloc_tree) (type : hwloc_obj_type_t)
    (os_idx : N) (p q : hwloc_obj_t) (o : hwloc_obj) :
  hwloc_find_obj_by_type_and_os_index root type os_idx = Some p ->
  deref root q = Some o -> obj_type o = type -> os_index o = os_idx ->
  preorder_le p q.
Proof.
  revert p q. induction root as [o' children IH] using hwloc_tree_ind'.
  intros p q Hfind Hq Ht Hi. rewrite find_obj_unfold in Hfind.
  destruct (Nat.eqb (obj_type o') type && N.eqb (os_index o') os_idx) eqn:E.
  - injection Hfind as <-. done.
  - apply find_in_children_some in Hfind as (k & p' & c & -> & Hc & Hfind & Hbefore).
    destruct q as [|k' q']; unfold deref in Hq; simpl in Hq.
    + injection Hq as ->. subst. by rewrite Nat.eqb_refl, N.eqb_refl in E.
    + destruct (children !! k') as [c'|] eqn:Hc'; [| done]. simpl.
      destruct (decide (k' < k)) as [Hlt | Hge].
      * destruct (find_obj_complete c' type os_idx q' o Hq Ht Hi) as [r Hr].
        rewrite (Hbefore k' c' Hlt Hc') in Hr. done.
      * destruct (decide (k = k')) as [<- | Hne]; [| left; lia].
        right. split; [done |]. rewrite Hc in Hc'. injection Hc' as <-.
        rewrite Forall_forall in IH.
        apply (IH c); [by eapply list_elem_of_lookup_2 | done | done | done | done].
Qed.

Lemma find_obj_first_match_witness :
  hwloc_find_obj_by_type_and_os_index sample_tree_twins 3 7%N = Some [0; 0]
  /\ deref sample_tree_twins [1] = Some (sample_obj 3 7%N 12%N 1%N 1%N)
  /\ preorder_le [0; 0] [1].
Proof.
  split; [reflexivity |]. split; [reflexivity |].
  apply (find_obj_returns_first_match sample_tree_twins 3 7%N [0; 0] [1]
           (sample_obj 3 7%N 12%N 1%N 1%N)); reflexivity.
Defined.

(** ** Resolving, again *)

(** X7. Resolving twice is resolving once:
    [hwloc_convert_distances_indexes_into_objects] leaves the tree, the
    counts, the indexes and the distances as they are and computes the
    objects from them alone. *)
Theorem convert_indexes_idempotent (topology : hwloc_topology) :
  hwloc_convert_distances_indexes_into_objects
    (hwloc_convert_distances_indexes_into_objects topology)
  = hwloc_convert_distances_indexes_into_objects topology.
Proof.
  apply topology_ext; [done | apply length_convert |].
  intros type Htype. rewrite !length_convert in Htype.
  rewrite convert_slot by (by rewrite length_convert).
  rewrite convert_slot by done.
  change (levels (hwloc_convert_distances_indexes_into_objects topology))
    with (levels topology).
  unfold convert_type.
  destruct (indexes (slot topology type)) as [idx|] eqn:E; simpl; [done |].
  by rewrite E.
Qed.

(** X8. After distances are set for a type with
    [hwloc_topology_set_distance_matrix] and the indexes are resolved, the
    array of objects, when there is one, has a cell for each index, each
    cell points to an object of the tree with the type and that index,
    and no two cells point to the same object. *)
Theorem resolved_objects_are_distinct (topology : hwloc_topology)
    (type : hwloc_obj_type_t) (n : nat) (idx : list N) (dist : list float)
    (l : list hwloc_obj_t) :
  type < length (os_distances topology) ->
  let r := hwloc_topology_set_distance_matrix topology type n idx dist in
  ret r = 0%Z ->
  objs (slot (hwloc_convert_distances_indexes_into_objects (topo r)) type) = Some l ->
  length l = n
  /\ (forall i, i < n ->
        exists o, deref (levels topology) (rd [] l i) = Some o
          /\ obj_type o = type /\ os_index o = rd 0%N idx i)
  /\ (forall i j, i < n -> j < n -> rd [] l i = rd [] l j -> i = j).
Proof.
  intros Htype r Hret Hobjs. subst r.
  destruct (same_index_twice n (copy_cells 0%N n idx)) eqn:Hsame.
  { unfold hwloc_topology_set_distance_matrix, hwloc_topology__set_distance_matrix in Hret.
    rewrite Hsame in Hret. done. }
  assert (forall i j, i < j < n -> rd 0%N idx i <> rd 0%N idx j) as Hdistinct.
  { intros i j Hij. apply same_index_twice_false with (i := i) (j := j) in Hsame; [| done].
    by rewrite !rd_copy_cells in Hsame by lia. }
  rewrite set_distance_matrix_copy_stored in Hobjs by done. simpl in Hobjs.
  rewrite convert_slot in Hobjs by (simpl; by rewrite length_alter).
  rewrite slot_store_matrix in Hobjs by done.
  unfold convert_type in Hobjs. simpl in Hobjs.
  set (idx' := copy_cells 0%N n idx) in *.
  assert (forall k, k < n ->
            is_Some (hwloc_find_obj_by_type_and_os_index (levels topology) type
                       (rd 0%N idx' k))) as Hall.
  { intros k Hk.
    destruct (hwloc_find_obj_by_type_and_os_index (levels topology) type (rd 0%N idx' k))
      eqn:E; [done |].
    rewrite (resolve_from_none (levels topology) type idx' n 0 (replicate n [])) in Hobjs;
      [done |].
    exists k. split; [lia | done]. }
  destruct (resolve_from_some (levels topology) type idx' n 0 (replicate n []))
    as (l' & Hl' & Hlen & Hfound & _).
  { rewrite length_replicate. lia. }
  { intros k Hk. apply Hall. lia. }
  rewrite Hl' in Hobjs. injection Hobjs as ->. rewrite length_replicate in Hlen.
  assert (forall i, i < n ->
            exists o, deref (levels topology) (rd [] l i) = Some o
              /\ obj_type o = type /\ os_index o = rd 0%N idx i) as Hsound.
  { intros i Hi. rewrite <- (rd_copy_cells 0%N n idx i Hi).
    apply find_obj_sound. apply Hfound. lia. }
  split; [done |]. split; [exact Hsound |].
  intros i j Hi Hj Heq.
  destruct (Hsound i Hi) as (oi & Hoi & _ & Hidx_i).
  destruct (Hsound j Hj) as (oj & Hoj & _ & Hidx_j).
  rewrite Heq, Hoj in Hoi. injection Hoi as <-.
  destruct (Nat.lt_trichotomy i j) as [Hlt | [-> | Hgt]]; [| done |].
  - destruct (Hdistinct i j); [lia | congruence].
  - destruct (Hdistinct j i); [lia | congruence].
Qed.

Lemma resolved_objects_witness :
  objs (slot (hwloc_convert_distances_indexes_into_objects sample_with_distances) 2)
  = Some [[0]; [1]]
  /\ forall i j, i < 2 -> j < 2 -> rd [] [[0]; [1]] i = rd [] [[0]; [1]] j -> i = j.
Proof.
  split; [reflexivity |].
  apply (resolved_objects_are_distinct sample_topology 2 2 [0; 1]%N
           (map F32.of_Z [1; 5; 5; 2]%Z) [[0]; [1]]).
  - vm_compute. lia.
  - reflexivity.
  - reflexivity.
Defined.

(** ** Distances from the environment, again *)

Lemma advance_advance (a b : nat) (p : string) :
  advance a (advance b p) = advance (b + a) p.
Proof.
  revert p. induction b as [|b IH]; intros p; simpl; [done |].
  destruct p as [|c p]; [by destruct a | apply IH].
Qed.

Lemma char_is_advance (k j : nat) (p : string) (c : ascii) :
  char_is (advance k p) j c = char_is p (k + j) c.
Proof.
  unfold char_is, char_at. revert p. induction k as [|k IH]; intros p; simpl; [done |].
  destruct p as [|c' p]; simpl; [by destruct j | apply IH].
Qed.

(** The counting loop stops somewhere in the text. *)
Lemma count_indexes_suffix (budget : nat) (tmp tmp' : string) (n n' : nat) :
  count_indexes budget tmp n = Done (tmp', n') -> exists k, tmp' = advance k tmp.
Proof.
  revert tmp n. induction budget as [|budget IH]; intros tmp n; simpl; [done |].
  destruct (negb _).
  - intros [= <- _]. by eexists.
  - intros H. apply IH in H as [k ->]. rewrite advance_advance. by eexists.
Qed.

(** X9. A text without a colon is ignored: the topology is as it was. *)
Theorem distances_text_without_colon_ignored (strtof : string -> float * string)
    (topology : hwloc_topology) (type : hwloc_obj_type_t) (s : string) :
  (forall k, char_is s k ":" = false) ->
  hwloc_get_type_distances_from_string strtof topology type s = Done topology.
Proof.
  intros Hcolon. unfold hwloc_get_type_distances_from_string.
  destruct (count_indexes_total (S (String.length s)) s 0) as (tmp & n & Hcount & _); [lia |].
  rewrite Hcount. simpl.
  apply count_indexes_suffix in Hcount as [k ->].
  by rewrite char_is_advance, Hcolon.
Qed.

Lemma distances_text_without_colon_witness :
  hwloc_get_type_distances_from_string strtof_nothing sample_topology 2 "0,1,2,3"
  = Done sample_topology.
Proof.
  apply distances_text_without_colon_ignored.
  intros k. do 8 (destruct k as [|k]; [reflexivity |]). reflexivity.
Defined.

(** What the parser does to a topology depends on the text alone: it
    stores outside the block of the matrix, or it leaves the topology as
    it is, or it stores a count and two arrays for the type. *)
Lemma distances_from_string_shape (strtof : string -> float * string) (s : string) :
  (forall topology type,
     hwloc_get_type_distances_from_string strtof topology type s = Fault)
  \/ exists r : option (nat * list N * list float),
       forall topology type,
         hwloc_get_type_distances_from_string strtof topology type s
         = Done match r with
                | None => topology
                | Some (n, idx, dist) => store_matrix topology type n idx dist
                end.
Proof.
  unfold hwloc_get_type_distances_from_string.
  destruct (count_indexes_total (S (String.length s)) s 0) as (tmp & n & -> & _); [lia |].
  simpl. destruct (negb _); [right; by exists None |].
  destruct (parse_indexes n s) as [idx body].
  assert (forall dist,
            exists r : option (nat * list N * list float),
              forall topology type,
                topo (hwloc_topology__set_distance_matrix topology type n idx dist)
                = match r with
                  | None => topology
                  | Some (n, idx, dist) => store_matrix topology type n idx dist
                  end) as Hset.
  { intros dist. unfold hwloc_topology__set_distance_matrix.
    destruct (same_index_twice n idx); [by exists None | by exists (Some (n, idx, dist))]. }
  destruct (sscanf_u_u_u body) as [|x [|y rest]].
  - right. destruct (parse_distances _ _ _ _ _ _) as [dist|]; [| by exists None].
    destruct (Hset dist) as [r Hr]. exists r. intros. by rewrite Hr.
  - right. destruct (parse_distances _ _ _ _ _ _) as [dist|]; [| by exists None].
    destruct (Hset dist) as [r Hr]. exists r. intros. by rewrite Hr.
  - destruct (negb _); [right; by exists None |].
    destruct (grouping_matrix n y _ _) as [dist | |] eqn:E; simpl.
    + right. destruct (Hset dist) as [r Hr]. exists r. intros. by rewrite Hr.
    + by left.
    + by apply grouping_matrix_ends in E.
Qed.

(** A text whose indexes hold the same value twice is never stored,
    whatever follows the indexes: it is ignored, unless it is a grouping
    shorthand for so many indexes that the matrix generated for it
    overflows its block. *)
Lemma distances_text_scanned_duplicate (strtof : string -> float * string)
    (topology : hwloc_topology) (type : hwloc_obj_type_t) (s tmp body : string)
    (n : nat) (idx : list N) :
  count_indexes (S (String.length s)) s 0 = Done (tmp, n) ->
  parse_indexes n s = (idx, body) ->
  (exists i j, i < j < n /\ rd 0%N idx i = rd 0%N idx j) ->
  let run := hwloc_get_type_distances_from_string strtof topology type s in
  (run = Done topology \/ run = Fault) /\ (matrix_fits n -> run = Done topology).
Proof.
  intros Hcount Hparse Hdup. unfold hwloc_get_type_distances_from_string.
  rewrite Hcount. simpl. destruct (negb _); [by split; [left |] |]. rewrite Hparse.
  destruct (sscanf_u_u_u body) as [|x [|y rest]].
  - destruct (parse_distances _ _ _ _ _ _); [| by split; [left |]].
    rewrite set_distance_matrix_rejected by done. by split; [left |].
  - destruct (parse_distances _ _ _ _ _ _); [| by split; [left |]].
    rewrite set_distance_matrix_rejected by done. by split; [left |].
  - destruct (negb _); [by split; [left |] |]. split.
    + destruct (grouping_matrix n y _ _) as [dist | |] eqn:E; simpl.
      * rewrite set_distance_matrix_rejected by done. by left.
      * by right.
      * by apply grouping_matrix_ends in E.
    + intros Hfits. rewrite (matrix_cells_fits n Hfits).
      destruct (grouping_matrix_cells n y match rest with z :: _ => z | [] => 1%N end
                  (replicate (n * n) F32.zero) Hfits) as (m & -> & _);
        [apply length_replicate |].
      simpl. by rewrite set_distance_matrix_rejected.
Qed.

(** X10. A text whose indexes (plain decimal numerals that fit an
    [unsigned]) hold the same value twice is never stored, whatever
    follows the colon: the parser returns with the topology as it was
    whenever the square of the number of indexes is an [unsigned]; beyond
    that, what it can do besides is to store outside the block of the
    matrix that it generates for a grouping shorthand, before it comes to
    check the indexes. *)
Theorem distances_text_duplicate_index_ignored (strtof : string -> float * string)
    (topology : hwloc_topology) (type : hwloc_obj_type_t)
    (idxs : list (list N)) (body : string) (i j : nat) :
  Forall (fun ds => is_numeral ds /\ plain ds /\ fits ds) idxs ->
  i < j < length idxs ->
  rd 0%N (map numeral_value idxs) i = rd 0%N (map numeral_value idxs) j ->
  let run := hwloc_get_type_distances_from_string strtof topology type
               (indexes_text idxs body) in
  (run = Done topology \/ run = Fault)
  /\ (matrix_fits (length idxs) -> run = Done topology).
Proof.
  intros Hidx Hij Heq.
  apply (distances_text_scanned_duplicate strtof topology type
           (indexes_text idxs body) (String ":" body) body (length idxs)
           (map numeral_value idxs)).
  - rewrite count_indexes_text; [done | | | lia].
    + destruct idxs; [simpl in Hij; lia | done].
    + eapply Forall_impl; [exact Hidx |]. by intros ds (? & _).
  - by apply parse_indexes_text.
  - by exists i, j.
Qed.

Lemma distances_text_duplicate_index_witness :
  indexes_text [[0]; [1]; [0]; [3]]%N "2*2" = "0,1,0,3:2*2"%string
  /\ hwloc_get_type_distances_from_string strtof_nothing sample_topology 2 "0,1,0,3:2*2"
     = Done sample_topology.
Proof.
  split; [reflexivity |].
  refine (proj2 (distances_text_duplicate_index_ignored strtof_nothing sample_topology 2
                   [[0]; [1]; [0]; [3]]%N "2*2" 0 2 _ _ _) _).
  - repeat (apply Forall_cons; split;
            [split; [split; [discriminate | repeat constructor] |
                     split; [(by left) || (right; eexists _, _; split; [reflexivity | discriminate])
                            | vm_compute; discriminate]] |]).
    apply Forall_nil_2.
  - simpl. lia.
  - reflexivity.
  - vm_compute. discriminate.
Defined.




(** *** A list of values after the colon *)









(** *** The loop over the types *)

(** A loop whose body can fault: it goes to its end, or faults where the
    body does. *)
Lemma for_range_o_cases {St : Type} (P : nat -> St -> Prop) (Q : nat -> Prop)
    (body : nat -> St -> outcome St) (count lo : nat) (s : St) :
  P lo s ->
  (forall i s, lo <= i < lo + count -> P i s ->
     (exists s', body i s = Done s' /\ P (S i) s') \/ (body i s = Fault /\ Q i)) ->
  (exists s', for_range_o body lo count s = Done s' /\ P (lo + count) s')
  \/ (for_range_o body lo count s = Fault /\ exists i, lo <= i < lo + count /\ Q i).
Proof.
  revert lo s. induction count as [|count IH]; intros lo s H0 Hstep; simpl.
  - left. exists s. by rewrite Nat.add_0_r.
  - destruct (Hstep lo s) as [(s1 & -> & H1) | [-> HQ]]; [lia | done | |].
    + simpl. replace (lo + S count) with (S lo + count) by lia.
      destruct (IH (S lo) s1) as [Hdone | (Hfault & i & Hi & HQ)]; [done | | by left |].
      * intros i s' Hi. apply Hstep. lia.
      * right. split; [done |]. exists i. split; [lia | done].
    + right. split; [done |]. exists lo. split; [lia | done].
Qed.

(** X14. [hwloc_store_distances_from_env] returns, and its result is,
    slot by slot, what the parser makes of the variable of each type
    alone: the slot of a type whose variable is not set is as it was, and
    the slot of a type whose variable is set is the slot that the parser
    yields for its text on the topology given; the tree is untouched. The
    one case where it does not return is that of a type whose text makes
    the parser store outside the block of the matrix, on the topology
    given already. *)
Theorem store_distances_from_env_by_type (strtof : string -> float * string)
    (type_string : hwloc_obj_type_t -> string) (getenv : string -> option string)
    (topology : hwloc_topology) :
  (exists topology',
     hwloc_store_distances_from_env strtof type_string getenv topology = Done topology'
     /\ levels topology' = levels topology
     /\ length (os_distances topology') = length (os_distances topology)
     /\ forall type, type < length (os_distances topology) ->
          match getenv (distances_envname type_string type) with
          | Some env =>
              exists t,
                hwloc_get_type_distances_from_string strtof topology type env = Done t
                /\ slot topology' type = slot t type
          | None => slot topology' type = slot topology type
          end)
  \/ (hwloc_store_distances_from_env strtof type_string getenv topology = Fault
      /\ exists type env,
           type < length (os_distances topology)
           /\ getenv (distances_envname type_string type) = Some env
           /\ hwloc_get_type_distances_from_string strtof topology type env = Fault).
Proof.
  pose (P := fun (k : nat) (t' : hwloc_topology) =>
               levels t' = levels topology
               /\ length (os_distances t') = length (os_distances topology)
               /\ (forall type, type < k ->
                     match getenv (distances_envname type_string type) with
                     | Some env =>
                         exists t,
                           hwloc_get_type_distances_from_string strtof topology type env
                           = Done t
                           /\ slot t' type = slot t type
                     | None => slot t' type = slot topology type
                     end)
               /\ (forall type, k <= type -> slot t' type = slot topology type)).
  pose (Q := fun (type : nat) =>
               exists env,
                 getenv (distances_envname type_string type) = Some env
                 /\ hwloc_get_type_distances_from_string strtof topology type env = Fault).
  destruct (for_range_o_cases P Q
              (fun type topology =>
                 match getenv (distances_envname type_string type) with
                 | Some env => hwloc_get_type_distances_from_string strtof topology type env
                 | None => Done topology
                 end)
              (length (os_distances topology)) 0 topology)
    as [(topology' & Hrun & Hlevels & Hlen & Hdone & _) | (Hrun & type & Htype & env & Henv & Hf)].
  - unfold P. split; [done |]. split; [done |]. split; [intros; lia | done].
  - unfold P, Q. intros i s Hi (Hlevels & Hlen & Hdone & Hrest).
    destruct (getenv (distances_envname type_string i)) as [env|] eqn:Henv.
    + destruct (distances_from_string_shape strtof env) as [Hfault | [r Hr]].
      { right. split; [apply Hfault |]. exists env. split; [done | apply Hfault]. }
      left. rewrite Hr. eexists. split; [done |].
      assert (i < length (os_distances s)) as Hin by lia.
      destruct r as [[[n idx] dist]|].
      * split; [done |]. split; [simpl; by rewrite length_alter |]. split.
        -- intros type Htype. destruct (decide (type = i)) as [-> | Hne].
           ++ rewrite Henv. eexists. split; [apply Hr |].
              rewrite !slot_store_matrix by lia. by rewrite Hrest.
           ++ specialize (Hdone type ltac:(lia)).
              destruct (getenv (distances_envname type_string type)).
              ** destruct Hdone as (t & Ht & Hslot). exists t. split; [done |].
                 by rewrite slot_store_matrix_other.
              ** by rewrite slot_store_matrix_other.
        -- intros type Htype. rewrite slot_store_matrix_other by lia. apply Hrest. lia.
      * split; [done |]. split; [done |]. split.
        -- intros type Htype. destruct (decide (type = i)) as [-> | Hne].
           ++ rewrite Henv. eexists. split; [apply Hr |]. by apply Hrest.
           ++ apply Hdone. lia.
        -- intros type Htype. apply Hrest. lia.
    + left. exists s. split; [done |]. split; [done |]. split; [done |]. split.
      * intros type Htype. destruct (decide (type = i)) as [-> | Hne].
        -- rewrite Henv. by apply Hrest.
        -- apply Hdone. lia.
      * intros type Htype. apply Hrest. lia.
  - left. exists topology'. split; [exact Hrun |]. split; [done |]. split; [done |].
    intros type Htype. apply Hdone. lia.
  - right. split; [exact Hrun |]. exists type, env. split; [lia |]. done.
Qed.

(** ** Loops that return *)

(** ** Logically ordered latency matrices, again *)

Lemma deref_update_obj_ne (f : hwloc_obj -> hwloc_obj) (t : hwloc_tree)
    (p q : hwloc_obj_t) :
  q <> p -> deref (update_obj f t p) q = deref t q.
Proof.
  unfold deref. revert t q. induction p as [|k p IH]; intros t q Hne.
  - destruct q as [|k' q]; [done |]. by destruct t.
  - simpl. destruct (tree_children t !! k) as [c|] eqn:Hc; [| done].
    destruct q as [|k' q]; [done |]. simpl.
    destruct (decide (k' = k)) as [-> | Hk].
    + rewrite list_lookup_insert_eq by (by eapply lookup_lt_Some). rewrite Hc.
      apply IH. congruence.
    + by rewrite list_lookup_insert_ne.
Qed.

(** The two ways in which the function returns. *)
Lemma normalizer_result (cover : hwloc_topology -> hwloc_cpuset_t -> option hwloc_obj_t)
    (topology topology' : hwloc_topology) (n : nat) (objs : list hwloc_obj)
    (os : list float) :
  hwloc_setup_distances_from_os_matrix cover topology n objs os = Done topology' ->
  topology' = topology
  \/ exists root root_obj record,
       cover topology (union_cpusets n objs) = Some root
       /\ deref (levels topology) root = Some root_obj
       /\ cpuset root_obj = union_cpusets n objs
       /\ F32.is_zero (scan_min_max n os).1 = false
       /\ topology'
          = set_levels topology
              (update_obj (add_distances record) (levels topology) root)
       /\ dist_nbobjs record = n
       /\ length (latency record) = matrix_cells n.
Proof.
  unfold hwloc_setup_distances_from_os_matrix.
  destruct (cover topology (union_cpusets n objs)) as [root|] eqn:Hcover; [| done].
  destruct (deref (levels topology) root) as [root_obj|] eqn:Hroot; [| done].
  destruct (hwloc_bitmap_isequal (union_cpusets n objs) (cpuset root_obj)) eqn:Hset;
    cbn [negb]; [| intros [= <-]; by left].
  destruct (scan_min_max n os) as [min max] eqn:Hscan.
  destruct (F32.is_zero min) eqn:Hzero; [intros [= <-]; by left |].
  destruct (fill_latency n objs os (min_logical_index n objs) min
              (replicate (matrix_cells n) None)) as [matrix| |] eqn:Hfill; [| done | done].
  simpl. intros [= <-]. right. eexists root, root_obj, _.
  split; [done |]. split; [done |].
  split; [symmetry; by apply N.eqb_eq |]. split; [done |]. split; [done |].
  simpl. split; [done |].
  assert (forall x v (m m' : list (option float)),
            length m = matrix_cells n -> store m x v = Done m' -> length m' = matrix_cells n) as Hstore.
  { intros x v m m' Hlen. unfold store. destruct (_ <? _)%N; [| done].
    intros [= <-]. by rewrite length_insert. }
  apply (for_range_o_done_ind (fun _ m => length m = matrix_cells n)) in Hfill;
    [done | apply length_replicate |].
  intros i m m' Hi Hlen Hbody. cbv zeta in Hbody.
  destruct (store m _ _) as [m1| |] eqn:H1; [| done | done]. simpl in Hbody.
  apply Hstore in H1; [| done].
  apply (for_range_o_done_ind (fun _ m => length m = matrix_cells n)) in Hbody; [done | done |].
  intros j m2 m3 Hj Hlen2 Hbody2. cbv zeta in Hbody2.
  destruct (store m2 _ _) as [m4| |] eqn:H4; [| done | done]. simpl in Hbody2.
  apply Hstore in H4; [| done]. by apply Hstore in Hbody2.
Qed.

Lemma normalizer_keeps_store
    (cover : hwloc_topology -> hwloc_cpuset_t -> option hwloc_obj_t)
    (topology topology' : hwloc_topology) (n : nat) (objs : list hwloc_obj)
    (os : list float) :
  hwloc_setup_distances_from_os_matrix cover topology n objs os = Done topology' ->
  os_distances topology' = os_distances topology.
Proof.
  intros H. apply normalizer_result in H as [-> | (root & root_obj & record & H)]; [done |].
  destruct H as (_ & _ & _ & _ & -> & _). done.
Qed.

(** X15. When [hwloc_setup_distances_from_os_matrix] returns, the store
    of raw distances is as it was, and either the tree is as it was too,
    or one record, for [nbobjs] objects and with a matrix of
    [nbobjs * nbobjs] cells (the product that the function computes on
    [unsigned]), was appended to the distances of the object
    that covers the cpusets of the input objects exactly, every other
    object of the tree being as it was. *)
Theorem normalizer_touches_covering_object_only
    (cover : hwloc_topology -> hwloc_cpuset_t -> option hwloc_obj_t)
    (topology topology' : hwloc_topology) (n : nat) (objs : list hwloc_obj)
    (os : list float) :
  hwloc_setup_distances_from_os_matrix cover topology n objs os = Done topology' ->
  os_distances topology' = os_distances topology
  /\ (topology' = topology
      \/ exists root root_obj record,
           cover topology (union_cpusets n objs) = Some root
           /\ deref (levels topology) root = Some root_obj
           /\ cpuset root_obj = union_cpusets n objs
           /\ deref (levels topology') root = Some (add_distances record root_obj)
           /\ obj_distances (add_distances record root_obj)
              = obj_distances root_obj ++ [record]
           /\ dist_nbobjs record = n
           /\ length (latency record) = matrix_cells n
           /\ forall q, q <> root -> deref (levels topology') q = deref (levels topology) q).
Proof.
  intros Hrun. split; [by eapply normalizer_keeps_store |].
  apply normalizer_result in Hrun
    as [-> | (root & root_obj & record & Hcover & Hroot & Hset & _ & -> & Hn & Hlen)];
    [by left |].
  right. exists root, root_obj, record.
  split; [done |]. split; [done |]. split; [done |].
  split; [by apply deref_update_obj |]. split; [done |]. split; [done |]. split; [done |].
  intros q Hq. by apply deref_update_obj_ne.
Qed.

Lemma normalizer_touches_covering_object_witness :
  exists topology',
    hwloc_setup_distances_from_os_matrix cover_by_root sample_topology 2 sample_nodes
      matrix_unequal_diagonal
    = Done topology'
    /\ os_distances topology' = os_distances sample_topology
    /\ deref (levels topology') [0] = deref sample_tree [0]
    /\ deref (levels topology') [1] = deref sample_tree [1].
Proof.
  destruct (hwloc_setup_distances_from_os_matrix cover_by_root sample_topology 2
              sample_nodes matrix_unequal_diagonal) as [topology'| |] eqn:E.
  - exists topology'. split; [reflexivity |].
    destruct (normalizer_touches_covering_object_only cover_by_root sample_topology
                topology' 2 sample_nodes matrix_unequal_diagonal E) as [Hstore Hframe].
    split; [exact Hstore |].
    destruct Hframe as [-> | (root & root_obj & record & Hcover & _ & _ & _ & _ & _ & _ & Hq)].
    + split; reflexivity.
    + injection Hcover as <-. split; apply Hq; discriminate.
  - vm_compute in E. discriminate E.
  - vm_compute in E. discriminate E.
Defined.

(** A scan of cells that are all [FLT_MAX] or more, or not numbers,
    leaves the minimum at [FLT_MAX]. *)
Lemma scan_min_stays (n : nat) (m : list float) :
  (forall i j, i < n -> j < n -> F32.lt (ucell n m i j) F32.FLT_MAX = false) ->
  (scan_min_max n m).1 = F32.FLT_MAX.
Proof.
  intros Hall. unfold scan_min_max.
  apply (for_cells_ind (fun (_ : nat) (st : float * float) => st.1 = F32.FLT_MAX)); [done |].
  intros i j [min max] Hi Hj Hmin. simpl in *. subst min. by rewrite Hall.
Qed.

(** X17. In the record that [hwloc_setup_distances_from_os_matrix]
    attaches, [latency_base] is not a NaN and no raw cell is below it; it
    is a raw cell as soon as one raw cell is below [FLT_MAX], and
    [FLT_MAX] otherwise. [latency_max] is the quotient by [latency_base]
    of a number that no raw cell is above, which is a raw cell as soon as
    one raw cell is above [FLT_MIN]. The raw cells are those the function
    reads, [osmatrix[i * nbobjs + j]] for [i] and [j] below [nbobjs]; the
    record is attached when the cells written for the objects lie inside
    the block of the matrix. *)
Theorem latency_base_is_least_cell
    (cover : hwloc_topology -> hwloc_cpuset_t -> option hwloc_obj_t)
    (topology : hwloc_topology) (n : nat) (objs : list hwloc_obj) (os : list float)
    (root : hwloc_obj_t) (root_obj : hwloc_obj) :
  cover topology (union_cpusets n objs) = Some root ->
  deref (levels topology) root = Some root_obj ->
  cpuset root_obj = union_cpusets n objs ->
  F32.is_zero (scan_min_max n os).1 = false ->
  cells_inside n objs ->
  exists topology' record max,
    hwloc_setup_distances_from_os_matrix cover topology n objs os = Done topology'
    /\ deref (levels topology') root = Some (add_distances record root_obj)
    /\ F32.is_nan (latency_base record) = false
    /\ (forall i j, i < n -> j < n ->
          F32.lt (ucell n os i j) (latency_base record) = false)
    /\ ((exists i j, i < n /\ j < n /\ F32.lt (ucell n os i j) F32.FLT_MAX = true) ->
        exists i j, i < n /\ j < n /\ latency_base record = ucell n os i j)
    /\ ((forall i j, i < n -> j < n -> F32.lt (ucell n os i j) F32.FLT_MAX = false) ->
        latency_base record = F32.FLT_MAX)
    /\ latency_max record = F32.div max (latency_base record)
    /\ (forall i j, i < n -> j < n -> F32.lt max (ucell n os i j) = false)
    /\ ((exists i j, i < n /\ j < n /\ F32.lt F32.FLT_MIN (ucell n os i j) = true) ->
        exists i j, i < n /\ j < n /\ max = ucell n os i j).
Proof.
  intros Hcover Hroot Hset Hzero Hinside.
  destruct (normalize_done cover topology n objs os root root_obj)
    as (matrix & Hrun & _); [done | done | done | done | done |].
  pose proof (scan_min_max_spec n os) as Hscan.
  pose proof (scan_min_stays n os) as Hstays.
  destruct (scan_min_max n os) as [min max] eqn:Escan. simpl in *.
  destruct Hscan as (Hnan & Hlow & Hmin & Hhigh & Hmax).
  eexists _, _, max. split; [exact Hrun |]. simpl.
  split; [by apply deref_update_obj |]. split; [done |]. split; [done |].
  split; [| split; [done | split; [done | split; [done |]]]].
  - intros (i & j & Hi & Hj & Hlt). destruct Hmin as [-> | Hcell]; [| done].
    by rewrite Hlow in Hlt.
  - intros (i & j & Hi & Hj & Hlt). destruct Hmax as [-> | Hcell]; [| done].
    by rewrite Hhigh in Hlt.
Qed.

Lemma latency_base_witness :
  exists topology' record,
    hwloc_setup_distances_from_os_matrix cover_by_root sample_topology 2 sample_nodes
      matrix_unequal_diagonal
    = Done topology'
    /\ obj_distances (tree_obj (levels topology')) = [record]
    /\ (forall i j, i < 2 -> j < 2 ->
          F32.lt (ucell 2 matrix_unequal_diagonal i j) (latency_base record) = false).
Proof.
  destruct (latency_base_is_least_cell cover_by_root sample_topology 2 sample_nodes
              matrix_unequal_diagonal [] (tree_obj sample_tree))
    as (topology' & record & max & Hrun & Hroot & _ & Hlow & _);
    [reflexivity | reflexivity | reflexivity | reflexivity
    | exact (proj1 sample_nodes_well_placed) |].
  exists topology', record. split; [exact Hrun |].
  unfold deref in Hroot. simpl in Hroot. injection Hroot as Hroot. rewrite Hroot.
  split; [reflexivity | exact Hlow].
Defined.

(** ** The loop that normalises the matrices of all types *)

Lemma for_range_o_fixed {St : Type} (body : nat -> St -> outcome St) (count lo : nat)
    (s : St) :
  (forall i, lo <= i < lo + count -> body i s = Done s) ->
  for_range_o body lo count s = Done s.
Proof.
  revert lo. induction count as [|count IH]; intros lo H; simpl; [done |].
  rewrite H by lia. simpl. apply IH. intros i Hi. apply H. lia.
Qed.

Lemma for_range_o_split {St : Type} (body : nat -> St -> outcome St) (a b lo : nat)
    (s : St) :
  for_range_o body lo (a + b) s
  = obind (for_range_o body lo a s) (for_range_o body (lo + a) b).
Proof.
  revert lo s. induction a as [|a IH]; intros lo s; simpl.
  - by rewrite Nat.add_0_r.
  - destruct (body lo s) as [s1| |]; simpl; [| done | done].
    rewrite IH. by replace (S lo + a) with (lo + S a) by lia.
Qed.

Lemma gained_distances_refl (o : hwloc_obj) : gained_distances o o.
Proof. repeat split. exists []. by rewrite app_nil_r. Qed.

Lemma gained_distances_trans (a b c : hwloc_obj) :
  gained_distances a b -> gained_distances b c -> gained_distances a c.
Proof.
  intros (? & ? & ? & ? & ? & ? & l1 & Hl1) (? & ? & ? & ? & ? & ? & l2 & Hl2).
  repeat split; try congruence. exists (l1 ++ l2). by rewrite Hl2, Hl1, app_assoc.
Qed.

Lemma tree_gained_distances_refl (t : hwloc_tree) : tree_gained_distances t t.
Proof.
  intros q. destruct (deref t q); constructor. apply gained_distances_refl.
Qed.

Lemma tree_gained_distances_trans (a b c : hwloc_tree) :
  tree_gained_distances a b -> tree_gained_distances b c -> tree_gained_distances a c.
Proof.
  intros Hab Hbc q. specialize (Hab q). specialize (Hbc q).
  destruct Hab as [oa ob Hab|]; inversion Hbc; subst; constructor.
  by eapply gained_distances_trans.
Qed.

Lemma normalizer_gains_distances
    (cover : hwloc_topology -> hwloc_cpuset_t -> option hwloc_obj_t)
    (topology topology' : hwloc_topology) (n : nat) (objs : list hwloc_obj)
    (os : list float) :
  hwloc_setup_distances_from_os_matrix cover topology n objs os = Done topology' ->
  tree_gained_distances (levels topology) (levels topology').
Proof.
  intros H. apply normalizer_result in H as [-> | (root & root_obj & record & H)];
    [apply tree_gained_distances_refl |].
  destruct H as (_ & Hroot & _ & _ & -> & _). simpl. intros q.
  destruct (decide (q = root)) as [-> | Hne].
  - rewrite (deref_update_obj _ _ _ _ Hroot), Hroot. constructor.
    repeat split. by eexists.
  - rewrite deref_update_obj_ne by done.
    destruct (deref (levels topology) q); constructor. apply gained_distances_refl.
Qed.

Section FinalizeProperties.

Variable cover : hwloc_topology -> hwloc_cpuset_t -> option hwloc_obj_t.
Variable get_depth : hwloc_topology -> hwloc_obj_type_t -> Z.
Variables UNKNOWN MULTIPLE : Z.

Lemma finalize_type_result (type : hwloc_obj_type_t) (topology topology' : hwloc_topology) :
  finalize_type cover get_depth UNKNOWN MULTIPLE type topology = Done topology' ->
  os_distances topology' = os_distances topology
  /\ tree_gained_distances (levels topology) (levels topology').
Proof.
  unfold finalize_type.
  assert (os_distances topology = os_distances topology
          /\ tree_gained_distances (levels topology) (levels topology)) as Hsame
    by (split; [done | apply tree_gained_distances_refl]).
  destruct (Nat.eqb _ 0); [by intros [= <-] |].
  destruct (_ || _); [by intros [= <-] |].
  destruct (objs (slot topology type)) as [l|]; [| by intros [= <-]].
  destruct (distances (slot topology type)) as [d|]; [| done].
  intros H. split; [by eapply normalizer_keeps_store | by eapply normalizer_gains_distances].
Qed.

(** X18. [hwloc_finalize_logical_distances] does nothing for a type
    without objects in its count, without a depth of its own in the tree
    or without resolved objects: when every type is so, as after a
    reload or a destroy, it returns with the topology as it was. *)
Theorem finalize_needs_resolved_objects (topology : hwloc_topology) :
  (forall type, type < length (os_distances topology) ->
     nbobjs (slot topology type) = 0
     \/ get_depth topology type = UNKNOWN
     \/ get_depth topology type = MULTIPLE
     \/ objs (slot topology type) = None) ->
  hwloc_finalize_logical_distances cover get_depth UNKNOWN MULTIPLE topology
  = Done topology.
Proof.
  intros Hskip. unfold hwloc_finalize_logical_distances.
  apply for_range_o_fixed. intros type Htype. unfold finalize_type.
  destruct (Hskip type ltac:(lia)) as [-> | [-> | [-> | ->]]].
  - done.
  - destruct (Nat.eqb _ 0); [done |]. by rewrite Z.eqb_refl.
  - destruct (Nat.eqb _ 0); [done |]. by rewrite Z.eqb_refl, orb_true_r.
  - destruct (Nat.eqb _ 0); [done |]. by destruct (_ || _).
Qed.

(** X19. When [hwloc_finalize_logical_distances] returns, the store of
    raw distances is as it was, and the tree has the same objects at the
    same places, with the same type, indexes, cpuset and depth: objects
    only gained records of distances, after those they had. *)
Theorem finalize_only_appends_distances (topology topology' : hwloc_topology) :
  hwloc_finalize_logical_distances cover get_depth UNKNOWN MULTIPLE topology
  = Done topology' ->
  os_distances topology' = os_distances topology
  /\ tree_gained_distances (levels topology) (levels topology').
Proof.
  unfold hwloc_finalize_logical_distances. intros H.
  apply (for_range_o_done_ind
           (fun (_ : nat) (t : hwloc_topology) =>
              os_distances t = os_distances topology
              /\ tree_gained_distances (levels topology) (levels t))) in H; [done | |].
  - split; [done | apply tree_gained_distances_refl].
  - intros type s s1 Htype [Hstore Htree] Hstep.
    apply finalize_type_result in Hstep as [Hstore1 Htree1].
    split; [congruence | by eapply tree_gained_distances_trans].
Qed.

(** When one type only has objects in its count, the loop is the turn of
    that type. *)
Lemma finalize_single_type (topology : hwloc_topology) (type : hwloc_obj_type_t) :
  type < length (os_distances topology) ->
  (forall other, other <> type -> nbobjs (slot topology other) = 0) ->
  hwloc_finalize_logical_distances cover get_depth UNKNOWN MULTIPLE topology
  = finalize_type cover get_depth UNKNOWN MULTIPLE type topology.
Proof.
  intros Htype Hothers. unfold hwloc_finalize_logical_distances.
  assert (forall t other,
            os_distances t = os_distances topology -> other <> type ->
            finalize_type cover get_depth UNKNOWN MULTIPLE other t = Done t) as Hskip.
  { intros t other Hstore Hother. unfold finalize_type, slot. rewrite Hstore.
    fold (slot topology other). by rewrite Hothers. }
  replace (length (os_distances topology))
    with (type + (1 + (length (os_distances topology) - type - 1))) by lia.
  rewrite for_range_o_split.
  rewrite for_range_o_fixed by (intros i Hi; apply Hskip; [done | lia]).
  simpl.
  destruct (finalize_type cover get_depth UNKNOWN MULTIPLE type topology)
    as [t1| |] eqn:Hone; simpl; [| done | done].
  apply finalize_type_result in Hone as [Hstore _].
  apply for_range_o_fixed. intros i Hi. apply Hskip; [done | lia].
Qed.

End FinalizeProperties.

Lemma finalize_needs_resolved_objects_witness :
  hwloc_finalize_logical_distances cover_by_root depth_one (-1) (-2)
    (hwloc_topology_distances_clear
       (hwloc_convert_distances_indexes_into_objects sample_with_distances))
  = Done (hwloc_topology_distances_clear
            (hwloc_convert_distances_indexes_into_objects sample_with_distances)).
Proof.
  apply finalize_needs_resolved_objects.
  intros type Htype. right. right. right.
  rewrite length_clear in Htype. by rewrite distances_clear_slot.
Defined.

Lemma finalize_only_appends_distances_witness :
  exists topology',
    hwloc_finalize_logical_distances cover_by_root depth_one (-1) (-2)
      (hwloc_convert_distances_indexes_into_objects sample_with_distances)
    = Done topology'
    /\ os_distances topology'
       = os_distances (hwloc_convert_distances_indexes_into_objects sample_with_distances)
    /\ tree_gained_distances sample_tree (levels topology').
Proof.
  destruct (hwloc_finalize_logical_distances cover_by_root depth_one (-1) (-2)
              (hwloc_convert_distances_indexes_into_objects sample_with_distances))
    as [topology'| |] eqn:E.
  - exists topology'. split; [reflexivity |].
    exact (finalize_only_appends_distances cover_by_root depth_one (-1) (-2) _ _ E).
  - vm_compute in E. discriminate E.
  - vm_compute in E. discriminate E.
Defined.

(** X20. From the interface to the tree, when [n * n] is an [unsigned].
    On a topology in which no other type has distances, after
    [hwloc_topology_set_distance_matrix] has stored [n] distinct indexes,
    all found in the tree, with their matrix for a type that has a depth
    of its own, and [hwloc_convert_distances_indexes_into_objects] has
    resolved them, [hwloc_finalize_logical_distances] appends one record
    to the object that covers the objects found, provided this object
    covers no more than them, the least cell of the matrix is not zero
    and the cells written for the objects found are distinct and inside
    the block of the matrix. The record holds, at the cell written for
    the objects of indexes [i] and [j], the distance given for them
    divided by the least cell. *)
Theorem distances_pipeline_attaches_matrix
    (cover : hwloc_topology -> hwloc_cpuset_t -> option hwloc_obj_t)
    (get_depth : hwloc_topology -> hwloc_obj_type_t -> Z) (UNKNOWN MULTIPLE : Z)
    (topology : hwloc_topology) (type : hwloc_obj_type_t) (n : nat) (idx : list N)
    (dist : list float) (l : list hwloc_obj_t) (root : hwloc_obj_t) (root_obj : hwloc_obj) :
  let stored :=
    hwloc_convert_distances_indexes_into_objects
      (topo (hwloc_topology_set_distance_matrix topology type n idx dist)) in
  let raw := copy_cells F32.zero (matrix_cells n) dist in
  let found := pointed (levels topology) l in
  type < length (os_distances topology) ->
  (forall other, other <> type -> nbobjs (slot topology other) = 0) ->
  0 < n ->
  matrix_fits n ->
  (forall i j, i < j < n -> rd 0%N idx i <> rd 0%N idx j) ->
  length l = n ->
  (forall i, i < n ->
     hwloc_find_obj_by_type_and_os_index (levels topology) type (rd 0%N idx i)
     = Some (rd [] l i)) ->
  get_depth stored type <> UNKNOWN ->
  get_depth stored type <> MULTIPLE ->
  cover stored (union_cpusets n found) = Some root ->
  deref (levels topology) root = Some root_obj ->
  cpuset root_obj = union_cpusets n found ->
  F32.is_zero (scan_min_max n raw).1 = false ->
  well_placed n found ->
  exists topology' record,
    hwloc_finalize_logical_distances cover get_depth UNKNOWN MULTIPLE stored
    = Done topology'
    /\ os_distances topology' = os_distances stored
    /\ deref (levels topology') root = Some (add_distances record root_obj)
    /\ dist_nbobjs record = n
    /\ latency_base record = (scan_min_max n raw).1
    /\ forall i j, i < n -> j < n ->
         latency record !! latency_cell n found i j
         = Some (Some (F32.div (cell n dist i j) (latency_base record))).
Proof.
  intros stored raw found Htype Hothers Hn Hfits Hdistinct Hlen Hfound Hunknown Hmultiple
    Hcover Hroot Hset Hzero [Hinside Hrows].
  assert (stored
          = hwloc_convert_distances_indexes_into_objects
              (store_matrix topology type n (copy_cells 0%N n idx) raw)) as Hstored.
  { unfold stored. by rewrite set_distance_matrix_copy_stored. }
  assert (length (os_distances (store_matrix topology type n (copy_cells 0%N n idx) raw))
          = length (os_distances topology)) as Hlen1 by (simpl; by rewrite length_alter).
  assert (slot stored type
          = {| nbobjs := n; indexes := Some (copy_cells 0%N n idx); distances := Some raw;
               objs := Some l |}) as Hslot.
  { rewrite Hstored, convert_slot by (by rewrite Hlen1).
    rewrite slot_store_matrix by done. unfold convert_type. simpl. f_equal.
    destruct (resolve_from_some (levels topology) type (copy_cells 0%N n idx) n 0
                (replicate n [])) as (l' & -> & Hlen' & Hfound' & _).
    - rewrite length_replicate. lia.
    - intros k Hk. rewrite rd_copy_cells by lia. rewrite Hfound by lia. done.
    - f_equal. rewrite length_replicate in Hlen'. apply (rd_ext ([] : hwloc_obj_t) l' l); [exact (eq_trans Hlen' (eq_sym Hlen)) |].
      intros i Hi. specialize (Hfound' i ltac:(lia)).
      rewrite rd_copy_cells, Hfound in Hfound' by lia.
      injection Hfound' as Hsame. symmetry. exact Hsame. }
  assert (forall other, other <> type -> nbobjs (slot stored other) = 0) as Hothers'.
  { intros other Hother. rewrite Hstored.
    destruct (decide (other < length (os_distances topology))) as [Hin | Hout].
    - rewrite convert_slot by (by rewrite Hlen1).
      rewrite slot_store_matrix_other by done. unfold convert_type.
      destruct (indexes (slot topology other)); simpl; by apply Hothers.
    - rewrite slot_outside; [done |]. rewrite length_convert, Hlen1. lia. }
  assert (length (os_distances stored) = length (os_distances topology)) as Hlen2.
  { by rewrite Hstored, length_convert, Hlen1. }
  assert (levels stored = levels topology) as Hlevels by (by rewrite Hstored).
  clearbody stored.
  rewrite (finalize_single_type cover get_depth UNKNOWN MULTIPLE stored type)
    by (done || by rewrite Hlen2).
  unfold finalize_type. rewrite Hslot. simpl.
  assert (Nat.eqb n 0 = false) as -> by (apply Nat.eqb_neq; lia).
  assert (Z.eqb (get_depth stored type) UNKNOWN = false) as -> by (by apply Z.eqb_neq).
  assert (Z.eqb (get_depth stored type) MULTIPLE = false) as -> by (by apply Z.eqb_neq).
  simpl. rewrite Hlevels. fold found.
  destruct (normalize_done cover stored n found raw root root_obj)
    as (matrix & Hrun & Hmlen & Hcells); [done | by rewrite Hlevels | done | done | done |].
  specialize (Hcells Hrows).
  eexists _, _. split; [exact Hrun |]. split; [reflexivity |].
  split; [cbn [levels set_levels]; rewrite Hlevels; by apply deref_update_obj |].
  split; [reflexivity |]. split; [reflexivity |].
  intros i j Hi Hj. cbn [latency latency_base]. rewrite Hcells by done.
  rewrite ucell_fits by done. unfold cell, raw.
  rewrite rd_copy_cells; [done |]. rewrite matrix_cells_fits by done.
  by apply cell_index_lt.
Qed.

Lemma distances_pipeline_witness :
  exists topology' record,
    hwloc_finalize_logical_distances cover_by_root depth_one (-1) (-2)
      (hwloc_convert_distances_indexes_into_objects sample_with_distances)
    = Done topology'
    /\ obj_distances (tree_obj (levels topology')) = [record]
    /\ latency_base record = F32.of_Z 1
    /\ latency record !! latency_cell 2 sample_nodes 0 1
       = Some (Some (F32.div (F32.of_Z 5) (F32.of_Z 1))).
Proof.
  destruct (distances_pipeline_attaches_matrix cover_by_root depth_one (-1) (-2)
              sample_topology 2 2 [0; 1]%N (map F32.of_Z [1; 5; 5; 2]%Z) [[0]; [1]]
              [] (tree_obj sample_tree))
    as (topology' & record & Hrun & _ & Hroot & _ & Hbase & Hcells).
  - vm_compute. lia.
  - intros other Hother. unfold slot, rd. simpl.
    do 9 (destruct other as [|other]; [reflexivity |]). by destruct other.
  - lia.
  - vm_compute. discriminate.
  - intros i j Hij. assert (i = 0 /\ j = 1) as [-> ->] by lia. discriminate.
  - reflexivity.
  - intros i Hi. assert (i = 0 \/ i = 1) as [-> | ->] by lia; reflexivity.
  - discriminate.
  - discriminate.
  - reflexivity.
  - reflexivity.
  - reflexivity.
  - reflexivity.
  - exact sample_nodes_well_placed.
  - exists topology', record. split; [exact Hrun |].
    unfold deref in Hroot. simpl in Hroot. injection Hroot as Hroot. rewrite Hroot.
    split; [reflexivity |]. split; [rewrite Hbase; reflexivity |].
    pose proof (Hcells 0 1 ltac:(lia) ltac:(lia)) as Hcell. rewrite Hbase in Hcell.
    exact Hcell.
Defined.

(** ** Grouping: what a group is *)

(** The least distance between two objects is sought above the diagonal:
    no cell there is below what is found, which is one of these cells or
    [FLT_MAX]. *)
Lemma find_min_distance_spec (n : nat) (d : list float) :
  let min := find_min_distance n d in
  (forall i j, i < j < n -> F32.lt (cell n d i j) min = false)
  /\ (min = F32.FLT_MAX \/ exists i j, i < j < n /\ min = cell n d i j).
Proof.
  simpl. unfold find_min_distance.
  pose (P := fun (k : nat) (min : float) =>
               (forall i j, i < k -> i < j < n -> F32.lt (cell n d i j) min = false)
               /\ (min = F32.FLT_MAX \/ exists i j, i < j < n /\ min = cell n d i j)).
  assert (P (0 + n)
            (for_range
               (fun i =>
                  for_range
                    (fun j min_distance =>
                       if F32.lt (cell n d i j) min_distance
                       then cell n d i j else min_distance)
                    (i + 1) (n - (i + 1)))
               0 n F32.FLT_MAX)) as [Hlow Hmin].
  { apply (for_range_ind P); unfold P; clear P.
    - split; [intros; lia | by left].
    - intros i min Hi [Hlow Hmin].
      pose (Q := fun (l : nat) (m : float) =>
                   (forall i' j, i' < i -> i' < j < n -> F32.lt (cell n d i' j) m = false)
                   /\ (forall j, i < j < l -> F32.lt (cell n d i j) m = false)
                   /\ (m = F32.FLT_MAX \/ exists i j, i < j < n /\ m = cell n d i j)).
      assert (Q (i + 1 + (n - (i + 1)))
                (for_range
                   (fun j min_distance =>
                      if F32.lt (cell n d i j) min_distance
                      then cell n d i j else min_distance)
                   (i + 1) (n - (i + 1)) min)) as (Hrows & Hrow & Hcell).
      { apply (for_range_ind Q); unfold Q; clear Q.
        - split; [done |]. split; [intros; lia | done].
        - intros j m Hj (Hrows & Hrow & Hcell).
          destruct (F32.lt (cell n d i j) m) eqn:E.
          + split; [| split].
            * intros i' j' Hi' Hj'. specialize (Hrows i' j' Hi' Hj').
              destruct (F32.lt (cell n d i' j') (cell n d i j)) eqn:E'; [| done].
              by rewrite (flt_trans _ _ _ E' E) in Hrows.
            * intros j' Hj'. destruct (decide (j' = j)) as [-> | Hne]; [apply flt_irrefl |].
              specialize (Hrow j' ltac:(lia)).
              destruct (F32.lt (cell n d i j') (cell n d i j)) eqn:E'; [| done].
              by rewrite (flt_trans _ _ _ E' E) in Hrow.
            * right. exists i, j. split; [lia | done].
          + split; [done |]. split; [| done].
            intros j' Hj'. destruct (decide (j' = j)) as [-> | Hne]; [done |].
            apply Hrow. lia. }
      split; [| done].
      intros i' j Hi' Hj. destruct (decide (i' = i)) as [-> | Hne].
      + apply Hrow. lia.
      + apply Hrows; [lia | done]. }
  split; [| done]. intros i j Hij. apply Hlow; lia.
Qed.

Lemma joined_refl (id : nat) (g : list nat) : joined id g g.
Proof. intros k. by left. Qed.

Lemma joined_trans (id : nat) (a b c : list nat) :
  joined id a b -> joined id b c -> joined id a c.
Proof.
  intros Hab Hbc k. destruct (Hab k) as [Hb | [Ha Hb]], (Hbc k) as [Hc | [Hb' Hc]].
  - left. congruence.
  - right. split; congruence.
  - right. split; congruence.
  - right. split; congruence.
Qed.

Section Chains.

Variables (n : nat) (d : list float) (min : float) (id seed : nat).
Hypothesis Hid : id <> 0.

(** What a rescan keeps: the objects of group [id] are reached from
    [seed], and the array changed for group [id] only. *)
Let reached (g0 : list nat) (g : list nat) : Prop :=
  length g = n
  /\ (forall k, rd 0 g k = id -> min_chain n d min seed k)
  /\ joined id g0 g.

Lemma rescan_from_reached (ff : nat) (g0 g : list nat) (s : nat) :
  reached g0 g -> reached g0 (groupids (rescan_from n d min id ff g s)).
Proof.
  intros Hstart. unfold rescan_from.
  apply (for_range_ind (fun (_ : nat) (st : rescan) => reached g0 (groupids st)));
    [done |].
  intros j st Hj Hst.
  destruct (Nat.eqb (rd 0 (groupids st) j) id) eqn:Ej; [| done].
  apply Nat.eqb_eq in Ej.
  assert (min_chain n d min seed j) as Hchain by (destruct Hst as (_ & H & _); by apply H).
  apply (for_range_ind (fun (_ : nat) (st : rescan) => reached g0 (groupids st)));
    [done |].
  intros k st' Hk (Hlen & Hreach & Hjoin).
  destruct (Nat.eqb (rd 0 (groupids st') k) 0) eqn:Ek; simpl; [| done].
  destruct (F32.eq (cell n d j k) min) eqn:Elink; simpl; [| done].
  apply Nat.eqb_eq in Ek. unfold reached. rewrite length_insert.
  split; [done |]. split.
  - intros k' Hk'. destruct (decide (k' = k)) as [-> | Hne].
    + apply (chain_step n d min seed j k); [done | lia | lia | done].
    + rewrite rd_insert_ne in Hk' by done. by apply Hreach.
  - intros k'. destruct (decide (k' = k)) as [-> | Hne].
    + rewrite rd_insert_eq by lia. right. split; [| done].
      destruct (Hjoin k) as [Hsame | [Hzero Hnew]]; [congruence |]. done.
    + rewrite rd_insert_ne by done. apply Hjoin.
Qed.

Lemma grow_group_reached (budget ff : nat) (g0 g g' : list nat) (s s' : nat) :
  reached g0 g -> grow_group budget n d min id ff g s = Done (g', s') -> reached g0 g'.
Proof.
  revert ff g s. induction budget as [|budget IH]; intros ff g s Hstart; simpl; [done |].
  pose proof (rescan_from_reached ff g0 g s Hstart) as Hnext.
  destruct (newfirstfound (rescan_from n d min id ff g s)) as [found|].
  - by apply IH.
  - by intros [= <- _].
Qed.

End Chains.

Lemma build_group_chained (n : nat) (d : list float) (min : float) (i : nat)
    (st st' : list nat * nat) :
  i < n -> chained n d min st -> build_group n d min i st = Done st' ->
  chained n d min st'.
Proof.
  intros Hi. destruct st as [g id]. unfold chained at 1. cbn [fst snd].
  intros (Hlen & Hid & Hbelow & Hgroups). unfold build_group.
  destruct (Nat.eqb (rd 0 g i) 0) eqn:E; cbn [negb].
  2: { intros [= <-]. unfold chained. cbn [fst snd]. done. }
  apply Nat.eqb_eq in E.
  destruct (grow_group (S n) n d min id i (<[i := id]> g) 1) as [[g' s']| |] eqn:Hgrow;
    [| done | done].
  simpl.
  assert (id <> 0) as Hid0 by lia.
  destruct (grow_group_reached n d min id i Hid0 (S n) i (<[i := id]> g) (<[i := id]> g)
              g' 1 s') as (Hlen' & Hreach & Hjoin); [| done |].
  { split; [by rewrite length_insert |]. split; [| apply joined_refl].
    intros k Hk. destruct (decide (k = i)) as [-> | Hne]; [apply chain_here |].
    rewrite rd_insert_ne in Hk by done. specialize (Hbelow k). lia. }
  destruct (Nat.eqb s' 1) eqn:Es.
  - apply Nat.eqb_eq in Es. subst s'.
    destruct (grow_group_done (S n) n d min id i (<[i := id]> g) 1)
      as (g'' & s'' & Hgrow' & _ & _ & _ & _ & _ & Hsame).
    + done.
    + by rewrite length_insert.
    + pose proof (members_le_length 0 (<[i := id]> g)) as Hall.
      rewrite length_insert in Hall. unfold unassigned. lia.
    + rewrite Hgrow in Hgrow'. injection Hgrow' as <- <-.
      rewrite (Hsame eq_refl). rewrite insert_zero_back by (done || lia).
      intros [= <-]. unfold chained. cbn [fst snd]. done.
  - intros [= <-]. unfold chained. cbn [fst snd].
    assert (forall k, rd 0 g' k = rd 0 g k \/ rd 0 g' k = id) as Hcells.
    { intros k. destruct (Hjoin k) as [Hsame | [_ Hnew]]; [| by right].
      destruct (decide (k = i)) as [-> | Hne].
      - right. rewrite Hsame. apply rd_insert_eq. lia.
      - left. rewrite Hsame. by apply rd_insert_ne. }
    split; [done |]. split; [lia |]. split; [| intros id' Hid'].
    + intros k. destruct (Hcells k) as [-> | ->]; [specialize (Hbelow k) |]; lia.
    + destruct (decide (id' = id)) as [-> | Hne].
      * exists i. split; [done |]. split; [| done].
        destruct (Hjoin i) as [Hsame | [Hzero _]].
        -- rewrite Hsame. apply rd_insert_eq. lia.
        -- rewrite rd_insert_eq in Hzero by lia. lia.
      * destruct (Hgroups id' ltac:(lia)) as (seed & Hseed & Hmember & Hchain).
        exists seed. split; [done |]. split.
        -- destruct (Hjoin seed) as [Hsame | [Hzero _]].
           ++ rewrite Hsame. rewrite rd_insert_ne; [done |]. intros ->. lia.
           ++ destruct (decide (seed = i)) as [-> | Hsi]; [lia |].
              rewrite rd_insert_ne in Hzero by done. lia.
        -- intros k Hk. apply Hchain.
           destruct (Hcells k) as [Hsame | Hnew]; congruence.
Qed.

(** The clustering and what its result keeps. *)
Lemma groups_chained (n : nat) (d : list float) :
  exists c g,
    hwloc_setup_group_from_min_distance n d = Done (c, g)
    /\ length g = n /\ 2 * c <= n
    /\ (forall id, 1 <= id <= c -> 2 <= members id g)
    /\ (forall k, rd 0 g k <= c)
    /\ forall id, 1 <= id <= c ->
         exists seed, seed < n /\ rd 0 g seed = id
           /\ forall k, rd 0 g k = id -> min_chain n d (find_min_distance n d) seed k.
Proof.
  destruct (setup_group_from_min_distance_done n d) as (c & g & Hrun & Hlen & Hc & Htwo & _).
  exists c, g. split; [exact Hrun |]. split; [done |]. split; [done |]. split; [done |].
  revert Hrun. unfold hwloc_setup_group_from_min_distance.
  set (min := find_min_distance n d).
  destruct (F32.eq min F32.FLT_MAX).
  { intros [= <- <-]. split; [| intros; lia].
    intros k. unfold rd. destruct (decide (k < n)) as [Hk | Hk].
    - rewrite nth_lookup, lookup_replicate_2 by done. simpl. lia.
    - rewrite nth_overflow by (rewrite length_replicate; lia). lia. }
  destruct (for_range_o (build_group n d min) 0 n (replicate n 0, 1))
    as [[g' id']| |] eqn:Hloop; [| done | done].
  simpl. intros [= <- <-].
  apply (for_range_o_done_ind (fun _ => chained n d min)) in Hloop.
  - destruct Hloop as (_ & _ & Hbelow & Hgroups). cbn [fst snd] in Hbelow, Hgroups.
    split.
    + intros k. specialize (Hbelow k). lia.
    + intros id Hid. apply Hgroups. lia.
  - unfold chained. cbn [fst snd]. rewrite length_replicate.
    split; [done |]. split; [done |]. split; [| intros; lia].
    intros k. unfold rd. destruct (decide (k < n)) as [Hk | Hk].
    + rewrite nth_lookup, lookup_replicate_2 by done. simpl. lia.
    + rewrite nth_overflow by (rewrite length_replicate; lia). lia.
  - intros i st st' Hi Hst Hstep. apply (build_group_chained n d min i st); [lia | done | done].
Qed.

(** X21. The clustering returns, and each of its groups is made of
    objects linked by chains of minimal distances: the group has an
    object from which every object of the group is reached by links
    [(j, k)] whose distance [d[j][k]] equals the least distance, which is
    the least of the cells above the diagonal. *)
Theorem groups_are_chains_of_minimal_links (n : nat) (d : list float) :
  let min := find_min_distance n d in
  (forall i j, i < j < n -> F32.lt (cell n d i j) min = false)
  /\ (min = F32.FLT_MAX \/ exists i j, i < j < n /\ min = cell n d i j)
  /\ exists c g,
       hwloc_setup_group_from_min_distance n d = Done (c, g)
       /\ forall id, 1 <= id <= c ->
            exists seed, seed < n /\ rd 0 g seed = id
              /\ forall k, rd 0 g k = id -> min_chain n d min seed k.
Proof.
  intros min. destruct (find_min_distance_spec n d) as [Hlow Hmin].
  split; [exact Hlow |]. split; [exact Hmin |].
  destruct (groups_chained n d) as (c & g & Hrun & _ & _ & _ & _ & Hgroups).
  exists c, g. split; [exact Hrun | exact Hgroups].
Qed.

(** The converse does not hold: the rescan starts again from the first
    object it found, and an object found after it with a lower rank is
    never scanned. In [matrix_chain] object 2 is at the least distance
    from object 1, which is grouped with 0 and 3, and is left out. *)
Lemma chain_may_miss_linked_object :
  matrix_rejected 4 matrix_chain = false
  /\ find_min_distance 4 matrix_chain = F32.of_Z 1
  /\ cell 4 matrix_chain 1 2 = F32.of_Z 1
  /\ hwloc_setup_group_from_min_distance 4 matrix_chain = Done (1, [1; 1; 0; 1]).
Proof. repeat split. Qed.

(** ** Grouping: when nothing is grouped *)

Lemma find_min_distance_stays (n : nat) (d : list float) :
  (forall i j, i < j < n -> F32.lt (cell n d i j) F32.FLT_MAX = false) ->
  find_min_distance n d = F32.FLT_MAX.
Proof.
  intros Hall. unfold find_min_distance.
  apply (for_range_ind (fun (_ : nat) (m : float) => m = F32.FLT_MAX)); [done |].
  intros i m Hi ->.
  apply (for_range_ind (fun (_ : nat) (m : float) => m = F32.FLT_MAX)); [done |].
  intros j m Hj ->. rewrite Hall by lia. done.
Qed.

(** The recursion stops at once on two objects or fewer, and when the
    clustering finds no group. *)
Lemma setup_groups_rec_stops (G : hwloc_obj_type_t)
    (alloc : hwloc_obj_type_t -> Z -> hwloc_obj)
    (insert : hwloc_topology -> hwloc_obj -> hwloc_topology) (budget : nat)
    (topology : hwloc_topology) (n : nat) (objs : list hwloc_obj) (d : list float)
    (depth : Z) :
  n <= 2 \/ (exists g, hwloc_setup_group_from_min_distance n d = Done (0, g)) ->
  hwloc__setup_groups_from_distances G alloc insert budget topology n objs d depth
  = Done topology.
Proof.
  intros Hstop. destruct budget; simpl.
  all: destruct (n <=? 2) eqn:E2; [done |]; apply Nat.leb_gt in E2.
  all: destruct Hstop as [? | [g ->]]; [lia | done].
Qed.

(** X25. [hwloc_setup_groups_from_distances] leaves the topology as it
    is when [HWLOC_IGNORE_DISTANCES] is set, when there are two objects
    or fewer, when a cell above the diagonal differs from its mirror cell
    or is not above the diagonal cell of its row, and when no cell above
    the diagonal is below [FLT_MAX]. *)
Theorem grouping_leaves_topology_alone (G : hwloc_obj_type_t)
    (alloc : hwloc_obj_type_t -> Z -> hwloc_obj)
    (insert : hwloc_topology -> hwloc_obj -> hwloc_topology) (ignore : bool)
    (topology : hwloc_topology) (n : nat) (objs : list hwloc_obj) (d : list float) :
  ignore = true
  \/ n <= 2
  \/ (exists i j, i < j < n
        /\ (F32.eq (cell n d i j) (cell n d j i) = false
            \/ F32.le (cell n d i j) (cell n d i i) = true))
  \/ (forall i j, i < j < n -> F32.lt (cell n d i j) F32.FLT_MAX = false) ->
  hwloc_setup_groups_from_distances G alloc insert ignore topology n objs d
  = Done topology.
Proof.
  unfold hwloc_setup_groups_from_distances.
  intros [-> | [Hn | [Hbad | Hfar]]]; [done | | |].
  - destruct ignore; [done |]. destruct (matrix_rejected n d); [done |].
    apply setup_groups_rec_stops. by left.
  - destruct ignore; [done |].
    assert (matrix_rejected n d = true) as -> by (by apply matrix_rejected_true). done.
  - destruct ignore; [done |]. destruct (matrix_rejected n d); [done |].
    apply setup_groups_rec_stops. right. exists (replicate n 0).
    unfold hwloc_setup_group_from_min_distance.
    rewrite find_min_distance_stays by done. done.
Qed.

Lemma grouping_leaves_topology_alone_witness :
  hwloc_setup_groups_from_distances sample_group_type sample_alloc sample_insert false
    sample_topology 2 sample_nodes matrix_unequal_diagonal
  = Done sample_topology.
Proof.
  apply grouping_leaves_topology_alone. right. left. lia.
Defined.

(** ** Grouping: the Group objects *)

Lemma members_app (id : nat) (a b : list nat) :
  members id (a ++ b) = members id a + members id b.
Proof. induction a as [|x a IH]; simpl; [done |]. rewrite IH. lia. Qed.

Lemma rd_replicate {A : Type} (d x : A) (n i : nat) :
  i < n -> rd d (replicate n x) i = x.
Proof. intros Hi. apply rd_lookup. by apply lookup_replicate_2. Qed.

(** The loop over [j] that gathers group [id]: it counts the objects
    with this id and unites their cpusets. *)
Lemma gather_group (n : nat) (objs : list hwloc_obj) (g : list nat) (id size0 : nat) :
  length g = n ->
  let '(set, size) :=
    for_range
      (fun j '(set, groupsize) =>
         if Nat.eqb (rd 0 g j) id
         then (hwloc_bitmap_or set (cpuset (rd no_obj objs j)), S groupsize)
         else (set, groupsize))
      0 n (0%N, size0) in
  size = size0 + members id g
  /\ forall b, N.testbit set b = true
       <-> exists j, j < n /\ rd 0 g j = id
             /\ N.testbit (cpuset (rd no_obj objs j)) b = true.
Proof.
  intros Hlen.
  pose (P := fun (k : nat) (st : hwloc_cpuset_t * nat) =>
               st.2 = size0 + members id (take k g)
               /\ forall b, N.testbit st.1 b = true
                    <-> exists j, j < k /\ rd 0 g j = id
                          /\ N.testbit (cpuset (rd no_obj objs j)) b = true).
  assert (P (0 + n)
            (for_range
               (fun j '(set, groupsize) =>
                  if Nat.eqb (rd 0 g j) id
                  then (hwloc_bitmap_or set (cpuset (rd no_obj objs j)), S groupsize)
                  else (set, groupsize))
               0 n (0%N, size0))) as H.
  { apply (for_range_ind P); unfold P; clear P.
    - simpl. split; [lia |]. intros b. split; [done |].
      intros (j & Hj & _). lia.
    - intros k [set size] Hk [Hsize Hbits]. simpl in Hsize, Hbits.
      destruct (lookup_lt_is_Some_2 g k) as [x Hx]; [lia |].
      rewrite (take_S_r _ _ _ Hx), members_app. rewrite (rd_lookup 0 g k x Hx). simpl.
      destruct (Nat.eqb x id) eqn:E; simpl.
      + apply Nat.eqb_eq in E. split; [lia |]. intros b.
        unfold hwloc_bitmap_or. rewrite N.lor_spec, orb_true_iff, Hbits. split.
        * intros [(j & Hj & Hg & Hb) | Hb].
          -- exists j. split; [lia | done].
          -- exists k. split; [lia |]. split; [| done]. by rewrite (rd_lookup 0 g k x Hx).
        * intros (j & Hj & Hg & Hb). destruct (decide (j = k)) as [-> | Hne]; [by right |].
          left. exists j. split; [lia | done].
      + apply Nat.eqb_neq in E. split; [lia |]. intros b. rewrite Hbits. split.
        * intros (j & Hj & Hg & Hb). exists j. split; [lia | done].
        * intros (j & Hj & Hg & Hb). destruct (decide (j = k)) as [-> | Hne].
          -- rewrite (rd_lookup 0 g k x Hx) in Hg. done.
          -- exists j. split; [lia | done]. }
  destruct (for_range _ 0 n _) as [set size]. destruct H as [Hsize Hbits].
  simpl in Hsize, Hbits. rewrite take_ge in Hsize by lia. done.
Qed.

(** X22. The loop that creates the Group objects, for an array of
    group ids with a cell for each object, makes one object for each
    group [i + 1]: [groupsizes[i]] is the number of objects with this
    id, the cpuset of [groupobjs[i]] holds exactly the processing units
    of the cpusets of these objects, its depth attribute is the depth
    given, and the objects are handed to
    [hwloc_insert_object_by_cpuset] once each, in the order of the
    groups. *)
Theorem created_groups_hold_their_members (G : hwloc_obj_type_t)
    (alloc : hwloc_obj_type_t -> Z -> hwloc_obj)
    (insert : hwloc_topology -> hwloc_obj -> hwloc_topology)
    (topology : hwloc_topology) (n : nat) (objs : list hwloc_obj) (g : list nat)
    (c : nat) (depth : Z) :
  length g = n ->
  let created := create_groups G alloc insert topology n objs g c depth in
  length (groupobjs created) = c
  /\ length (groupsizes created) = c
  /\ g_topology created = fold_left insert (groupobjs created) topology
  /\ forall i, i < c ->
       rd 0 (groupsizes created) i = members (i + 1) g
       /\ group_depth (rd no_obj (groupobjs created) i) = depth
       /\ obj_type (rd no_obj (groupobjs created) i) = obj_type (alloc G (-1)%Z)
       /\ forall b,
            N.testbit (cpuset (rd no_obj (groupobjs created) i)) b = true
            <-> exists j, j < n /\ rd 0 g j = i + 1
                  /\ N.testbit (cpuset (rd no_obj objs j)) b = true.
Proof.
  intros Hlen. simpl. unfold create_groups.
  pose (spec := fun (st : grouping) (i : nat) =>
                  rd 0 (groupsizes st) i = members (i + 1) g
                  /\ group_depth (rd no_obj (groupobjs st) i) = depth
                  /\ obj_type (rd no_obj (groupobjs st) i) = obj_type (alloc G (-1)%Z)
                  /\ forall b,
                       N.testbit (cpuset (rd no_obj (groupobjs st) i)) b = true
                       <-> exists j, j < n /\ rd 0 g j = i + 1
                             /\ N.testbit (cpuset (rd no_obj objs j)) b = true).
  pose (P := fun (k : nat) (st : grouping) =>
               length (groupobjs st) = c
               /\ length (groupsizes st) = c
               /\ g_topology st = fold_left insert (take k (groupobjs st)) topology
               /\ (forall i, i < k -> spec st i)
               /\ (forall i, k <= i -> rd 0 (groupsizes st) i = 0)).
  match goal with
  | |- context [for_range ?body 0 c ?init] =>
      assert (P (0 + c) (for_range body 0 c init)) as H
  end.
  { apply (for_range_ind P); unfold P; clear P.
    - simpl. rewrite !length_replicate. split; [done |]. split; [done |].
      split; [done |]. split; [intros; lia |].
      intros i Hi. destruct (decide (i < c)) as [Hin | Hout].
      + by apply rd_replicate.
      + apply rd_outside. rewrite length_replicate. lia.
    - intros k st Hk (Hobjs & Hsizes & Htopo & Hdone & Hrest).
      pose proof (gather_group n objs g (k + 1) (rd 0 (groupsizes st) k) Hlen) as Hgather.
      match type of Hgather with
      | let '(_, _) := ?e in _ => destruct e as [set size]
      end.
      destruct Hgather as [Hsize Hbits]. rewrite Hrest in Hsize by lia.
      simpl. rewrite !length_insert.
      split; [done |]. split; [done |]. split; [| split].
      + rewrite (take_S_r _ _ (new_group G alloc set depth))
          by (apply list_lookup_insert_eq; lia).
        rewrite take_insert_ge by lia. rewrite fold_left_app. simpl. by rewrite Htopo.
      + intros i Hi. unfold spec. simpl.
        destruct (decide (i = k)) as [-> | Hne].
        * rewrite !rd_insert_eq by lia. done.
        * rewrite !rd_insert_ne by done. apply Hdone. lia.
      + intros i Hi. rewrite rd_insert_ne by lia. apply Hrest. lia. }
  destruct H as (Hobjs & Hsizes & Htopo & Hdone & _).
  rewrite take_ge in Htopo by lia.
  split; [done |]. split; [done |]. split; [done |].
  intros i Hi. apply Hdone. lia.
Qed.

Lemma created_groups_witness :
  let created :=
    create_groups sample_group_type sample_alloc sample_insert sample_topology 4
      sample_units [1; 1; 2; 2] 2 0 in
  groupsizes created = [2; 2]
  /\ map cpuset (groupobjs created) = [3; 12]%N
  /\ rd 0 (groupsizes created) 0 = members 1 [1; 1; 2; 2].
Proof.
  simpl. split; [reflexivity |]. split; [reflexivity |].
  destruct (created_groups_hold_their_members sample_group_type sample_alloc sample_insert
              sample_topology 4 sample_units [1; 1; 2; 2] 2 0 eq_refl)
    as (_ & _ & _ & Hgroups).
  destruct (Hgroups 0) as [Hsize _]; [lia |]. exact Hsize.
Defined.

(** ** Grouping: the factorisation *)

Lemma group_index_below (id c : nat) :
  1 <= id <= c -> (group_index id < N.of_nat c)%N.
Proof.
  intros Hid. unfold group_index, usub, u32.
  change (1 mod 4294967296)%N with 1%N.
  pose proof (N.Div0.mod_le (N.of_nat id + 4294967296 - 1) 4294967296) as Hle.
  destruct (N.le_gt_cases 4294967296 (N.of_nat id)) as [Hbig | Hsmall].
  - pose proof (N.mod_upper_bound (N.of_nat id + 4294967296 - 1) 4294967296 ltac:(done)).
    lia.
  - replace (N.of_nat id + 4294967296 - 1)%N
      with (N.of_nat id - 1 + 1 * 4294967296)%N by lia.
    rewrite N.Div0.mod_add, N.mod_small by lia. lia.
Qed.

Lemma group_index_zero : group_index 0 = UINT_MAX.
Proof. reflexivity. Qed.

Lemma accumulate_length (c : nat) (gd gd' : list float) (a b : N) (x : float) :
  accumulate c gd a b x = Done gd' -> length gd' = length gd.
Proof.
  unfold accumulate. destruct (_ && _); [| done]. intros [= <-]. by rewrite length_insert.
Qed.

(** The factorisation does not go to its end when an object has no
    group. *)
Lemma factorize_needs_groups (n : nat) (d : list float) (g : list nat) (c : nat)
    (sizes : list nat) (gd : list float) :
  (exists i, i < n /\ rd 0 g i = 0) -> (N.of_nat c <= UINT_MAX)%N ->
  factorize n d g c sizes = Done gd -> False.
Proof.
  intros (i & Hi & Hzero) Hc E. unfold factorize in E.
  destruct (for_range_o _ 0 n (replicate (c * c) F32.zero)) as [gd'| |] eqn:Hloop;
    [| done | done].
  assert (forall i', i' < 0 + n -> rd 0 g i' <> 0) as Hnone; [| by apply (Hnone i)].
  revert Hloop.
  apply (for_range_o_done_ind (fun (k : nat) (_ : list float) =>
                                 forall i', i' < k -> rd 0 g i' <> 0)).
  - intros; lia.
  - intros k s s1 Hk Hbefore Hstep i' Hi'.
    destruct (decide (i' = k)) as [-> | Hne]; [| apply Hbefore; lia].
    intros Hk0. destruct n as [|n']; [lia |]. simpl in Hstep.
    rewrite Hk0, group_index_zero in Hstep. unfold accumulate in Hstep.
    assert ((UINT_MAX <? N.of_nat c)%N = false) as Hout by (apply N.ltb_ge; lia).
    rewrite Hout in Hstep. done.
Qed.

(** X23. The factorisation stays inside its [nbgroups]-by-[nbgroups]
    array, and returns an array of that size, when every object has a
    group id from 1 to [nbgroups]; it leaves the array, for the cell of
    index [-1] on [unsigned], as soon as one object has the id 0 of the
    objects without a group. *)
Theorem factorisation_needs_every_object_grouped (n : nat) (d : list float)
    (g : list nat) (c : nat) (sizes : list nat) :
  ((forall i, i < n -> 1 <= rd 0 g i <= c) ->
   exists gd, factorize n d g c sizes = Done gd /\ length gd = c * c)
  /\ ((exists i, i < n /\ rd 0 g i = 0) -> (N.of_nat c <= UINT_MAX)%N ->
      factorize n d g c sizes = Fault).
Proof.
  split.
  - intros Hall. unfold factorize.
    destruct (for_range_o_ind (fun (_ : nat) (gd : list float) => length gd = c * c)
                (fun i =>
                   for_range_o
                     (fun j groupdistances =>
                        accumulate c groupdistances
                          (group_index (rd 0 g i)) (group_index (rd 0 g j))
                          (cell n d i j))
                     0 n)
                n 0 (replicate (c * c) F32.zero)) as (gd & -> & Hlen).
    + apply length_replicate.
    + intros i gd Hi Hlen.
      apply (for_range_o_ind (fun (_ : nat) (gd : list float) => length gd = c * c));
        [done |].
      intros j gd' Hj Hlen'. unfold accumulate.
      pose proof (group_index_below (rd 0 g i) c ltac:(apply Hall; lia)) as Ha.
      pose proof (group_index_below (rd 0 g j) c ltac:(apply Hall; lia)) as Hb.
      apply N.ltb_lt in Ha, Hb. rewrite Ha, Hb. simpl.
      eexists. split; [done |]. by rewrite length_insert.
    + simpl. eexists. split; [done |].
      apply (for_range_ind (fun (_ : nat) (gd : list float) => length gd = c * c));
        [done |].
      intros i gd' Hi Hlen'.
      apply (for_range_ind (fun (_ : nat) (gd : list float) => length gd = c * c));
        [done |].
      intros j gd'' Hj Hlen''. by rewrite length_insert.
  - intros Hzero Hc.
    destruct (factorize n d g c sizes) as [gd| |] eqn:E;
      [| done | by apply factorize_not_exhausted in E].
    exfalso. by eapply factorize_needs_groups.
Qed.

(** ** The arrays of a slot go together *)

Lemma no_distances_consistent : slot_consistent no_distances.
Proof. split; [done |]. intros H. done. Qed.

Lemma store_consistent_slots (topology : hwloc_topology) :
  (forall type, type < length (os_distances topology) ->
     slot_consistent (slot topology type)) ->
  store_consistent topology.
Proof.
  intros H type. destruct (decide (type < length (os_distances topology))) as [Hin | Hout].
  - by apply H.
  - rewrite slot_outside by lia. apply no_distances_consistent.
Qed.

Lemma consistent_store_matrix (topology : hwloc_topology) (type : hwloc_obj_type_t)
    (n : nat) (idx : list N) (dist : list float) :
  store_consistent topology -> store_consistent (store_matrix topology type n idx dist).
Proof.
  intros Hc. apply store_consistent_slots. simpl. rewrite length_alter. intros other Hother.
  destruct (decide (other = type)) as [-> | Hne].
  - rewrite slot_store_matrix by done. split; simpl; [split; done | done].
  - rewrite slot_store_matrix_other by done. apply Hc.
Qed.

Lemma consistent_init (topology : hwloc_topology) :
  store_consistent (hwloc_topology_distances_init topology).
Proof.
  intros type.
  assert (slot (hwloc_topology_distances_init topology) type = no_distances) as ->;
    [| apply no_distances_consistent].
  unfold slot, hwloc_topology_distances_init. simpl.
  pose (P := fun (k : nat) (od : list hwloc_os_distances_s) =>
               length od = length (os_distances topology)
               /\ forall t, t < k -> rd no_distances od t = no_distances).
  assert (P (0 + length (os_distances topology))
            (for_range (fun i od => <[i := no_distances]> od)
               0 (length (os_distances topology)) (os_distances topology))) as [Hlen Hrd].
  { apply (for_range_ind P); unfold P.
    - split; [done |]. intros t Ht. lia.
    - intros i od Hi [Hlen Hrd]. split; [by rewrite length_insert |].
      intros t Ht. destruct (decide (t = i)) as [-> | Hne].
      + apply rd_insert_eq. lia.
      + rewrite rd_insert_ne by done. apply Hrd. lia. }
  destruct (decide (type < length (os_distances topology))) as [Hin | Hout].
  - by apply Hrd.
  - apply rd_outside. lia.
Qed.

Lemma consistent_destroy (topology : hwloc_topology) :
  store_consistent (hwloc_topology_distances_destroy topology).
Proof.
  apply store_consistent_slots. rewrite length_destroy. intros type Htype.
  rewrite distances_destroy_slot by done. split; simpl; done.
Qed.

Lemma consistent_clear (topology : hwloc_topology) :
  store_consistent topology -> store_consistent (hwloc_topology_distances_clear topology).
Proof.
  intros Hc. apply store_consistent_slots. rewrite length_clear. intros type Htype.
  rewrite distances_clear_slot by done. destruct (Hc type) as [Hboth _].
  split; simpl; done.
Qed.

Lemma consistent_convert (topology : hwloc_topology) :
  store_consistent topology ->
  store_consistent (hwloc_convert_distances_indexes_into_objects topology).
Proof.
  intros Hc. apply store_consistent_slots. rewrite length_convert. intros type Htype.
  rewrite convert_slot by done. destruct (Hc type) as [Hboth Hobjs].
  unfold convert_type. destruct (indexes (slot topology type)) as [idx|] eqn:E; [| done].
  split; simpl; [done |]. intros _ Hnone. by apply Hboth in Hnone.
Qed.

Lemma consistent_set (topology : hwloc_topology) (type : hwloc_obj_type_t) (n : nat)
    (idx : list N) (dist : list float) :
  store_consistent topology ->
  store_consistent (topo (hwloc_topology_set_distance_matrix topology type n idx dist)).
Proof.
  intros Hc. unfold hwloc_topology_set_distance_matrix, hwloc_topology__set_distance_matrix.
  destruct (same_index_twice _ _); simpl; [done | by apply consistent_store_matrix].
Qed.

Lemma consistent_from_string (strtof : string -> float * string)
    (topology topology' : hwloc_topology) (type : hwloc_obj_type_t) (s : string) :
  store_consistent topology ->
  hwloc_get_type_distances_from_string strtof topology type s = Done topology' ->
  store_consistent topology'.
Proof.
  intros Hc. destruct (distances_from_string_shape strtof s) as [Hfault | [r Hr]];
    [by rewrite Hfault |].
  rewrite Hr. intros [= <-]. destruct r as [[[n idx] dist]|]; [by apply consistent_store_matrix | done].
Qed.

(** X24. The store never holds indexes without distances, distances
    without indexes, or resolved objects without distances, which is
    what the loops over the types assert: it is so after
    [hwloc_topology_distances_init] and after
    [hwloc_topology_distances_destroy], and it stays so through
    [hwloc_topology_distances_clear],
    [hwloc_topology_set_distance_matrix], the parsing of a text and
    [hwloc_convert_distances_indexes_into_objects]. *)
Theorem store_stays_consistent (topology : hwloc_topology) :
  store_consistent (hwloc_topology_distances_init topology)
  /\ store_consistent (hwloc_topology_distances_destroy topology)
  /\ (store_consistent topology ->
      store_consistent (hwloc_topology_distances_clear topology)
      /\ store_consistent (hwloc_convert_distances_indexes_into_objects topology)
      /\ (forall type n idx dist,
            store_consistent
              (topo (hwloc_topology_set_distance_matrix topology type n idx dist)))
      /\ (forall strtof type s topology',
            hwloc_get_type_distances_from_string strtof topology type s = Done topology' ->
            store_consistent topology')).
Proof.
  split; [apply consistent_init |]. split; [apply consistent_destroy |].
  intros Hc. split; [by apply consistent_clear |]. split; [by apply consistent_convert |].
  split.
  - intros type n idx dist. by apply consistent_set.
  - intros strtof type s topology'. by apply consistent_from_string.
Qed.

(** ** The loop that groups the objects of all types *)

(** X26. On a store whose slots are consistent,
    [hwloc_group_by_distances] returns with the topology as it was when
    [HWLOC_IGNORE_DISTANCES] is set, and when every type has two objects
    or fewer or no resolved objects. *)
Theorem group_by_distances_leaves_topology_alone (G : hwloc_obj_type_t)
    (alloc : hwloc_obj_type_t -> Z -> hwloc_obj)
    (insert : hwloc_topology -> hwloc_obj -> hwloc_topology)
    (getenv : string -> option string) (topology : hwloc_topology) :
  store_consistent topology ->
  is_Some (getenv "HWLOC_IGNORE_DISTANCES"%string)
  \/ (forall type, type < length (os_distances topology) ->
        nbobjs (slot topology type) <= 2 \/ objs (slot topology type) = None) ->
  hwloc_group_by_distances G alloc insert getenv topology = Done topology.
Proof.
  intros Hc Hwhy. unfold hwloc_group_by_distances.
  apply for_range_o_fixed. intros type Htype. unfold group_type.
  destruct (Nat.eqb (nbobjs (slot topology type)) 0); [done |].
  destruct (Hc type) as [_ Hobjs].
  destruct (objs (slot topology type)) as [l|] eqn:El; [| done].
  destruct (distances (slot topology type)) as [dist|]; [| by destruct Hobjs].
  unfold hwloc_setup_groups_from_distances, ignore_distances_set.
  destruct Hwhy as [[env ->] | Hfew]; [done |].
  destruct (getenv "HWLOC_IGNORE_DISTANCES"%string); [done |].
  destruct (matrix_rejected _ _); [done |].
  apply setup_groups_rec_stops. left.
  destruct (Hfew type ltac:(lia)) as [Hn | Hnone]; [done | congruence].
Qed.

Lemma sample_topology_consistent : store_consistent sample_topology.
Proof.
  intros type. unfold slot, rd. simpl.
  do 9 (destruct type as [|type]; [apply no_distances_consistent |]).
  destruct type; apply no_distances_consistent.
Qed.

Lemma group_by_distances_witness :
  hwloc_group_by_distances sample_group_type sample_alloc sample_insert getenv_nothing
    (hwloc_convert_distances_indexes_into_objects sample_with_distances)
  = Done (hwloc_convert_distances_indexes_into_objects sample_with_distances).
Proof.
  apply group_by_distances_leaves_topology_alone.
  - apply consistent_convert. apply consistent_set. apply sample_topology_consistent.
  - right. intros type Htype. rewrite length_convert in Htype.
    change (type < 9) in Htype.
    do 9 (destruct type as [|type]; [vm_compute; (by left; lia) || (by right) |]).
    lia.
Defined.

(** ** Logically ordered latency matrices: the block and the cover *)

Lemma union_cpusets_bits (n : nat) (objs : list hwloc_obj) (b : N) :
  N.testbit (union_cpusets n objs) b = true
  <-> exists i, i < n /\ N.testbit (cpuset (rd no_obj objs i)) b = true.
Proof.
  unfold union_cpusets.
  pose (P := fun (k : nat) (set : hwloc_cpuset_t) =>
               N.testbit set b = true
               <-> exists i, i < k /\ N.testbit (cpuset (rd no_obj objs i)) b = true).
  apply (for_range_ind P); unfold P; clear P.
  - simpl. split; [done |]. intros (i & Hi & _). lia.
  - intros k set Hk Hset. unfold hwloc_bitmap_or.
    rewrite N.lor_spec, orb_true_iff, Hset. split.
    + intros [(i & Hi & Hb) | Hb]; [exists i | exists k]; (split; [lia | done]).
    + intros (i & Hi & Hb). destruct (decide (i = k)) as [-> | Hne]; [by right |].
      left. exists i. split; [lia | done].
Qed.

(** X28. A matrix for a part of the objects below the covering object
    is ignored: when the object found for the union of the cpusets has a
    processing unit that none of the input objects has,
    [hwloc_setup_distances_from_os_matrix] returns with the topology as
    it was. *)
Theorem partial_matrix_is_ignored
    (cover : hwloc_topology -> hwloc_cpuset_t -> option hwloc_obj_t)
    (topology : hwloc_topology) (n : nat) (objs : list hwloc_obj) (os : list float)
    (root : hwloc_obj_t) (root_obj : hwloc_obj) (b : N) :
  cover topology (union_cpusets n objs) = Some root ->
  deref (levels topology) root = Some root_obj ->
  N.testbit (cpuset root_obj) b = true ->
  (forall i, i < n -> N.testbit (cpuset (rd no_obj objs i)) b = false) ->
  hwloc_setup_distances_from_os_matrix cover topology n objs os = Done topology.
Proof.
  intros Hcover Hroot Hbit Hnone. unfold hwloc_setup_distances_from_os_matrix.
  rewrite Hcover, Hroot.
  assert (hwloc_bitmap_isequal (union_cpusets n objs) (cpuset root_obj) = false) as ->;
    [| done].
  apply N.eqb_neq. intros Heq. rewrite <- Heq in Hbit.
  apply union_cpusets_bits in Hbit as (i & Hi & Hb). by rewrite Hnone in Hb.
Qed.

Lemma partial_matrix_witness :
  hwloc_setup_distances_from_os_matrix cover_by_root sample_topology 1 sample_first_node
    [F32.of_Z 1]
  = Done sample_topology.
Proof.
  apply (partial_matrix_is_ignored cover_by_root sample_topology 1 sample_first_node
           [F32.of_Z 1] [] (tree_obj sample_tree) 2%N).
  - reflexivity.
  - reflexivity.
  - reflexivity.
  - intros i Hi. assert (i = 0) as -> by lia. reflexivity.
Defined.

Lemma store_done (matrix matrix' : list (option float)) (i : N) (x : float) :
  store matrix i x = Done matrix' ->
  (i < N.of_nat (length matrix))%N /\ length matrix' = length matrix.
Proof.
  unfold store. destruct (N.ltb_spec i (N.of_nat (length matrix))); [| done].
  intros [= <-]. by rewrite length_insert.
Qed.

Lemma fill_latency_inside (n : nat) (objs : list hwloc_obj) (os : list float)
    (min : float) (matrix : list (option float)) :
  fill_latency n objs os (min_logical_index n objs) min (replicate (matrix_cells n) None)
  = Done matrix ->
  cells_inside n objs.
Proof.
  unfold fill_latency. intros Hfill.
  assert (length matrix = matrix_cells n
          /\ forall a b, a < n -> b < n -> a < 0 + n \/ b < 0 + n ->
               latency_cell n objs a b < matrix_cells n) as [_ H];
    [| intros a b Ha Hb; apply H; [done | done | lia]].
  revert Hfill.
  apply (for_range_o_done_ind
           (fun (k : nat) (m : list (option float)) =>
              length m = matrix_cells n
              /\ forall a b, a < n -> b < n -> a < k \/ b < k ->
                   latency_cell n objs a b < matrix_cells n)).
  - split; [apply length_replicate | intros; lia].
  - intros k m m' Hk [Hlen Hin] Hbody. cbv zeta in Hbody.
    destruct (store m _ _) as [m1| |] eqn:H1; [| done | done]. simpl in Hbody.
    apply store_done in H1 as [Hkk Hlen1].
    assert (length m' = matrix_cells n
            /\ forall a b, a < n -> b < n ->
                 (a < k \/ b < k \/ (a = k /\ b = k)
                  \/ (a = k /\ k < b < k + 1 + (n - (k + 1)))
                  \/ (b = k /\ k < a < k + 1 + (n - (k + 1)))) ->
                 latency_cell n objs a b < matrix_cells n) as [Hlen' Hin'].
    { revert Hbody.
      apply (for_range_o_done_ind
               (fun (j : nat) (m : list (option float)) =>
                  length m = matrix_cells n
                  /\ forall a b, a < n -> b < n ->
                       (a < k \/ b < k \/ (a = k /\ b = k)
                        \/ (a = k /\ k < b < j) \/ (b = k /\ k < a < j)) ->
                       latency_cell n objs a b < matrix_cells n)).
      - split; [congruence |]. intros a b Ha Hb [? | [? | [[-> ->] | [? | ?]]]].
        + apply Hin; [done | done | by left].
        + apply Hin; [done | done | by right].
        + rewrite Hlen in Hkk. unfold latency_cell, logical_row. lia.
        + lia.
        + lia.
      - intros j m2 m3 Hj [Hlen2 Hin2] Hbody2. cbv zeta in Hbody2.
        destruct (store m2 _ _) as [m4| |] eqn:H4; [| done | done]. simpl in Hbody2.
        apply store_done in H4 as [Hkj H4]. apply store_done in Hbody2 as [Hjk H5].
        split; [congruence |].
        intros a b Ha Hb Hcase.
        destruct (decide (a = k /\ b = j)) as [[-> ->] | Hne1].
        { rewrite Hlen2 in Hkj. unfold latency_cell, logical_row. lia. }
        destruct (decide (a = j /\ b = k)) as [[-> ->] | Hne2].
        { rewrite H4, Hlen2 in Hjk. unfold latency_cell, logical_row. lia. }
        apply Hin2; [done | done |]. lia. }
    split; [done |]. intros a b Ha Hb Hcase. apply Hin'; [done | done |]. lia.
Qed.

(** X27. When the covering object is found, covers the input objects
    exactly and the least cell is not zero, the stores of
    [hwloc_setup_distances_from_os_matrix] stay inside the block of the
    matrix exactly when, for every two of the objects, the index
    [li * nbobjs + lj] that the function computes on [unsigned] is below
    the number of cells [nbobjs * nbobjs] that it computes on [unsigned];
    otherwise a store falls outside the block. The stores stay inside
    when [nbobjs * nbobjs] is an [unsigned] and the logical index of
    every object is less than [nbobjs] above the least of them. *)
Theorem normalizer_stays_in_matrix_iff
    (cover : hwloc_topology -> hwloc_cpuset_t -> option hwloc_obj_t)
    (topology : hwloc_topology) (n : nat) (objs : list hwloc_obj) (os : list float)
    (root : hwloc_obj_t) (root_obj : hwloc_obj) :
  cover topology (union_cpusets n objs) = Some root ->
  deref (levels topology) root = Some root_obj ->
  cpuset root_obj = union_cpusets n objs ->
  F32.is_zero (scan_min_max n os).1 = false ->
  ((exists topology',
      hwloc_setup_distances_from_os_matrix cover topology n objs os = Done topology')
   <-> cells_inside n objs)
  /\ (~ cells_inside n objs ->
      hwloc_setup_distances_from_os_matrix cover topology n objs os = Fault)
  /\ (matrix_fits n -> rows_inside n objs -> cells_inside n objs).
Proof.
  intros Hcover Hroot Hset Hzero.
  assert (forall topology',
            hwloc_setup_distances_from_os_matrix cover topology n objs os = Done topology' ->
            cells_inside n objs) as Hinside.
  { intros topology'. unfold hwloc_setup_distances_from_os_matrix.
    rewrite Hcover, Hroot, Hset. unfold hwloc_bitmap_isequal. rewrite N.eqb_refl.
    cbn [negb]. destruct (scan_min_max n os) as [min max]. simpl in Hzero. rewrite Hzero.
    destruct (fill_latency _ _ _ _ _ _) as [matrix| |] eqn:Hfill; [| done | done].
    intros _. by eapply fill_latency_inside. }
  split; [| split].
  - split; [intros [topology' Hrun]; by eapply Hinside |].
    intros Hrows.
    destruct (normalize_done cover topology n objs os root root_obj)
      as (matrix & Hrun & _); [done | done | done | done | done |].
    by eexists.
  - intros Hout.
    destruct (hwloc_setup_distances_from_os_matrix cover topology n objs os)
      as [topology'| |] eqn:Hrun; [by destruct Hout; eapply Hinside | done |].
    exfalso. revert Hrun. unfold hwloc_setup_distances_from_os_matrix.
    rewrite Hcover, Hroot, Hset. unfold hwloc_bitmap_isequal. rewrite N.eqb_refl.
    cbn [negb]. destruct (scan_min_max n os) as [min max]. simpl in Hzero. rewrite Hzero.
    destruct (fill_latency _ _ _ _ _ _) as [matrix| |] eqn:Hfill; [done | done |].
    exfalso. revert Hfill. unfold fill_latency. apply for_range_o_not_exhausted.
    intros i m. destruct (store m _ _) as [m1| |] eqn:H1; simpl; [| done |].
    + apply for_range_o_not_exhausted. intros j m2.
      destruct (store m2 _ _) as [m3| |] eqn:H3; simpl; [| done |].
      * unfold store. by destruct (_ <? _)%N.
      * unfold store in H3. by destruct (_ <? _)%N.
    + unfold store in H1. by destruct (_ <? _)%N.
  - intros Hfits Hrows. by apply rows_well_placed.
Qed.

Lemma normalizer_stays_in_matrix_witness :
  hwloc_setup_distances_from_os_matrix cover_by_root sample_topology 2 sample_nodes_apart
    matrix_unequal_diagonal
  = Fault.
Proof.
  apply (normalizer_stays_in_matrix_iff cover_by_root sample_topology 2 sample_nodes_apart
           matrix_unequal_diagonal [] (tree_obj sample_tree));
    [reflexivity | reflexivity | reflexivity | reflexivity |].
  intros Hinside. specialize (Hinside 1 1 ltac:(lia) ltac:(lia)).
  vm_compute in Hinside. lia.
Defined.

(** ** Grouping: the objects without a minimal link *)

Lemma members_one (id : nat) (g : list nat) :
  1 <= members id g -> exists a, a < length g /\ rd 0 g a = id.
Proof.
  induction g as [|x g IH]; simpl; [lia |].
  destruct (Nat.eqb_spec x id) as [-> | Hne]; intros H.
  - exists 0. split; [lia | done].
  - destruct IH as (a & Ha & Hg); [lia |]. exists (S a). split; [lia | done].
Qed.

Lemma members_two (id : nat) (g : list nat) :
  2 <= members id g -> exists a b, a <> b /\ rd 0 g a = id /\ rd 0 g b = id.
Proof.
  induction g as [|x g IH]; simpl; [lia |].
  destruct (Nat.eqb_spec x id) as [-> | Hne]; intros H.
  - destruct (members_one id g) as (a & _ & Ha); [lia |].
    exists 0, (S a). split; [lia | done].
  - destruct IH as (a & b & Hab & Ha & Hb); [lia |].
    exists (S a), (S b). split; [lia | done].
Qed.

(** A chain that leaves its start begins with a link from it, and ends
    with a link to its end. *)
Lemma min_chain_ends (n : nat) (d : list float) (min : float) (a k : nat) :
  min_chain n d min a k ->
  a = k
  \/ ((exists k1, k1 < n /\ F32.eq (cell n d a k1) min = true)
      /\ (exists j, j < n /\ F32.eq (cell n d j k) min = true)).
Proof.
  induction 1 as [a | a j k Hchain IH Hj Hk Hlink]; [by left |]. right.
  destruct IH as [-> | [Hfirst _]]; (split; [| by exists j]); [by exists k | done].
Qed.

(** X29. An object without a minimal link, that is, whose row and
    column hold no cell equal to the least distance at the rank of
    another object, is left without a group by the clustering; when the
    clustering finds two groups or more, the factorisation then leaves
    its array and the grouping fails there. *)
Theorem isolated_object_stays_ungrouped (G : hwloc_obj_type_t)
    (alloc : hwloc_obj_type_t -> Z -> hwloc_obj)
    (insert : hwloc_topology -> hwloc_obj -> hwloc_topology)
    (topology : hwloc_topology) (n : nat) (objs : list hwloc_obj) (d : list float)
    (depth : Z) (k : nat) :
  k < n ->
  (forall j, j < n ->
     F32.eq (cell n d k j) (find_min_distance n d) = false
     /\ F32.eq (cell n d j k) (find_min_distance n d) = false) ->
  exists c g,
    hwloc_setup_group_from_min_distance n d = Done (c, g)
    /\ rd 0 g k = 0
    /\ (2 <= c -> (N.of_nat n <= UINT_MAX)%N ->
        forall budget,
          hwloc__setup_groups_from_distances G alloc insert budget topology n objs d depth
          = Fault).
Proof.
  intros Hk Halone.
  destruct (groups_chained n d) as (c & g & Hrun & Hlen & Hc & Htwo & Hbelow & Hgroups).
  exists c, g. split; [done |].
  assert (rd 0 g k = 0) as Hzero.
  { destruct (Nat.eq_dec (rd 0 g k) 0) as [Hz | Hnz]; [done |]. exfalso.
    specialize (Hbelow k).
    destruct (Hgroups (rd 0 g k) ltac:(lia)) as (seed & Hseed & Hmember & Hchain).
    destruct (decide (seed = k)) as [-> | Hne].
    - destruct (members_two (rd 0 g k) g) as (a & b & Hab & Ha & Hb); [apply Htwo; lia |].
      assert (exists other, other <> k /\ rd 0 g other = rd 0 g k) as (other & Hother & Ho).
      { destruct (decide (a = k)) as [-> | Hak]; [by exists b | by exists a]. }
      destruct (min_chain_ends _ _ _ _ _ (Hchain other Ho)) as [-> | [(k1 & Hk1 & Hl) _]];
        [done |].
      destruct (Halone k1 Hk1) as [Hrow _]. by rewrite Hrow in Hl.
    - destruct (min_chain_ends _ _ _ _ _ (Hchain k eq_refl)) as [-> | [_ (j & Hj & Hl)]];
        [done |].
      destruct (Halone j Hj) as [_ Hcol]. by rewrite Hcol in Hl. }
  split; [done |]. intros Hc2 Hfits budget.
  assert (factorize n d g c
            (groupsizes (create_groups G alloc insert topology n objs g c depth))
          = Fault) as Hfault.
  { destruct (factorize n d g c _) as [gd| |] eqn:E;
      [| done | by apply factorize_not_exhausted in E].
    exfalso. revert E. apply factorize_needs_groups; [by exists k | lia]. }
  destruct budget; simpl; rewrite Hrun; simpl.
  all: destruct (n <=? 2) eqn:E2; [apply Nat.leb_le in E2; lia |].
  all: destruct c as [|[|c]]; [lia | lia |]; simpl.
  all: by rewrite Hfault.
Qed.

Lemma isolated_object_witness :
  exists c g,
    hwloc_setup_group_from_min_distance 5 matrix_two_pairs_and_one = Done (c, g)
    /\ rd 0 g 4 = 0.
Proof.
  destruct (isolated_object_stays_ungrouped sample_group_type sample_alloc sample_insert
              sample_topology 5 sample_units matrix_two_pairs_and_one 0 4)
    as (c & g & Hrun & Hzero & _).
  - lia.
  - intros j Hj.
    assert (j = 0 \/ j = 1 \/ j = 2 \/ j = 3 \/ j = 4) as [-> | [-> | [-> | [-> | ->]]]]
      by lia; split; reflexivity.
  - exists c, g. split; [exact Hrun | exact Hzero].
Defined.
